(** * ircodecs: integer-sequence codecs, embedded from the Python sources

    The Python modules are embedded shallowly: Python integers are [Z],
    Python lists and bytearrays are [list Z], and every function that can
    raise returns a [result].  Loops are run with an explicit fuel taken
    from the quantity that the loop decreases. *)

From Stdlib Require Import ZArith Lia ZifyBool.
From stdpp Require Import base list numbers.
From coqutil Require Import Z.bitblast.

Local Open Scope Z_scope.

(** ** Python values and exceptions *)

(** The exceptions the sources can raise.  [InvalidPadding] and
    [InvalidInput] are the two explicit [raise Exception(...)] sites
    (bitbyteutils.validate_padding and unaryencoder.encode); [OutOfFuel]
    is not a Python exception, it marks a loop of the model that was given
    too little fuel. *)
Inductive error : Type :=
  | IndexError
  | KeyError
  | ValueError
  | TypeError
  | InvalidPadding
  | InvalidInput
  | OutOfFuel.

Inductive result (A : Type) : Type :=
  | Ok (a : A)
  | Raise (e : error).
Arguments Ok {A} a.
Arguments Raise {A} e.

#[global] Instance result_ret : MRet result := fun A a => Ok a.
#[global] Instance result_bind : MBind result := fun A B f m =>
  match m with
  | Ok a => f a
  | Raise e => Raise e
  end.

Module py.

(** [len(l)] *)
Definition len {A} (l : list A) : Z := Z.of_nat (length l).

(** Index normalisation of [l[i]]: a negative index counts from the end. *)
Definition norm_index (n i : Z) : Z := if i <? 0 then i + n else i.

(** [l[i]], raising IndexError out of range. *)
Definition getitem {A} (l : list A) (i : Z) : result A :=
  let j := norm_index (len l) i in
  if (j <? 0) || (len l <=? j) then Raise IndexError
  else match l !! Z.to_nat j with
       | Some x => Ok x
       | None => Raise IndexError
       end.

(** [l[i] = x] on a list of integers. *)
Definition setitem {A} (l : list A) (i : Z) (x : A) : result (list A) :=
  let j := norm_index (len l) i in
  if (j <? 0) || (len l <=? j) then Raise IndexError
  else Ok (<[Z.to_nat j := x]> l).

(** [b[i] = x] on a bytearray: the value must be in [range(256)]. *)
Definition bytearray_setitem (l : list Z) (i x : Z) : result (list Z) :=
  if (x <? 0) || (255 <? x) then Raise ValueError else setitem l i x.

(** Bound normalisation of a slice [l[a:b]]. *)
Definition norm_bound (n i : Z) : Z :=
  if i <? 0 then Z.max 0 (i + n) else Z.min i n.

(** [l[a:b]] *)
Definition slice {A} (l : list A) (a b : Z) : list A :=
  let a' := norm_bound (len l) a in
  let b' := norm_bound (len l) b in
  take (Z.to_nat (b' - a')) (drop (Z.to_nat a') l).

(** [l[a:]] *)
Definition slice_from {A} (l : list A) (a : Z) : list A :=
  drop (Z.to_nat (norm_bound (len l) a)) l.

(** [l[:b]] *)
Definition slice_to {A} (l : list A) (b : Z) : list A :=
  take (Z.to_nat (norm_bound (len l) b)) l.

(** [range(a, b)] *)
Definition range (a b : Z) : list Z := seqZ a (b - a).

(** [x >> k] and [x << k]: a negative shift count raises ValueError. *)
Definition rshift (x k : Z) : result Z :=
  if k <? 0 then Raise ValueError else Ok (Z.shiftr x k).
Definition lshift (x k : Z) : result Z :=
  if k <? 0 then Raise ValueError else Ok (Z.shiftl x k).

(** [int(b)] for a bool. *)
Definition int_of_bool (b : bool) : Z := if b then 1 else 0.

(** [l.pop(0)]: the removed element and the list that is left. *)
Definition pop0 {A} (l : list A) : result (A * list A) :=
  match l with
  | [] => Raise IndexError
  | x :: l' => Ok (x, l')
  end.

(** [l.pop()]: drops the last element. *)
Definition pop_last {A} (l : list A) : result (list A) :=
  match l with
  | [] => Raise IndexError
  | _ => Ok (removelast l)
  end.

(** [bytearray(l)] of a list: every value must be in [range(256)]. *)
Definition bytearray_of_list (l : list Z) : result (list Z) :=
  if forallb (fun x => (0 <=? x) && (x <=? 255)) l then Ok l
  else Raise ValueError.

(** [int(math.ceil(a / float(b)))] for [b > 0], computed exactly. *)
Definition ceil_div (a b : Z) : Z := (a + b - 1) / b.

(** Insertion into a sorted list and [sorted(l)]. *)
Fixpoint insert_sorted (x : Z) (l : list Z) : list Z :=
  match l with
  | [] => [x]
  | y :: l' => if x <=? y then x :: l else y :: insert_sorted x l'
  end.
Definition sorted (l : list Z) : list Z := foldr insert_sorted [] l.

(** Monadic iteration [for x in xs: acc = body(acc, x)]. *)
Fixpoint for_each {A S} (xs : list A) (body : S -> A -> result S) (s : S)
    : result S :=
  match xs with
  | [] => Ok s
  | x :: xs' => s' ← body s x; for_each xs' body s'
  end.

End py.

(** ** bitbytearray/bitbyteutils.py *)
Module bitbyteutils.

(** [to_bytes(size, number)]: big-endian bytes of [number]. *)
Definition to_bytes (size number : Z) : list Z :=
  (fun i => Z.land (Z.shiftr number (Z.shiftl i 3)) 255)
    <$> reverse (py.range 0 size).

Definition to_byte (number : Z) : list Z := to_bytes 1 number.

Definition to_left (byte places : Z) : result Z :=
  s ← py.lshift byte places; Ok (Z.land s 255).

Definition to_right (byte places : Z) : result Z :=
  s ← py.rshift byte places; Ok (Z.land s 255).

(** [validate_padding(padding)]: returns when
    [padding >= 0 or padding < 8], raises otherwise. *)
Definition validate_padding (padding : Z) : result unit :=
  if (padding >=? 0) || (padding <? 8) then Ok tt
  else Raise InvalidPadding.

End bitbyteutils.

(** ** bitutils.py *)
Module bitutils.

(** Body of the [while bits > 0] loop of [write_binary_in_iarray]. *)
Fixpoint write_iarray_loop (fuel : nat) (array : list Z)
    (offset number bits : Z) : result (list Z * Z) :=
  if bits >? 0 then
    match fuel with
    | O => Raise OutOfFuel
    | S fuel' =>
        let array_index := Z.shiftr offset 5 in
        let bit_index := Z.land offset 31 in
        let writable := 32 - bit_index in
        let to_write := if bits <? writable then bits else writable in
        let shift := Z.abs (bits - writable) in
        old ← py.getitem array array_index;
        array' ← (if writable <? bits
                  then py.setitem array array_index
                         (old + Z.shiftr number shift)
                  else py.setitem array array_index
                         (old + Z.shiftl number shift));
        mask ← py.rshift 0xFFFFFFFF (32 - shift);
        write_iarray_loop fuel' array' (offset + to_write)
          (Z.land number mask) (bits - to_write)
    end
  else Ok (array, offset).

(** [write_binary_in_iarray(array, offset, number, bits)]: the array
    after the in-place writes, and the returned offset. *)
Definition write_binary_in_iarray (array : list Z) (offset number bits : Z)
    : result (list Z * Z) :=
  write_iarray_loop (Z.to_nat bits) array offset number bits.

(** [read_binary_from_iarray(array, offset, bits)] *)
Definition read_binary_from_iarray (array : list Z) (offset bits : Z)
    : result Z :=
  let array_index := Z.shiftr offset 5 in
  let bit_index := Z.land offset 31 in
  let readable := 32 - bit_index in
  word ← py.getitem array array_index;
  mask ← py.rshift 0xFFFFFFFF bit_index;
  let extracted := Z.land word mask in
  let to_shift := readable - bits in
  let to_shift := to_shift * py.int_of_bool (to_shift >? 0) in
  number ← py.rshift extracted to_shift;
  let bits := bits - readable in
  if bits >? 0 then
    next ← py.getitem array (array_index + 1);
    extracted ← py.rshift next (32 - bits);
    Ok (Z.shiftl number bits + extracted)
  else Ok number.

(** Body of the [while bits > 0] loop of [write_binary_in_barray]. *)
Fixpoint write_barray_loop (fuel : nat) (array : list Z)
    (offset number bits : Z) : result (list Z * Z) :=
  if bits >? 0 then
    match fuel with
    | O => Raise OutOfFuel
    | S fuel' =>
        let array_index := Z.shiftr offset 3 in
        let bit_index := Z.land offset 7 in
        let writable := 8 - bit_index in
        let to_write := if bits <? writable then bits else writable in
        let shift := Z.abs (bits - writable) in
        old ← py.getitem array array_index;
        array' ← (if writable <? bits
                  then py.setitem array array_index
                         (old + Z.shiftr number shift)
                  else py.setitem array array_index
                         (old + Z.shiftl number shift));
        mask ← py.rshift 0xFFFFFFFF (32 - shift);
        write_barray_loop fuel' array' (offset + to_write)
          (Z.land number mask) (bits - to_write)
    end
  else Ok (array, offset).

Definition write_binary_in_barray (array : list Z) (offset number bits : Z)
    : result (list Z * Z) :=
  write_barray_loop (Z.to_nat bits) array offset number bits.

(** Body of the [while bits > 0] loop of [read_binary_from_barray]. *)
Fixpoint read_barray_loop (fuel : nat) (array : list Z)
    (offset bits number : Z) : result Z :=
  if bits >? 0 then
    match fuel with
    | O => Raise OutOfFuel
    | S fuel' =>
        let array_index := Z.shiftr offset 3 in
        let bit_index := Z.land offset 7 in
        let readable := 8 - bit_index in
        let to_read := if bits <? readable then bits else readable in
        word ← py.getitem array array_index;
        mask ← py.rshift 0xFF bit_index;
        let extracted := Z.land word mask in
        let to_shift := readable - bits in
        let to_shift := to_shift * py.int_of_bool (to_shift >? 0) in
        shifted ← py.rshift extracted to_shift;
        read_barray_loop fuel' array (offset + to_read) (bits - to_read)
          (Z.shiftl number to_read + shifted)
    end
  else Ok number.

Definition read_binary_from_barray (array : list Z) (offset bits : Z)
    : result Z :=
  read_barray_loop (Z.to_nat bits) array offset bits 0.

End bitutils.

(** ** gapsencoder.py

    Both functions receive their list by reference.  The model runs them in
    a state monad over the contents of the argument object, so that what
    the caller's list holds after the call is part of the result. *)
Module gapsencoder.

(** A computation over the argument list object. *)
Definition on_arg (A : Type) : Type := list Z -> result (A * list Z).

Definition arg_ret {A} (a : A) : on_arg A := fun s => Ok (a, s).
Definition arg_bind {A B} (m : on_arg A) (f : A -> on_arg B) : on_arg B :=
  fun s => match m s with
           | Ok (a, s') => f a s'
           | Raise e => Raise e
           end.
(** [arg[i]] *)
Definition arg_getitem (i : Z) : on_arg Z :=
  fun s => x ← py.getitem s i; Ok (x, s).
(** [len(arg)] *)
Definition arg_len : on_arg Z := fun s => Ok (py.len s, s).
(** [arg.pop(0)] *)
Definition arg_pop0 : on_arg Z :=
  fun s => '(x, s') ← py.pop0 s; Ok (x, s').
(** The elements a [for x in arg] loop visits when its body leaves
    [arg] alone. *)
Definition arg_iter : on_arg (list Z) := fun s => Ok (s, s).

Fixpoint arg_for {S} (xs : list Z) (body : S -> Z -> on_arg S) (acc : S)
    : on_arg S :=
  match xs with
  | [] => arg_ret acc
  | x :: xs' => arg_bind (body acc x) (arg_for xs' body)
  end.

(** [encode(numbers)] *)
Definition encode : on_arg (list Z) :=
  arg_bind (arg_getitem 0) (fun first =>
  arg_bind arg_len (fun n =>
  arg_for (py.range 1 n)
    (fun gaps i =>
       arg_bind (arg_getitem i) (fun a =>
       arg_bind (arg_getitem (i - 1)) (fun b =>
       arg_ret (gaps ++ [a - b]))))
    [first])).

(** [decode(gaps)] *)
Definition decode : on_arg (list Z) :=
  arg_bind arg_pop0 (fun first =>
  arg_bind arg_iter (fun rest =>
  arg_for rest
    (fun numbers gap =>
       fun s => last ← py.getitem numbers (-1); Ok (numbers ++ [gap + last], s))
    [first])).

End gapsencoder.

(** ** vbencoder.py *)
Module vbencoder.

(** The [while True] loop of [encode]. *)
Fixpoint encode_loop (fuel : nat) (number : Z) (encoded : list Z)
    : result (list Z) :=
  match fuel with
  | O => Raise OutOfFuel
  | S fuel' =>
      let encoded := [Z.land number 127] ++ encoded in
      if number <? 128 then Ok encoded
      else encode_loop fuel' (Z.shiftr number 7) encoded
  end.

(** [encode(number)] *)
Definition encode (number : Z) : result (list Z) :=
  encoded ← encode_loop (S (Z.to_nat (Z.log2 number))) number [];
  last ← py.getitem encoded (-1);
  py.setitem encoded (-1) (last + 128).

(** The [for i in range(byte_index, len(encoded))] loop of
    [decode_number]; [None] when the loop ends without returning. *)
Fixpoint decode_number_loop (encoded : list Z) (indexes : list Z)
    (number : Z) : result (option (Z * Z)) :=
  match indexes with
  | [] => Ok None
  | i :: indexes' =>
      byte ← py.getitem encoded i;
      let number := Z.shiftl number 7 + byte in
      if byte >? 127 then Ok (Some (number - 128, (i + 1) * 8))
      else decode_number_loop encoded indexes' number
  end.

(** [decode_number(encoded, offset)] *)
Definition decode_number (encoded : list Z) (offset : Z) : result (Z * Z) :=
  let byte_index := Z.shiftr offset 3 in
  r ← decode_number_loop encoded (py.range byte_index (py.len encoded)) 0;
  match r with
  | Some found => Ok found
  | None => Ok (0, offset)
  end.

(** [decode(encoded)] *)
Definition decode (encoded : list Z) : list Z :=
  fst (foldl (fun '(numbers, number) byte =>
                let number := Z.shiftl number 7 + byte in
                if byte >? 127 then (numbers ++ [number - 128], 0)
                else (numbers, number))
             ([], 0) encoded).

Section Size.

(** [log2_floor n] stands for the floating-point expression
    [math.floor(math.log(n, 2))], which the code evaluates for [n > 0];
    [math.log] raises ValueError on the other integers. *)
Variable log2_floor : Z -> Z.

(** [compute_encoded_size(numbers)], in bits.  [math.ceil(x/8)] is
    computed exactly. *)
Definition compute_encoded_size (numbers : list Z) : result Z :=
  py.for_each numbers
    (fun size number =>
       if number <=? 0 then Raise ValueError else
       let required_bits := log2_floor number + 1 in
       let required_bits := required_bits + py.ceil_div required_bits 8 in
       number_size ← py.lshift (py.ceil_div required_bits 8) 3;
       Ok (size + number_size))
    0.

End Size.

End vbencoder.

(** ** unaryencoder.py *)
Module unaryencoder.

(** The two mask dictionaries, keys 0..8. *)
Definition READ_MSB_MASKS (k : Z) : result Z :=
  if (0 <=? k) && (k <=? 7) then Ok (Z.shiftr 128 k)
  else if k =? 8 then Ok 0 else Raise KeyError.

Definition READ_SINCE_MASKS (k : Z) : result Z :=
  if (0 <=? k) && (k <=? 8) then Ok (Z.shiftr 255 k) else Raise KeyError.

(** [encode(number, optimize)]: the byte list and the padding.
    [math.ceil((number+1)/float(8))] is computed exactly. *)
Definition encode (number : Z) (optimize : bool) : result (list Z * Z) :=
  let bytes_required := py.ceil_div (number + 1) 8 in
  let padding := 8 - (number `mod` 8) - 1 in
  let padding := if padding =? 8 then 0 else padding in
  if bytes_required <? 0 then Raise ValueError else
  let encoded := replicate (Z.to_nat bytes_required) 255 in
  last ← py.getitem encoded (-1);
  encoded ← py.setitem encoded (-1) (Z.land (Z.shiftl last (padding + 1)) 255);
  if optimize then
    if number =? 0 then Raise InvalidInput else
    encoded ← (if padding =? 7 then py.pop_last encoded else Ok encoded);
    last ← py.getitem encoded (-1);
    encoded ← py.setitem encoded (-1) (Z.land (Z.shiftl last 1) 255);
    let padding := if padding <? 7 then padding + 1 else 0 in
    Ok (encoded, padding)
  else Ok (encoded, padding).

(** [while encoded[byte_index] == 255] of [decode]: the number and the
    byte index after the run of full bytes. *)
Fixpoint skip_full_bytes (fuel : nat) (encoded : list Z)
    (number byte_index : Z) : result (Z * Z) :=
  match fuel with
  | O => Raise OutOfFuel
  | S fuel' =>
      byte ← py.getitem encoded byte_index;
      if byte =? 255
      then skip_full_bytes fuel' encoded (number + 8) (byte_index + 1)
      else Ok (number, byte_index)
  end.

(** [while readed & READ_MSB_MASKS[bit_index]] of [decode]. *)
Fixpoint count_leading_ones (fuel : nat) (readed number bit_index : Z)
    : result (Z * Z) :=
  match fuel with
  | O => Raise OutOfFuel
  | S fuel' =>
      mask ← READ_MSB_MASKS bit_index;
      if Z.land readed mask =? 0 then Ok (number, bit_index)
      else count_leading_ones fuel' readed (number + 1) (bit_index + 1)
  end.

(** One turn of the [for _ in range(nums)] loop of [decode], on the
    state (decoded, byte_index, bit_index). *)
Definition decode_step (encoded : list Z) (is_optimized : bool)
    (st : list Z * Z * Z) : result (list Z * Z * Z) :=
  let '(decoded, byte_index, bit_index) := st in
  let number := py.int_of_bool is_optimized in
  read_mask ← READ_SINCE_MASKS bit_index;
  byte ← py.getitem encoded byte_index;
  let readed := Z.land byte read_mask in
  '(number, byte_index, readed, bit_index) ←
    (if readed =? read_mask then
       '(number, byte_index) ←
         skip_full_bytes (S (length encoded)) encoded
           (number + (8 - bit_index)) (byte_index + 1);
       readed ← py.getitem encoded byte_index;
       Ok (number, byte_index, readed, 0)
     else Ok (number, byte_index, readed, bit_index));
  '(number, bit_index) ← count_leading_ones 9 readed number bit_index;
  let bit_index := Z.land (bit_index + 1) 7 in
  Ok (decoded ++ [number], byte_index + py.int_of_bool (bit_index =? 0),
      bit_index).

(** [decode(encoded, nums, is_optimized, offset)] *)
Definition decode (encoded : list Z) (nums : Z) (is_optimized : bool)
    (offset : Z) : result (list Z) :=
  '(decoded, _, _) ←
    py.for_each (py.range 0 nums)
      (fun st _ => decode_step encoded is_optimized st)
      ([], Z.shiftr offset 3, Z.land offset 7);
  Ok decoded.

End unaryencoder.

(** ** bitbytearray/__init__.py *)
Module BitByteArray.

(** The object: its bytearray and its bit pointer. *)
Record t : Type := Build { stream : list Z; bit_pointer : Z }.

(** [BitByteArray()] *)
Definition new : t := Build [] 0.

(** [self.padding()] *)
Definition padding (self : t) : Z :=
  let padding := 8 - bit_pointer self in
  if padding =? 8 then 0 else padding.

(** [self.__recompute_bit_pointer(padding)] *)
Definition recompute_bit_pointer (self : t) (padding : Z) : result t :=
  _ ← bitbyteutils.validate_padding padding;
  if padding =? 0 then Ok self
  else
    let offset := 8 - padding in
    Ok (Build (stream self) (Z.land (bit_pointer self + offset) 7)).

(** [self.__has_to_write_carried(byte_padding, bytearray_offset)] *)
Definition has_to_write_carried (byte_padding bytearray_offset : Z) : bool :=
  let to_write := bytearray_offset - byte_padding in
  to_write >? 0.

(** [self.append(element, padding)]; the value it returns is dropped by
    every caller, the model keeps the object only. *)
Definition append (self : t) (element padding : Z) : result t :=
  _ ← bitbyteutils.validate_padding padding;
  let offset := bit_pointer self in
  if offset =? 0 then
    recompute_bit_pointer
      (Build (stream self ++ bitbyteutils.to_byte element) (bit_pointer self))
      padding
  else
    to_last_byte ← py.rshift element offset;
    last ← py.getitem (stream self) (-1);
    stream1 ← py.bytearray_setitem (stream self) (-1) (last + to_last_byte);
    carried ← bitbyteutils.to_left element (8 - offset);
    let stream2 :=
      if has_to_write_carried padding offset
      then stream1 ++ bitbyteutils.to_byte carried else stream1 in
    recompute_bit_pointer (Build stream2 (bit_pointer self)) padding.

(** [self.extend(elements, padding)] *)
Definition extend (self : t) (elements : list Z) (padding : Z) : result t :=
  _ ← bitbyteutils.validate_padding padding;
  py.for_each (py.range 0 (py.len elements))
    (fun self i =>
       let last_byte := i =? py.len elements - 1 in
       let padding_to_append := if last_byte then padding else 0 in
       element ← py.getitem elements i;
       append self element padding_to_append)
    self.

(** [self.to_bytearray()] *)
Definition to_bytearray (self : t) : list Z := stream self.

End BitByteArray.

(** ** simple16encoder.py *)
Module simple16encoder.

(** The dictionary of slot layouts, keys 15 down to 0. *)
Definition S16_FORMATS (k : Z) : result (list Z) :=
  match k with
  | 15 => Ok (replicate 28 1)
  | 14 => Ok (replicate 7 2 ++ replicate 14 1)
  | 13 => Ok (replicate 7 1 ++ replicate 7 2 ++ replicate 7 1)
  | 12 => Ok (replicate 14 1 ++ replicate 7 2)
  | 11 => Ok (replicate 14 2)
  | 10 => Ok ([4] ++ replicate 8 3)
  | 9 => Ok ([3] ++ replicate 4 4 ++ replicate 3 3)
  | 8 => Ok (replicate 7 4)
  | 7 => Ok (replicate 4 5 ++ replicate 2 4)
  | 6 => Ok (replicate 2 4 ++ replicate 4 5)
  | 5 => Ok (replicate 3 6 ++ replicate 2 5)
  | 4 => Ok (replicate 2 5 ++ replicate 3 6)
  | 3 => Ok (replicate 4 7)
  | 2 => Ok ([10] ++ replicate 2 9)
  | 1 => Ok (replicate 2 14)
  | 0 => Ok [28]
  | _ => Raise KeyError
  end.

Definition S16_FORMAT_KEYS_REVERSED : list Z :=
  reverse (py.range 0 16).

(** [MASKS = {x: (1 << x)-1 for x in range(0, 33)}] *)
Definition MASKS (x : Z) : result Z :=
  if (0 <=? x) && (x <=? 32) then Ok (Z.shiftl 1 x - 1) else Raise KeyError.

(** [all(MASKS[slots[i]] >= numbers[start+i] for i in indexes)],
    stopping at the first [False]. *)
Fixpoint all_fit (slots numbers : list Z) (start : Z) (indexes : list Z)
    : result bool :=
  match indexes with
  | [] => Ok true
  | i :: indexes' =>
      slot ← py.getitem slots i;
      mask ← MASKS slot;
      number ← py.getitem numbers (start + i);
      if mask >=? number then all_fit slots numbers start indexes'
      else Ok false
  end.

(** The [for s16f in S16_FORMAT_KEYS_REVERSED] loop of
    [find_optimal_format]; [None] is Python's [None], returned when the
    loop ends without a [return]. *)
Fixpoint find_optimal_format_loop (keys : list Z) (numbers : list Z)
    (start : Z) : result (option (Z * Z)) :=
  match keys with
  | [] => Ok None
  | s16f :: keys' =>
      slots ← S16_FORMATS s16f;
      let slots_size := py.len slots in
      let slots_size :=
        if slots_size >? py.len numbers - start
        then py.len numbers - start else slots_size in
      fit ← all_fit slots numbers start (py.range 0 slots_size);
      if fit : bool then Ok (Some (s16f, py.len slots))
      else find_optimal_format_loop keys' numbers start
  end.

Definition find_optimal_format (numbers : list Z) (start : Z)
    : result (option (Z * Z)) :=
  find_optimal_format_loop S16_FORMAT_KEYS_REVERSED numbers start.

(** The [for i in range(0, len(to_encode))] loop of [encode], on the
    state (bits_to_move, encoded_batch). *)
Definition pack_step (s16format : Z) (to_encode : list Z) (st : Z * Z)
    (i : Z) : result (Z * Z) :=
  let '(bits_to_move, encoded_batch) := st in
  slots ← S16_FORMATS s16format;
  slot ← py.getitem slots i;
  let bits_to_move := bits_to_move - slot in
  number ← py.getitem to_encode i;
  shifted ← py.lshift number bits_to_move;
  Ok (bits_to_move, encoded_batch + shifted).

(** The [while start < len(numbers)] loop of [encode].  Unpacking the
    [None] of [find_optimal_format] raises TypeError. *)
Fixpoint encode_loop (fuel : nat) (numbers : list Z) (start : Z)
    (encoded : list Z) : result (list Z) :=
  if start <? py.len numbers then
    match fuel with
    | O => Raise OutOfFuel
    | S fuel' =>
        found ← find_optimal_format numbers start;
        match found with
        | None => Raise TypeError
        | Some (s16format, numbers_to_encode) =>
            let to_encode :=
              py.slice numbers start (start + numbers_to_encode) in
            let start := start + numbers_to_encode in
            let bits_to_move := 28 in
            let encoded_batch := Z.shiftl s16format bits_to_move in
            '(_, encoded_batch) ←
              py.for_each (py.range 0 (py.len to_encode))
                (pack_step s16format to_encode)
                (bits_to_move, encoded_batch);
            encode_loop fuel' numbers start (encoded ++ [encoded_batch])
        end
    end
  else Ok encoded.

(** [encode(numbers)] *)
Definition encode (numbers : list Z) : result (list Z) :=
  encode_loop (length numbers) numbers 0 [].

(** [decode_batch(batch, s16format)] *)
Definition decode_batch (batch s16format : Z) : result (list Z) :=
  slots ← S16_FORMATS s16format;
  '(numbers, _) ←
    py.for_each slots
      (fun '(numbers, offset) bits_to_process =>
         let offset := offset + bits_to_process in
         shifted ← py.rshift batch (28 - offset);
         mask ← MASKS bits_to_process;
         Ok (numbers ++ [Z.land shifted mask], offset))
      ([], 0);
  Ok numbers.

(** [while numbers and numbers[-1] is 0: del numbers[-1]] *)
Fixpoint strip_trailing_zeros (fuel : nat) (numbers : list Z) : list Z :=
  match fuel with
  | O => numbers
  | S fuel' =>
      match numbers with
      | [] => []
      | _ => if last numbers 1 =? 0
             then strip_trailing_zeros fuel' (removelast numbers)
             else numbers
      end
  end.

(** [decode(encoded, remove_trailing_zeros)] *)
Definition decode (encoded : list Z) (remove_trailing_zeros : bool)
    : result (list Z) :=
  header_mask ← MASKS 5;
  numbers ←
    py.for_each encoded
      (fun numbers batch =>
         batch_numbers ←
           decode_batch batch (Z.land (Z.shiftr batch 28) header_mask);
         Ok (numbers ++ batch_numbers))
      [];
  if remove_trailing_zeros
  then Ok (strip_trailing_zeros (length numbers) numbers)
  else Ok numbers.

End simple16encoder.

(** ** pforencoder.py *)
Module pforencoder.

Definition POSSIBLES_B : list Z := py.range 1 33.

Definition MASKS (x : Z) : result Z :=
  if (0 <=? x) && (x <=? 32) then Ok (Z.shiftl 1 x - 1) else Raise KeyError.

Definition HEADER_SIZE : Z := 32.
Definition B_HEADER_SIZE : Z := 5.

(** [estimate_encoded_size(numbers, b)] *)
Definition estimate_encoded_size (numbers : list Z) (b : Z) : result Z :=
  max_number ← MASKS b;
  let size := HEADER_SIZE + py.len numbers * b in
  exception_count ←
    py.for_each (py.range 0 (py.len numbers))
      (fun exception_count i =>
         number ← py.getitem numbers i;
         if number >? max_number then Ok (exception_count + 1)
         else Ok exception_count)
      0;
  Ok (size + exception_count * 32).

(** [__find_optimal_b(numbers)] *)
Definition find_optimal_b (numbers : list Z) : result Z :=
  optimal_b ← py.getitem POSSIBLES_B 0;
  optimal_size ← estimate_encoded_size numbers optimal_b;
  '(optimal_b, _) ←
    py.for_each (py.range 1 (py.len POSSIBLES_B))
      (fun '(optimal_b, optimal_size) i =>
         current_b ← py.getitem POSSIBLES_B i;
         current_size ← estimate_encoded_size numbers current_b;
         if current_size <? optimal_size then Ok (current_b, current_size)
         else Ok (optimal_b, optimal_size))
      (optimal_b, optimal_size);
  Ok optimal_b.

(** One turn of the [for i in range(0, len(numbers))] loop of [encode],
    on the state (encoded, offset, exceptions_indexes, exceptions). *)
Definition encode_step (numbers : list Z) (b : Z)
    (st : list Z * Z * list Z * list Z) (i : Z)
    : result (list Z * Z * list Z * list Z) :=
  let '(encoded, offset, exceptions_indexes, exceptions) := st in
  number ← py.getitem numbers i;
  mask ← MASKS b;
  '(number, exceptions_indexes, exceptions) ←
    (if number >? mask then
       upper ← py.rshift number b;
       Ok (Z.land number mask, exceptions_indexes ++ [i],
           exceptions ++ [upper])
     else Ok (number, exceptions_indexes, exceptions));
  '(encoded, _) ← bitutils.write_binary_in_iarray encoded offset number b;
  Ok (encoded, offset + b, exceptions_indexes, exceptions).

(** [encode(numbers)].  [math.floor(32/b)] and the two [math.ceil] are
    computed exactly; a zero [numbers_per_int] raises as the division
    does. *)
Definition encode (numbers : list Z) : result (list Z) :=
  b ← find_optimal_b numbers;
  let numbers_per_int := 32 / b in
  if numbers_per_int =? 0 then Raise ValueError else
  let encoded_size := py.ceil_div (py.len numbers) numbers_per_int in
  let encoded := replicate (Z.to_nat encoded_size) 0 in
  '(encoded, offset, exceptions_indexes, exceptions) ←
    py.for_each (py.range 0 (py.len numbers)) (encode_step numbers b)
      (encoded, 0, [], []);
  let used_ints := py.ceil_div offset 32 in
  let encoded := py.slice_to encoded used_ints in
  let encoded :=
    [Z.shiftl (b - 1) (32 - B_HEADER_SIZE) + py.len exceptions] ++ encoded in
  exception_encode ←
    simple16encoder.encode (exceptions_indexes ++ exceptions);
  Ok (encoded ++ exception_encode).

(** [__get_header(encoded)] *)
Definition get_header (encoded : list Z) : result (Z * Z) :=
  let offset := 32 - B_HEADER_SIZE in
  word ← py.getitem encoded 0;
  let bits := Z.shiftr word offset + 1 in
  mask ← MASKS offset;
  let exceptions_count := Z.land word mask in
  Ok (bits, exceptions_count).

(** [__merge_exceptions(decoded, exceptions, b)] *)
Definition merge_exceptions (decoded exceptions : list Z) (b : Z)
    : result (list Z) :=
  let middle := Z.shiftr (py.len exceptions) 1 in
  let exceptions_indexes := py.slice exceptions 0 middle in
  let exceptions := py.slice_from exceptions middle in
  '(decoded, _) ←
    py.for_each exceptions_indexes
      (fun '(decoded, exceptions) i =>
         '(high, exceptions) ← py.pop0 exceptions;
         exception ← py.lshift high b;
         old ← py.getitem decoded i;
         decoded ← py.setitem decoded i (old + exception);
         Ok (decoded, exceptions))
      (decoded, exceptions);
  Ok decoded.

(** [decode(encoded, nums)] *)
Definition decode (encoded : list Z) (nums : Z) : result (list Z) :=
  '(b, exceptions_count) ← get_header encoded;
  let encoded := py.slice_from encoded 1 in
  '(decoded, offset) ←
    py.for_each (py.range 0 nums)
      (fun '(decoded, offset) _ =>
         number ← bitutils.read_binary_from_iarray encoded offset b;
         Ok (decoded ++ [number], offset + b))
      ([], 0);
  if exceptions_count >? 0 then
    let ints_readed := py.ceil_div offset 32 in
    let exceptions := py.slice_from encoded ints_readed in
    exceptions ← simple16encoder.decode exceptions true;
    q ← py.lshift exceptions_count 1;
    let exceptions := py.slice exceptions 0 q in
    merge_exceptions decoded exceptions b
  else Ok decoded.

End pforencoder.

(** ** eliasfanoencoder.py *)
Module eliasfanoencoder.

Definition MASKS (x : Z) : result Z :=
  if (0 <=? x) && (x <=? 32) then Ok (Z.shiftl 1 x - 1) else Raise KeyError.

(** [BV_MASKS], keys 0..7. *)
Definition BV_MASKS (k : Z) : result Z :=
  if (0 <=? k) && (k <=? 7) then Ok (Z.shiftr 128 k) else Raise KeyError.

(** [__delta_encode_since_min(numbers)] *)
Definition delta_encode_since_min (numbers : list Z) : result (list Z) :=
  encoded ←
    py.for_each (py.slice_from numbers 1)
      (fun encoded number =>
         first ← py.getitem numbers 0; Ok (encoded ++ [number - first]))
      [];
  num1 ← py.getitem numbers 0;
  if num1 =? 0 then Ok ([0] ++ numbers) else
  e0 ← py.getitem encoded 0;
  let fano_1st_number := Z.min (e0 - 1) (num1 - 1) in
  let vb_number := num1 - fano_1st_number in
  Ok ([vb_number; fano_1st_number] ++ encoded).

(** [__delta_decode_since_min(encoded)] *)
Definition delta_decode_since_min (encoded : list Z) : result (list Z) :=
  e0 ← py.getitem encoded 0;
  e1 ← py.getitem encoded 1;
  let num1 := e0 + e1 in
  Ok ([num1] ++ ((fun number => num1 + number) <$> py.slice_from encoded 2)).

(** [bv_encode(numbers)] *)
Definition bv_encode (numbers : list Z) : result (list Z * Z) :=
  max_number ← py.getitem numbers (-1);
  let size := py.ceil_div (max_number + 1) 8 in
  if size <? 0 then Raise ValueError else
  encoded ←
    py.for_each numbers
      (fun encoded number =>
         let array_index := Z.shiftr number 3 in
         let bit_index := Z.land number 7 in
         old ← py.getitem encoded array_index;
         mask ← BV_MASKS bit_index;
         py.bytearray_setitem encoded array_index (Z.lor old mask))
      (replicate (Z.to_nat size) 0);
  let padding := 8 - Z.land (max_number + 1) 7 in
  let padding := padding * py.int_of_bool (padding <? 8) in
  Ok (encoded, padding).

(** The [while number < max_number] loop of [bv_decode], on the state
    (decoded, array_index, bit_index, number). *)
Fixpoint bv_decode_loop (fuel : nat) (encoded : list Z) (max_number : Z)
    (decoded : list Z) (array_index bit_index number : Z)
    : result (list Z) :=
  if number <? max_number then
    match fuel with
    | O => Raise OutOfFuel
    | S fuel' =>
        byte ← py.getitem encoded array_index;
        if byte =? 255 then
          bv_decode_loop fuel' encoded max_number
            (decoded ++ py.range number (number + 8))
            (array_index + 1) 0 (number + 8)
        else
          '(decoded, number) ←
            py.for_each (py.range bit_index 8)
              (fun '(decoded, number) readed_bit =>
                 byte ← py.getitem encoded array_index;
                 mask ← BV_MASKS readed_bit;
                 if Z.land byte mask =? 0 then Ok (decoded, number + 1)
                 else Ok (decoded ++ [number], number + 1))
              (decoded, number);
          bv_decode_loop fuel' encoded max_number decoded
            (array_index + 1) 0 number
    end
  else Ok decoded.

(** [bv_decode(encoded, nums, offset)] *)
Definition bv_decode (encoded : list Z) (nums offset : Z)
    : result (list Z) :=
  let array_index := Z.shiftr offset 3 in
  let bit_index := Z.land offset 7 in
  let max_number := Z.shiftl (py.len (py.slice_from encoded array_index)) 3 in
  decoded ←
    bv_decode_loop (S (Z.to_nat max_number)) encoded max_number []
      array_index bit_index 0;
  Ok (py.slice_to decoded nums).

(** [__encode_upper(upper_numbers)] *)
Definition encode_upper (upper_numbers : list Z) : result BitByteArray.t :=
  '(upper_gaps, _) ← gapsencoder.encode upper_numbers;
  py.for_each upper_gaps
    (fun upper_bbarray number =>
       '(uencode, padding) ← unaryencoder.encode number false;
       BitByteArray.extend upper_bbarray uencode padding)
    BitByteArray.new.

(** [__encode_lower(lower_numbers, l)] *)
Definition encode_lower (lower_numbers : list Z) (l : Z)
    : result BitByteArray.t :=
  let padding := 8 - (l `mod` 8) in
  let padding := if padding =? 8 then 0 else padding in
  py.for_each lower_numbers
    (fun lower_bbarray number =>
       let number := Z.shiftl number padding in
       let number := bitbyteutils.to_bytes (py.ceil_div l 8) number in
       BitByteArray.extend lower_bbarray number padding)
    BitByteArray.new.

(** [__merge_encodes(l, lower_encode, upper_encode)] *)
Definition merge_encodes (l : Z) (lower_encode upper_encode : BitByteArray.t)
    : result (list Z * Z) :=
  lower_encode ←
    BitByteArray.extend lower_encode (BitByteArray.stream upper_encode)
      (BitByteArray.padding upper_encode);
  let lheader := bitbyteutils.to_byte l in
  let padding := BitByteArray.padding lower_encode in
  encoded ←
    py.bytearray_of_list (lheader ++ BitByteArray.to_bytearray lower_encode);
  Ok (encoded, padding).

Section Encode.

(** [log2_ceil max_number list_size] stands for the floating-point
    expression [int(math.ceil(math.log(max_number/list_size, 2)))]. *)
Variable log2_ceil : Z -> Z -> Z.

(** The standard Elias-Fano branch of [encode], from [delta = ...] on. *)
Definition encode_standard (first_number : Z) (numbers : list Z)
    (max_number list_size : Z) : result (list Z * Z) :=
  let l := log2_ceil max_number list_size in
  mask ← MASKS l;
  let lower_numbers := (fun number => Z.land number mask) <$> numbers in
  upper_numbers ←
    py.for_each numbers
      (fun upper_numbers number =>
         let lower := Z.land number mask in
         upper ← py.rshift (number - lower) l;
         Ok (upper_numbers ++ [upper]))
      [];
  upper_encode ← encode_upper upper_numbers;
  lower_encode ← encode_lower lower_numbers l;
  vb ← vbencoder.encode first_number;
  encoded ← py.bytearray_of_list vb;
  '(merged, padding) ← merge_encodes l lower_encode upper_encode;
  Ok (encoded ++ merged, padding).

(** The characteristic-vector branch of [encode]. *)
Definition encode_bitvector (first_number : Z) (numbers : list Z)
    : result (list Z * Z) :=
  encoded ← vbencoder.encode first_number;
  let encoded := encoded ++ [255] in
  '(bvencode, padding) ← bv_encode numbers;
  Ok (encoded ++ bvencode, padding).

(** [encode(numbers)] *)
Definition encode (numbers : list Z) : result (list Z * Z) :=
  if py.len numbers =? 1 then
    n0 ← py.getitem numbers 0;
    vb ← vbencoder.encode n0;
    Ok (vb, 0)
  else
    numbers ← delta_encode_since_min (py.sorted numbers);
    '(first_number, numbers) ← py.pop0 numbers;
    max_number ← py.getitem numbers (-1);
    let list_size := py.len numbers in
    if list_size >? Z.shiftr max_number 2
    then encode_bitvector first_number numbers
    else encode_standard first_number numbers max_number list_size.

End Encode.

(** The branch of [decode] taken when the header byte is 255. *)
Definition decode_bitvector (encoded : list Z) (nums first_number offset : Z)
    : result (list Z) :=
  bits ← bv_decode encoded nums offset;
  delta_decode_since_min ([first_number] ++ bits).

(** The branch of [decode] taken otherwise: the Elias-Fano loop. *)
Definition decode_standard (encoded : list Z) (nums first_number offset l : Z)
    : result (list Z) :=
  let lower_offset := offset in
  let upper_offset := offset + l * nums in
  '(decoded, _, _, _) ←
    py.for_each (py.range 0 nums)
      (fun '(decoded, delta, lower_offset, upper_offset) _ =>
         lower ← bitutils.read_binary_from_barray encoded lower_offset l;
         uppers ← unaryencoder.decode encoded 1 false upper_offset;
         upper ← py.getitem uppers 0;
         let delta := delta + upper in
         shifted ← py.lshift delta l;
         Ok (decoded ++ [shifted + lower], delta, lower_offset + l,
             upper_offset + (upper + 1)))
      ([first_number], 0, lower_offset, upper_offset);
  delta_decode_since_min decoded.

(** [decode(encoded, nums)] *)
Definition decode (encoded : list Z) (nums : Z) : result (list Z) :=
  if nums =? 1 then Ok (vbencoder.decode encoded) else
  '(first_number, offset) ← vbencoder.decode_number encoded 0;
  l ← py.getitem encoded (Z.shiftr offset 3);
  let offset := offset + 8 in
  if l =? 255 then decode_bitvector encoded nums first_number offset
  else decode_standard encoded nums first_number offset l.

End eliasfanoencoder.

(** ** bitpackingencoder.py *)
Module bitpackingencoder.

Section Encode.

(** [log2_floor n] stands for the floating-point expression
    [int(math.floor(math.log(n, 2)))], which the code evaluates for
    [n > 0]; [math.log] raises ValueError on the other integers. *)
Variable log2_floor : Z -> Z.

(** [encode(numbers)]: the bytes and the padding.
    [math.ceil(bits_required/8.0)] is computed exactly. *)
Definition encode (numbers : list Z) : result (list Z * Z) :=
  max_number ← py.getitem (py.sorted numbers) (-1);
  if max_number <=? 0 then Raise ValueError else
  let b := log2_floor max_number + 1 in
  let bits_required := b * py.len numbers in
  let bytes_required := py.ceil_div bits_required 8 in
  let encoded := replicate (Z.to_nat bytes_required) 0 in
  '(encoded, _) ←
    py.for_each numbers
      (fun '(encoded, offset) number =>
         '(encoded, _) ← bitutils.write_binary_in_barray encoded offset number b;
         Ok (encoded, offset + b))
      (encoded, 0);
  header ← vbencoder.encode (b - 1);
  encoded ← py.bytearray_of_list (header ++ encoded);
  let padding := 8 - bits_required `mod` 8 in
  let padding := if padding =? 8 then 0 else padding in
  Ok (encoded, padding).

(** [compute_encoded_size(numbers)], in bits. *)
Definition compute_encoded_size (numbers : list Z) : result Z :=
  max_number ← py.getitem (py.sorted numbers) (-1);
  if max_number <=? 0 then Raise ValueError else
  let b := log2_floor max_number + 1 in
  let size := b * py.len numbers in
  header ← vbencoder.compute_encoded_size log2_floor [b];
  Ok (size + header).

End Encode.

(** [decode(encoded, nums)] *)
Definition decode (encoded : list Z) (nums : Z) : result (list Z) :=
  '(b, offset) ← vbencoder.decode_number encoded 0;
  let b := b + 1 in
  py.for_each (py.range 0 nums)
    (fun decoded i =>
       number ← bitutils.read_binary_from_barray encoded (offset + i * b) b;
       Ok (decoded ++ [number]))
    [].

End bitpackingencoder.

(** ** gammaencoder.py *)
Module gammaencoder.

Section Encode.

(** [log2_floor n] stands for [int(math.floor(math.log(n, 2)))], as in
    [bitpackingencoder]. *)
Variable log2_floor : Z -> Z.

(** [__to_vb(number)]: the bits of the number below its leading one, as
    bytes, and the padding.  With a negative exponent [2 ** e] is a float,
    which the shift [number <<= padding] rejects with TypeError. *)
Definition to_vb (number : Z) : result (list Z * Z) :=
  if number <=? 0 then Raise ValueError else
  let required_bits := log2_floor number + 1 in
  if required_bits - 1 <? 0 then Raise TypeError else
  let number := number - 2 ^ (required_bits - 1) in
  let new_required_bits := required_bits - 1 in
  let required_bytes := py.ceil_div new_required_bits 8 in
  let padding := 8 - Z.land new_required_bits 7 in
  let padding := if padding =? 8 then 0 else padding in
  number ← py.lshift number padding;
  Ok (bitbyteutils.to_bytes required_bytes number, padding).

(** [__merge_encodes(unary_encode, unary_padding, vb_encode, vb_padding)] *)
Definition merge_encodes (unary_encode : list Z) (unary_padding : Z)
    (vb_encode : list Z) (vb_padding : Z) : result (list Z * Z) :=
  encoded ← BitByteArray.extend BitByteArray.new unary_encode unary_padding;
  encoded ← BitByteArray.extend encoded vb_encode vb_padding;
  Ok (BitByteArray.to_bytearray encoded, BitByteArray.padding encoded).

(** [encode(number)] *)
Definition encode (number : Z) : result (list Z * Z) :=
  '(vbencoded, vbpadding) ← to_vb number;
  let size := py.len vbencoded * 8 - vbpadding in
  '(uencoded, upadding) ← unaryencoder.encode size false;
  merge_encodes uencoded upadding vbencoded vbpadding.

(** [compute_encoded_size(numbers)], in bits. *)
Definition compute_encoded_size (numbers : list Z) : result Z :=
  py.for_each numbers
    (fun size number =>
       if number <=? 0 then Raise ValueError else
       shifted ← py.lshift (log2_floor number) 1;
       let number_size := shifted + 1 in
       Ok (size + number_size))
    0.

End Encode.

(** [decode(encoded, nums)] *)
Definition decode (encoded : list Z) (nums : Z) : result (list Z) :=
  '(decoded, _) ←
    py.for_each (py.range 0 nums)
      (fun '(decoded, offset) _ =>
         uereturned ← unaryencoder.decode encoded 1 false offset;
         vb_size ← py.getitem uereturned 0;
         let offset := offset + vb_size + 1 in
         number ← bitutils.read_binary_from_barray encoded offset vb_size;
         shifted ← py.lshift 1 vb_size;
         let number := number + shifted in
         Ok (decoded ++ [number], offset + vb_size))
      ([], 0);
  Ok decoded.

End gammaencoder.

(** * Properties *)

Lemma bind_Ok {A B} (a : A) (f : A -> result B) : (Ok a ≫= f) = f a.
Proof. reflexivity. Qed.

Lemma bind_Raise {A B} (e : error) (f : A -> result B) :
  (Raise e ≫= f) = Raise e.
Proof. reflexivity. Qed.

(** ** Python list primitives *)

Section PyLemmas.
Context {A : Type}.
Implicit Types (l : list A) (i : Z) (x : A).

Lemma getitem_nonneg l i x :
  0 <= i -> l !! Z.to_nat i = Some x -> py.getitem l i = Ok x.
Proof.
  intros Hi Hl. unfold py.getitem, py.norm_index, py.len.
  apply lookup_lt_Some in Hl as Hlt.
  destruct (i <? 0) eqn:E; [lia|].
  destruct ((i <? 0) || (Z.of_nat (length l) <=? i)) eqn:E2; [lia|].
  by rewrite Hl.
Qed.

Lemma getitem_Ok_nonneg l i x :
  0 <= i -> py.getitem l i = Ok x -> l !! Z.to_nat i = Some x.
Proof.
  unfold py.getitem, py.norm_index, py.len. intros Hi.
  destruct (i <? 0) eqn:E; [lia|].
  destruct (_ || _); [done|].
  destruct (l !! Z.to_nat i); congruence.
Qed.

Lemma getitem_in_range l i :
  0 <= i < py.len l -> exists x, py.getitem l i = Ok x /\ l !! Z.to_nat i = Some x.
Proof.
  intros Hi. unfold py.len in Hi.
  destruct (lookup_lt_is_Some_2 l (Z.to_nat i)) as [x Hx]; [lia|].
  exists x. split; [by apply getitem_nonneg; [lia|]|done].
Qed.

Lemma getitem_last l x : py.getitem (l ++ [x]) (-1) = Ok x.
Proof.
  unfold py.getitem, py.norm_index, py.len. rewrite length_app. simpl.
  destruct (_ || _) eqn:E; [lia|].
  replace (Z.to_nat (-1 + Z.of_nat (length l + 1))) with (length l + 0)%nat by lia.
  by rewrite lookup_app_r, Nat.add_0_r, Nat.sub_diag by lia.
Qed.

Lemma setitem_last l x y : py.setitem (l ++ [x]) (-1) y = Ok (l ++ [y]).
Proof.
  unfold py.setitem, py.norm_index, py.len. rewrite length_app. simpl.
  destruct (_ || _) eqn:E; [lia|].
  replace (Z.to_nat (-1 + Z.of_nat (length l + 1))) with (length l + 0)%nat by lia.
  by rewrite insert_app_r.
Qed.

Lemma setitem_nonneg l i x :
  0 <= i < py.len l -> py.setitem l i x = Ok (<[Z.to_nat i := x]> l).
Proof.
  intros Hi. unfold py.setitem, py.norm_index.
  destruct (i <? 0) eqn:E; [lia|].
  destruct (_ || _) eqn:E2; [lia|done].
Qed.

Lemma snoc_cases l : l = [] \/ exists l' x, l = l' ++ [x].
Proof.
  destruct l as [|a l] using rev_ind; [by left|right; eauto].
Qed.

Lemma len_app l1 l2 : py.len (l1 ++ l2) = py.len l1 + py.len l2.
Proof. unfold py.len. rewrite length_app. lia. Qed.

Lemma len_nonneg l : 0 <= py.len l.
Proof. unfold py.len. lia. Qed.

End PyLemmas.

Lemma slice_from_cons {A} (x : A) (l : list A) : py.slice_from (x :: l) 1 = l.
Proof.
  unfold py.slice_from, py.norm_bound, py.len. simpl length.
  change (1 <? 0) with false. cbv iota.
  replace (Z.to_nat _) with 1%nat by lia. done.
Qed.

Lemma len_replicate {A} (n : nat) (x : A) : py.len (replicate n x) = Z.of_nat n.
Proof. unfold py.len. by rewrite length_replicate. Qed.

(** Iterating over [range(a, b)] peels off [a]. *)
Lemma range_cons (a b : Z) : a < b -> py.range a b = a :: py.range (a + 1) b.
Proof.
  intros H. unfold py.range.
  rewrite seqZ_cons by lia. f_equal. f_equal; lia.
Qed.

Lemma range_nil (a b : Z) : b <= a -> py.range a b = [].
Proof. intros H. unfold py.range, seqZ. by replace (Z.to_nat (b - a)) with 0%nat by lia. Qed.

Lemma range_snoc (a b : Z) : a <= b -> py.range a (b + 1) = py.range a b ++ [b].
Proof.
  intros H. unfold py.range.
  replace (b + 1 - a) with ((b - a) + 1) by lia.
  rewrite seqZ_app by lia. f_equal.
  rewrite seqZ_cons, seqZ_nil by lia. f_equal. lia.
Qed.

Lemma for_each_cons {A S} (x : A) (xs : list A) (body : S -> A -> result S) (s : S) :
  py.for_each (x :: xs) body s = (s' ← body s x; py.for_each xs body s').
Proof. reflexivity. Qed.

Lemma for_each_nil {A S} (body : S -> A -> result S) (s : S) :
  py.for_each [] body s = Ok s.
Proof. reflexivity. Qed.

Lemma for_each_ext {A S} (xs : list A) (body body' : S -> A -> result S) (s : S) :
  (forall s x, body s x = body' s x) ->
  py.for_each xs body s = py.for_each xs body' s.
Proof.
  intros H. revert s. induction xs as [|x xs IH]; intros s; [done|].
  rewrite !for_each_cons, H. destruct (body' s x); [|done].
  rewrite !bind_Ok. apply IH.
Qed.

(** A loop that appends [f x] for every [x]. *)
Lemma for_each_map {A B} (f : A -> B) (xs : list A) (acc : list B) :
  py.for_each xs (fun acc x => Ok (acc ++ [f x])) acc = Ok (acc ++ (f <$> xs)).
Proof.
  revert acc. induction xs as [|x xs IH]; intros acc.
  - simpl. by rewrite app_nil_r.
  - rewrite for_each_cons, bind_Ok, IH, <- app_assoc. done.
Qed.

Lemma for_each_app {A S} (xs ys : list A) (body : S -> A -> result S) (s : S) :
  py.for_each (xs ++ ys) body s = (s' ← py.for_each xs body s; py.for_each ys body s').
Proof.
  revert s. induction xs as [|x xs IH]; intros s; simpl; [done|].
  destruct (body s x); simpl; [apply IH|done].
Qed.

(** ** bitbyteutils.validate_padding *)

(** C7: [validate_padding] is documented to reject a padding that is
    negative or at least 8, but its guard [padding >= 0 or padding < 8] holds
    for every integer: the function returns normally on every padding and
    never raises, in particular at 8 and at -1. *)
Theorem validate_padding_never_raises :
  (forall padding : Z, bitbyteutils.validate_padding padding = Ok tt) /\
  bitbyteutils.validate_padding 8 = Ok tt /\
  bitbyteutils.validate_padding (-1) = Ok tt.
Proof.
  split; [|done].
  intros padding. unfold bitbyteutils.validate_padding.
  destruct (_ || _) eqn:E; [done|lia].
Qed.

(** ** vbencoder.decode_number *)

Lemma byte_without_high_bit (b : Z) :
  0 <= b < 256 -> Z.testbit b 7 = false -> b <= 127.
Proof.
  intros Hb Ht. apply Z.testbit_false in Ht; [|lia].
  change (2 ^ 7) with 128 in Ht.
  destruct (Z.le_gt_cases b 127) as [|Hgt]; [done|exfalso].
  revert Ht. Z.div_mod_to_equations. lia.
Qed.

Lemma decode_number_loop_no_terminator (encoded indexes : list Z) (number : Z) :
  (forall i, i ∈ indexes -> exists b, py.getitem encoded i = Ok b /\ b <= 127) ->
  vbencoder.decode_number_loop encoded indexes number = Ok None.
Proof.
  revert number. induction indexes as [|i indexes IH]; intros number H; [done|].
  simpl. destruct (H i) as (b & -> & Hb); [by left|]. simpl.
  destruct (b >? 127) eqn:E; [lia|].
  apply IH. intros j Hj. apply H. by right.
Qed.

(** C8: when no byte at index [offset/8] or later has its high bit set,
    [decode_number] returns the pair (0, offset): the default value 0 and
    the offset it was given, and raises nothing. *)
Theorem decode_number_without_terminator (encoded : list Z) (offset : Z) :
  0 <= offset ->
  (forall i b, offset / 8 <= i -> py.getitem encoded i = Ok b ->
               0 <= b < 256 /\ Z.testbit b 7 = false) ->
  vbencoder.decode_number encoded offset = Ok (0, offset).
Proof.
  intros Hoff Hbytes. unfold vbencoder.decode_number.
  rewrite decode_number_loop_no_terminator; [done|].
  intros i Hi. unfold py.range in Hi. apply elem_of_seqZ in Hi.
  rewrite Z.shiftr_div_pow2 in Hi by lia. change (2 ^ 3) with 8 in Hi.
  assert (0 <= offset / 8) by (apply Z.div_pos; lia).
  destruct (getitem_in_range encoded i) as (b & Hb & _); [lia|].
  exists b. split; [done|].
  destruct (Hbytes i b) as [Hr Ht]; [lia|done|].
  by apply byte_without_high_bit.
Qed.

Lemma decode_number_without_terminator_witness :
  vbencoder.decode_number [2; 172; 5; 6] 16 = Ok (0, 16).
Proof.
  apply decode_number_without_terminator; [lia|].
  intros i b Hi Hget. change (16 / 8) with 2 in Hi.
  unfold py.getitem, py.norm_index, py.len in Hget. simpl in Hget.
  destruct (i <? 0) eqn:E1; [lia|].
  destruct (_ || _) eqn:E2; [discriminate|].
  assert (i = 2 \/ i = 3) as [-> | ->] by lia;
    simpl in Hget; injection Hget as <-; (split; [lia|reflexivity]).
Defined.

(** ** gapsencoder *)

(** The running sums of [l] started from [acc]. *)
Fixpoint prefix_sums (acc : Z) (l : list Z) : list Z :=
  match l with
  | [] => []
  | x :: l' => (acc + x) :: prefix_sums (acc + x) l'
  end.

Lemma gaps_decode_loop (rest pre : list Z) (a : Z) (s : list Z) :
  gapsencoder.arg_for rest
    (fun numbers gap s =>
       last ← py.getitem numbers (-1); Ok (numbers ++ [gap + last], s))
    (pre ++ [a]) s
  = Ok (pre ++ [a] ++ prefix_sums a rest, s).
Proof.
  revert pre a. induction rest as [|g rest IH]; intros pre a; simpl.
  - reflexivity.
  - unfold gapsencoder.arg_bind. rewrite getitem_last. simpl.
    rewrite (IH (pre ++ [a]) (g + a)).
    rewrite <- !app_assoc. simpl. by rewrite (Z.add_comm a g).
Qed.

Lemma gaps_encode_loop (s : list Z) (indexes : list Z) (gaps : list Z) :
  (forall i, i ∈ indexes -> 1 <= i < py.len s) ->
  exists gaps',
    gapsencoder.arg_for indexes
      (fun gaps i =>
         gapsencoder.arg_bind (gapsencoder.arg_getitem i) (fun a =>
         gapsencoder.arg_bind (gapsencoder.arg_getitem (i - 1)) (fun b =>
         gapsencoder.arg_ret (gaps ++ [a - b]))))
      gaps s = Ok (gaps', s).
Proof.
  revert gaps. induction indexes as [|i indexes IH]; intros gaps H; simpl.
  - by eexists.
  - assert (1 <= i < py.len s) as Hi by (apply H; by left).
    destruct (getitem_in_range s i) as (a & Ha & _); [lia|].
    destruct (getitem_in_range s (i - 1)) as (b & Hb & _); [lia|].
    unfold gapsencoder.arg_bind at 1 2 3, gapsencoder.arg_getitem.
    rewrite Ha. simpl. rewrite Hb. simpl.
    apply IH. intros j Hj. apply H. by right.
Qed.

(** C10: [decode] pops the first element off the caller's list: called on
    a non-empty list [x :: g] it returns the running sums of the whole list
    and leaves the argument object holding [g] only.  [encode] returns
    with its argument object holding what it held before the call. *)
Theorem gaps_decode_mutates_argument (x : Z) (g : list Z) :
  gapsencoder.decode (x :: g) = Ok (prefix_sums 0 (x :: g), g) /\
  exists gaps, gapsencoder.encode (x :: g) = Ok (gaps, x :: g).
Proof.
  split.
  - unfold gapsencoder.decode, gapsencoder.arg_bind, gapsencoder.arg_pop0,
      gapsencoder.arg_iter. simpl.
    exact (gaps_decode_loop g [] x g).
  - unfold gapsencoder.encode.
    unfold gapsencoder.arg_bind at 1 2, gapsencoder.arg_getitem,
      gapsencoder.arg_len. simpl.
    apply gaps_encode_loop.
    intros i Hi. unfold py.range in Hi. apply elem_of_seqZ in Hi. lia.
Qed.

(** ** unaryencoder.encode *)

Lemma pop_last_snoc {A} (l : list A) (x : A) : py.pop_last (l ++ [x]) = Ok l.
Proof.
  unfold py.pop_last. destruct (l ++ [x]) eqn:E; [by destruct l|].
  by rewrite <- E, removelast_last.
Qed.

Lemma replicate_snoc {A} (k : Z) (x : A) :
  0 < k -> replicate (Z.to_nat k) x = replicate (Z.to_nat (k - 1)) x ++ [x].
Proof.
  intros Hk. replace (Z.to_nat k) with (S (Z.to_nat (k - 1))) by lia.
  apply replicate_S_end.
Qed.

(** Unoptimized [encode] of [n >= 0]: [(n + 8) / 8] bytes, all 255 but the
    last, and padding [7 - n mod 8]. *)
Lemma unary_encode_plain (n : Z) :
  0 <= n ->
  unaryencoder.encode n false =
    Ok (replicate (Z.to_nat ((n + 8) / 8 - 1)) 255
          ++ [Z.land (Z.shiftl 255 (8 - n `mod` 8)) 255],
        7 - n `mod` 8).
Proof.
  intros Hn. unfold unaryencoder.encode, py.ceil_div.
  replace (n + 1 + 8 - 1) with (n + 8) by lia.
  assert (0 < (n + 8) / 8) by (Z.div_mod_to_equations; lia).
  assert (0 <= n `mod` 8 < 8) by (apply Z.mod_pos_bound; lia).
  destruct (8 - n `mod` 8 - 1 =? 8) eqn:E1; [lia|].
  destruct ((n + 8) / 8 <? 0) eqn:E2; [lia|].
  rewrite replicate_snoc by done.
  rewrite getitem_last. simpl. rewrite setitem_last. simpl.
  replace (8 - n `mod` 8 - 1 + 1) with (8 - n `mod` 8) by lia.
  replace (8 - n `mod` 8 - 1) with (7 - n `mod` 8) by lia.
  reflexivity.
Qed.

(** ** eliasfanoencoder.__delta_encode_since_min *)

(** The stream as the specification words it: the first tail delta is
    replaced by [fano_first], so that after the two head values the stream
    goes on with [d[2], d[3], ...]. *)
Definition delta_stream_as_specified (S : list Z) : list Z :=
  match S with
  | s0 :: s1 :: rest =>
      if s0 =? 0 then [0] ++ S
      else
        let fano_first := Z.min (s1 - s0 - 1) (s0 - 1) in
        let vb_prefix := s0 - fano_first in
        [vb_prefix; fano_first] ++ ((fun x => x - s0) <$> rest)
  | _ => []
  end.

Lemma delta_encode_tail (numbers tail acc : list Z) (s0 : Z) :
  py.getitem numbers 0 = Ok s0 ->
  py.for_each tail
    (fun encoded number =>
       first ← py.getitem numbers 0; Ok (encoded ++ [number - first]))
    acc
  = Ok (acc ++ ((fun x => x - s0) <$> tail)).
Proof.
  intros H0.
  rewrite (for_each_ext _ _ (fun encoded number => Ok (encoded ++ [number - s0]))).
  - apply for_each_map.
  - intros s x. by rewrite H0.
Qed.

(** C3 (as the code has it): on a list [s0 :: s1 :: rest] with
    [s0 <> 0] the preprocessing yields
    [vb_prefix; fano_first; s1 - s0; ...]: the two head values followed by
    every tail delta, the first one [d[1] = s1 - s0] included, with
    [fano_first = min(d[1] - 1, s0 - 1)] and [vb_prefix = s0 - fano_first].
    With [s0 = 0] it yields [0] followed by the input unchanged. *)
Theorem delta_encode_since_min_stream (s0 s1 : Z) (rest : list Z) :
  eliasfanoencoder.delta_encode_since_min (s0 :: s1 :: rest) =
    if s0 =? 0 then Ok (0 :: s0 :: s1 :: rest)
    else
      let fano_first := Z.min (s1 - s0 - 1) (s0 - 1) in
      let vb_prefix := s0 - fano_first in
      Ok (vb_prefix :: fano_first :: (s1 - s0) :: ((fun x => x - s0) <$> rest)).
Proof.
  unfold eliasfanoencoder.delta_encode_since_min.
  rewrite slice_from_cons.
  rewrite (delta_encode_tail _ _ _ s0) by done.
  simpl. destruct (s0 =? 0); done.
Qed.

(** C3, counterexample: on [5; 7; 9] the code returns [4; 1; 2; 4], which
    keeps the first tail delta 2, and not the three-element stream of the
    specification. *)
Lemma delta_encode_since_min_keeps_first_delta :
  eliasfanoencoder.delta_encode_since_min [5; 7; 9] = Ok [4; 1; 2; 4] /\
  delta_stream_as_specified [5; 7; 9] = [4; 1; 4] /\
  eliasfanoencoder.delta_encode_since_min [5; 7; 9]
    <> Ok (delta_stream_as_specified [5; 7; 9]).
Proof. repeat split. discriminate. Qed.

(** ** simple16encoder: which inputs [encode] accepts *)

Definition sum_list (l : list Z) : Z := foldr Z.add 0 l.

Lemma sum_list_app (l1 l2 : list Z) :
  sum_list (l1 ++ l2) = sum_list l1 + sum_list l2.
Proof. induction l1 as [|x l1 IH]; simpl; [done|]. rewrite IH. lia. Qed.

Lemma sum_list_nonneg (l : list Z) :
  Forall (fun s => 0 <= s) l -> 0 <= sum_list l.
Proof. induction 1; simpl; lia. Qed.

Lemma sum_list_take_le (l : list Z) (n : nat) :
  Forall (fun s => 0 <= s) l -> sum_list (take n l) <= sum_list l.
Proof.
  intros H. rewrite <- (take_drop n l) at 2. rewrite sum_list_app.
  assert (0 <= sum_list (drop n l)) by (by apply sum_list_nonneg, Forall_drop).
  lia.
Qed.

(** What the proofs need of a slot layout: it is a key of the dictionary,
    it has at least one slot, every slot is 1 to 28 bits wide, and the
    slots fill the 28 data bits. *)
Definition layout (f : Z) (slots : list Z) : Prop :=
  simple16encoder.S16_FORMATS f = Ok slots /\
  0 <= f <= 15 /\
  0 < py.len slots /\
  Forall (fun s => 1 <= s <= 28) slots /\
  sum_list slots = 28.

Ltac solve_layout :=
  match goal with
  | |- exists slots, layout ?f slots =>
      let r := eval vm_compute in (simple16encoder.S16_FORMATS f) in
      match r with
      | Ok ?l =>
          exists l; unfold layout; split; [vm_compute; reflexivity|];
          split; [lia|]; split; [reflexivity|];
          split; [repeat constructor; lia|reflexivity]
      end
  end.

Lemma formats_layout :
  Forall (fun f => exists slots, layout f slots)
    simple16encoder.S16_FORMAT_KEYS_REVERSED.
Proof.
  unfold simple16encoder.S16_FORMAT_KEYS_REVERSED.
  change (reverse (py.range 0 16))
    with [15; 14; 13; 12; 11; 10; 9; 8; 7; 6; 5; 4; 3; 2; 1; 0].
  repeat (constructor; [solve_layout|]).
  constructor.
Qed.

Lemma masks_slot (s : Z) :
  0 <= s <= 32 -> simple16encoder.MASKS s = Ok (2 ^ s - 1).
Proof.
  intros Hs. unfold simple16encoder.MASKS.
  destruct (_ && _) eqn:E; [|lia]. by rewrite Z.shiftl_1_l.
Qed.

(** The value of the [all(...)] test: it never raises on indexes inside
    both lists; when true every tested number fits the slot of its
    position, when false some tested number does not. *)
Lemma all_fit_spec (slots numbers : list Z) (start : Z) (indexes : list Z) :
  0 <= start ->
  Forall (fun s => 1 <= s <= 28) slots ->
  (forall i, i ∈ indexes -> 0 <= i < py.len slots /\ start + i < py.len numbers) ->
  exists b,
    simple16encoder.all_fit slots numbers start indexes = Ok b /\
    if b : bool then
      forall i s x, i ∈ indexes -> slots !! Z.to_nat i = Some s ->
                    numbers !! Z.to_nat (start + i) = Some x -> x <= 2 ^ s - 1
    else
      exists i s x, i ∈ indexes /\ slots !! Z.to_nat i = Some s /\
                    numbers !! Z.to_nat (start + i) = Some x /\ 2 ^ s - 1 < x.
Proof.
  intros Hstart Hslots. induction indexes as [|i indexes IH]; intros Hin.
  - exists true. split; [done|]. intros i s x Hi. inversion Hi.
  - destruct (Hin i) as [Hi1 Hi2]; [by left|].
    destruct (getitem_in_range slots i) as (s & Hs & Hs'); [lia|].
    destruct (getitem_in_range numbers (start + i)) as (x & Hx & Hx'); [lia|].
    assert (1 <= s <= 28) as Hsr.
    { exact (Forall_lookup_1 _ _ _ _ Hslots Hs'). }
    simpl. rewrite Hs, bind_Ok, masks_slot, bind_Ok, Hx, bind_Ok by lia.
    destruct (2 ^ s - 1 >=? x) eqn:E.
    + destruct IH as (b & Hb & Hspec); [intros j Hj; apply Hin; by right|].
      exists b. split; [done|]. destruct b.
      * intros j s' x' Hj. apply elem_of_cons in Hj as [-> | Hj]; [|by apply Hspec].
        rewrite Hs', Hx'. intros [= <-] [= <-]. lia.
      * destruct Hspec as (j & s' & x' & Hj & H1 & H2 & H3).
        exists j, s', x'. split; [by right|done].
    + exists false. split; [done|]. exists i, s, x.
      split; [by left|]. repeat split; try done. lia.
Qed.

(** [find_optimal_format] never raises at a start index inside the list
    (or at its end), and what it returns is determined by [all_fit]. *)
Lemma find_optimal_format_loop_spec (keys numbers : list Z) (start : Z) :
  0 <= start <= py.len numbers ->
  Forall (fun f => exists slots, layout f slots) keys ->
  exists r,
    simple16encoder.find_optimal_format_loop keys numbers start = Ok r /\
    match r with
    | Some (f, k) =>
        f ∈ keys /\
        exists slots, layout f slots /\ k = py.len slots /\
          forall i s x, 0 <= i < k -> start + i < py.len numbers ->
                        slots !! Z.to_nat i = Some s ->
                        numbers !! Z.to_nat (start + i) = Some x ->
                        x <= 2 ^ s - 1
    | None =>
        forall f slots, f ∈ keys -> layout f slots ->
          exists i s x, 0 <= i < py.len slots /\ start + i < py.len numbers /\
                        slots !! Z.to_nat i = Some s /\
                        numbers !! Z.to_nat (start + i) = Some x /\
                        2 ^ s - 1 < x
    end.
Proof.
  intros Hstart. induction 1 as [|f keys (slots & Hlay) Hkeys IH].
  - exists None. split; [done|]. intros f slots Hf. inversion Hf.
  - destruct Hlay as (Hfmt & Hf & Hlen & Hslots & Hsum).
    simpl. rewrite Hfmt, bind_Ok.
    set (ss := if py.len slots >? py.len numbers - start
               then py.len numbers - start else py.len slots).
    assert (0 <= ss /\ ss <= py.len slots /\ ss <= py.len numbers - start) as Hss.
    { unfold ss. destruct (_ >? _) eqn:E; lia. }
    destruct (all_fit_spec slots numbers start (py.range 0 ss))
      as (b & Hb & Hiff); [lia|done| |].
    { intros i Hi. unfold py.range in Hi. apply elem_of_seqZ in Hi. lia. }
    rewrite Hb, bind_Ok. destruct b.
    + eexists. split; [done|]. split; [by left|].
      exists slots. split; [done|]. split; [done|].
      intros i s x Hi1 Hi2. apply Hiff.
      unfold py.range. apply elem_of_seqZ. unfold ss.
      destruct (_ >? _) eqn:E; lia.
    + destruct IH as (r & Hr & Hspec). exists r. split; [done|].
      destruct r as [[f' k]|].
      * destruct Hspec as [Hin Hrest]. split; [by right|done].
      * intros f' slots' Hf' Hlay'.
        apply elem_of_cons in Hf' as [-> | Hf']; [|by eapply Hspec].
        assert (slots' = slots) as -> by (destruct Hlay'; congruence).
        destruct Hiff as (i & s & x & Hi & H1 & H2 & H3).
        unfold py.range in Hi. apply elem_of_seqZ in Hi.
        exists i, s, x. repeat split; try done; lia.
Qed.

(** The data bits of a batch: value [i] shifted to the low end of slot
    [i], the slots being laid out from bit [bits_to_move] downwards. *)
Fixpoint pack (slots values : list Z) (bits_to_move : Z) : Z :=
  match values, slots with
  | v :: values', s :: slots' =>
      Z.shiftl v (bits_to_move - s) + pack slots' values' (bits_to_move - s)
  | _, _ => 0
  end.

Lemma pack_snoc (slots pre : list Z) (x s bits_to_move : Z) :
  slots !! length pre = Some s ->
  pack slots (pre ++ [x]) bits_to_move =
    pack slots pre bits_to_move
    + Z.shiftl x (bits_to_move - sum_list (take (S (length pre)) slots)).
Proof.
  revert pre bits_to_move. induction slots as [|s0 slots IH]; intros pre btm Hs.
  - by rewrite lookup_nil in Hs.
  - destruct pre as [|v pre]; simpl in *.
    + injection Hs as ->. rewrite Z.add_0_r. destruct slots; simpl; lia.
    + rewrite (IH pre (btm - s0) Hs). rewrite <- Z.add_assoc. do 3 f_equal. lia.
Qed.

Lemma take_S_sum (slots : list Z) (n : nat) (s : Z) :
  slots !! n = Some s ->
  sum_list (take (S n) slots) = sum_list (take n slots) + s.
Proof.
  intros Hs. rewrite (take_S_r _ _ _ Hs), sum_list_app. simpl. lia.
Qed.

Lemma layout_nonneg (f : Z) (slots : list Z) :
  layout f slots -> Forall (fun s => 0 <= s) slots.
Proof.
  intros (_ & _ & _ & H & _). eapply Forall_impl; [|exact H]. simpl. lia.
Qed.

Lemma pack_step_unfold (f : Z) (to_encode : list Z) (bits_to_move batch i : Z) :
  simple16encoder.pack_step f to_encode (bits_to_move, batch) i =
    (slots ← simple16encoder.S16_FORMATS f;
     slot ← py.getitem slots i;
     number ← py.getitem to_encode i;
     shifted ← py.lshift number (bits_to_move - slot);
     Ok (bits_to_move - slot, batch + shifted)).
Proof. reflexivity. Qed.

(** The packing loop of [encode] on one batch. *)
Lemma pack_loop (f : Z) (slots to_encode : list Z) (batch : Z) :
  layout f slots ->
  py.len to_encode <= py.len slots ->
  py.for_each (py.range 0 (py.len to_encode))
    (simple16encoder.pack_step f to_encode) (28, batch)
  = Ok (28 - sum_list (take (length to_encode) slots),
        batch + pack slots to_encode 28).
Proof.
  intros Hlay Hlen.
  assert (forall pre suf, to_encode = pre ++ suf ->
            py.for_each (py.range 0 (py.len pre))
              (simple16encoder.pack_step f to_encode) (28, batch)
            = Ok (28 - sum_list (take (length pre) slots),
                  batch + pack slots pre 28)) as Hgen.
  { induction pre as [|x pre IH] using rev_ind; intros suf Heq.
    - simpl. destruct slots; simpl; do 2 f_equal; lia.
    - rewrite len_app. change (py.len [x]) with 1.
      rewrite range_snoc by apply len_nonneg.
      rewrite for_each_app, (IH ([x] ++ suf)), bind_Ok
        by (by rewrite app_assoc).
      rewrite for_each_cons, pack_step_unfold.
      destruct Hlay as (Hfmt & Hf & Hl & Hslots & Hsum).
      assert (py.len pre < py.len slots) as Hlt.
      { rewrite Heq, !len_app in Hlen. change (py.len [x]) with 1 in Hlen.
        pose proof (len_nonneg suf). lia. }
      destruct (getitem_in_range slots (py.len pre)) as (s & Hs & Hs');
        [pose proof (len_nonneg pre); lia|].
      unfold py.len in Hs' at 1. rewrite Nat2Z.id in Hs'.
      rewrite Hfmt, bind_Ok, Hs, bind_Ok.
      assert (py.getitem to_encode (py.len pre) = Ok x) as ->.
      { apply getitem_nonneg; [apply len_nonneg|].
        unfold py.len. rewrite Nat2Z.id, Heq, <- app_assoc.
        by rewrite lookup_app_r, Nat.sub_diag by lia. }
      rewrite bind_Ok. unfold py.lshift.
      pose proof (sum_list_take_le slots (S (length pre))) as Hle.
      rewrite (take_S_sum _ _ _ Hs') in Hle.
      assert (Forall (fun s => 0 <= s) slots) as Hnn
        by (eapply Forall_impl; [|exact Hslots]; simpl; lia).
      specialize (Hle Hnn).
      destruct (_ <? 0) eqn:E; [lia|].
      rewrite !bind_Ok, for_each_nil.
      rewrite length_app. simpl length.
      replace (length pre + 1)%nat with (S (length pre)) by lia.
      rewrite (pack_snoc _ _ _ s) by done.
      rewrite (take_S_sum _ _ _ Hs').
      do 2 f_equal; [lia|]. rewrite <- Z.add_assoc. do 3 f_equal. lia. }
  specialize (Hgen to_encode []). rewrite app_nil_r in Hgen. by apply Hgen.
Qed.

Lemma slice_length {A} (l : list A) (a k : Z) :
  0 <= a <= py.len l -> 0 <= k ->
  py.len (py.slice l a (a + k)) = Z.min k (py.len l - a).
Proof.
  intros Ha Hk. unfold py.slice, py.norm_bound.
  destruct (a <? 0) eqn:E1; [lia|]. destruct (a + k <? 0) eqn:E2; [lia|].
  unfold py.len in *. rewrite length_take, length_drop. lia.
Qed.

Lemma slice_lookup {A} (l : list A) (a k : Z) (i : nat) :
  0 <= a <= py.len l -> 0 <= k -> Z.of_nat i < Z.min k (py.len l - a) ->
  py.slice l a (a + k) !! i = l !! (Z.to_nat a + i)%nat.
Proof.
  intros Ha Hk Hi. unfold py.slice, py.norm_bound.
  destruct (a <? 0) eqn:E1; [lia|]. destruct (a + k <? 0) eqn:E2; [lia|].
  unfold py.len in *.
  rewrite lookup_take_lt by lia. rewrite lookup_drop. f_equal. lia.
Qed.

(** Discharge the premises of a fit hypothesis by computation. *)
Ltac feed_fit H :=
  repeat match type of H with
         | ?P -> _ =>
             let HP := fresh in
             assert P as HP by (done || lia); specialize (H HP); clear HP
         end.

(** One turn of the batch loop of [encode], once a layout is found. *)
Lemma encode_loop_step (fuel : nat) (numbers : list Z) (start f k : Z)
    (slots encoded : list Z) :
  0 <= start < py.len numbers ->
  simple16encoder.find_optimal_format numbers start = Ok (Some (f, k)) ->
  layout f slots -> k = py.len slots ->
  simple16encoder.encode_loop (S fuel) numbers start encoded =
    simple16encoder.encode_loop fuel numbers (start + k)
      (encoded ++ [Z.shiftl f 28
                   + pack slots (py.slice numbers start (start + k)) 28]).
Proof.
  intros Hstart Hfind Hlay ->. simpl.
  destruct (start <? py.len numbers) eqn:E; [|lia].
  rewrite Hfind, bind_Ok.
  assert (0 < py.len slots) by (by destruct Hlay as (_ & _ & ? & _)).
  rewrite pack_loop with (slots := slots); [by rewrite bind_Ok|done|].
  rewrite slice_length by lia. lia.
Qed.

Lemma find_optimal_format_spec (numbers : list Z) (start : Z) :
  0 <= start <= py.len numbers ->
  exists r,
    simple16encoder.find_optimal_format numbers start = Ok r /\
    match r with
    | Some (f, k) =>
        exists slots, layout f slots /\ k = py.len slots /\
          forall i s x, 0 <= i < k -> start + i < py.len numbers ->
                        slots !! Z.to_nat i = Some s ->
                        numbers !! Z.to_nat (start + i) = Some x ->
                        x <= 2 ^ s - 1
    | None =>
        forall x, numbers !! Z.to_nat start = Some x -> 2 ^ 28 <= x
    end.
Proof.
  intros Hstart.
  destruct (find_optimal_format_loop_spec
              simple16encoder.S16_FORMAT_KEYS_REVERSED numbers start Hstart
              formats_layout) as (r & Hr & Hspec).
  exists r. split; [done|]. destruct r as [[f k]|].
  - by destruct Hspec as [_ Hspec].
  - intros x Hx.
    destruct (Hspec 0 [28]) as (i & s & y & Hi & Hi' & Hs & Hy & Hlt).
    { unfold simple16encoder.S16_FORMAT_KEYS_REVERSED.
      change (reverse (py.range 0 16))
        with [15; 14; 13; 12; 11; 10; 9; 8; 7; 6; 5; 4; 3; 2; 1; 0].
      repeat constructor. }
    { unfold layout. repeat split; try done. repeat constructor; lia. }
    change (py.len [28]) with 1 in Hi. assert (i = 0) as -> by lia.
    rewrite Z.add_0_r in Hy. simpl in Hs. injection Hs as <-.
    rewrite Hx in Hy. injection Hy as <-. lia.
Qed.

Lemma layout_slot_bound (f : Z) (slots : list Z) (i : nat) (s : Z) :
  layout f slots -> slots !! i = Some s -> 1 <= s <= 28.
Proof. intros (_ & _ & _ & H & _) Hs. exact (Forall_lookup_1 _ _ _ _ H Hs). Qed.

(** [encode] raises TypeError as soon as some number needs more than 28
    bits: no batch can take that number, so the loop reaches its index. *)
Lemma encode_loop_fails (numbers : list Z) (k x : Z) :
  0 <= k -> numbers !! Z.to_nat k = Some x -> 2 ^ 28 <= x ->
  forall (fuel : nat) (start : Z) (encoded : list Z),
    0 <= start <= k -> py.len numbers - start <= Z.of_nat fuel ->
    simple16encoder.encode_loop fuel numbers start encoded = Raise TypeError.
Proof.
  intros Hk Hx Hbig.
  assert (k < py.len numbers) as Hklen.
  { apply lookup_lt_Some in Hx. unfold py.len. lia. }
  induction fuel as [|fuel IH]; intros start encoded Hstart Hfuel; [lia|].
  destruct (find_optimal_format_spec numbers start) as (r & Hr & Hspec); [lia|].
  destruct r as [[f n]|].
  - destruct Hspec as (slots & Hlay & Hn & Hfit).
    rewrite (encode_loop_step _ _ _ f n slots) by (done || lia).
    assert (0 < py.len slots) by (by destruct Hlay as (_ & _ & ? & _)).
    apply IH; [|lia].
    destruct (Z.le_gt_cases (start + n) k) as [|Hgt]; [lia|exfalso].
    destruct (getitem_in_range slots (k - start)) as (s & _ & Hs); [lia|].
    specialize (Hfit (k - start) s x).
    replace (start + (k - start)) with k in Hfit by lia.
    pose proof (layout_slot_bound _ _ _ _ Hlay Hs) as Hsb.
    assert (2 ^ s <= 2 ^ 28) by (apply Z.pow_le_mono_r; lia).
    feed_fit Hfit. lia.
  - simpl. destruct (start <? py.len numbers) eqn:E; [|lia].
    by rewrite Hr.
Qed.

(** [encode] returns when every number fits in 28 bits. *)
Lemma encode_loop_succeeds (numbers : list Z) :
  Forall (fun x => x < 2 ^ 28) numbers ->
  forall (fuel : nat) (start : Z) (encoded : list Z),
    0 <= start -> py.len numbers - start <= Z.of_nat fuel ->
    exists out, simple16encoder.encode_loop fuel numbers start encoded = Ok out.
Proof.
  intros Hsmall.
  induction fuel as [|fuel IH]; intros start encoded Hstart Hfuel.
  - simpl. destruct (start <? py.len numbers) eqn:E; [lia|by eexists].
  - destruct (Z.le_gt_cases (py.len numbers) start) as [Hle | Hlt].
    { simpl. destruct (start <? py.len numbers) eqn:E; [lia|by eexists]. }
    destruct (find_optimal_format_spec numbers start) as (r & Hr & Hspec); [lia|].
    destruct r as [[f n]|].
    + destruct Hspec as (slots & Hlay & Hn & Hfit).
      rewrite (encode_loop_step _ _ _ f n slots) by (done || lia).
      assert (0 < py.len slots) by (by destruct Hlay as (_ & _ & ? & _)).
      apply IH; lia.
    + exfalso.
      destruct (getitem_in_range numbers start) as (x & _ & Hx); [lia|].
      specialize (Hspec x Hx).
      pose proof (Forall_lookup_1 _ _ _ _ Hsmall Hx) as Hlt'. simpl in Hlt'. lia.
Qed.

(** C9: Simple-16 [encode] is partial.  At the index of a number that is
    at least [2^28], [find_optimal_format] finds no layout and returns
    [None]; a list that holds such a number makes [encode] raise (the
    TypeError of unpacking [None]) instead of returning.  When every number
    is below [2^28], [find_optimal_format] finds a layout at every index
    and [encode] returns. *)
Theorem simple16_encode_partial (numbers : list Z) :
  (forall k x, 0 <= k -> numbers !! Z.to_nat k = Some x -> 2 ^ 28 <= x ->
     simple16encoder.find_optimal_format numbers k = Ok None /\
     simple16encoder.encode numbers = Raise TypeError) /\
  (Forall (fun x => x < 2 ^ 28) numbers ->
     (forall k, 0 <= k < py.len numbers ->
        exists f n, simple16encoder.find_optimal_format numbers k
                    = Ok (Some (f, n))) /\
     exists out, simple16encoder.encode numbers = Ok out).
Proof.
  split.
  - intros k x Hk Hx Hbig.
    assert (k < py.len numbers) as Hklen.
    { apply lookup_lt_Some in Hx. unfold py.len. lia. }
    split.
    + destruct (find_optimal_format_spec numbers k) as (r & Hr & Hspec); [lia|].
      destruct r as [[f n]|]; [exfalso|done].
      destruct Hspec as (slots & Hlay & Hn & Hfit).
      assert (0 < py.len slots) by (by destruct Hlay as (_ & _ & ? & _)).
      destruct (getitem_in_range slots 0) as (s & _ & Hs); [lia|].
      specialize (Hfit 0 s x). rewrite Z.add_0_r in Hfit.
      pose proof (layout_slot_bound _ _ _ _ Hlay Hs) as Hsb.
      assert (2 ^ s <= 2 ^ 28) by (apply Z.pow_le_mono_r; lia).
      feed_fit Hfit. lia.
    + unfold simple16encoder.encode.
      apply (encode_loop_fails numbers k x); try done; unfold py.len; lia.
  - intros Hsmall. split.
    + intros k Hk.
      destruct (find_optimal_format_spec numbers k) as (r & Hr & Hspec); [lia|].
      destruct r as [[f n]|]; [by eauto|exfalso].
      destruct (getitem_in_range numbers k) as (x & _ & Hx); [lia|].
      specialize (Hspec x Hx).
      pose proof (Forall_lookup_1 _ _ _ _ Hsmall Hx) as Hlt'. simpl in Hlt'. lia.
    + unfold simple16encoder.encode.
      apply encode_loop_succeeds; [done|lia|unfold py.len; lia].
Qed.

Lemma simple16_encode_partial_witness :
  (simple16encoder.find_optimal_format [3; 2 ^ 28] 1 = Ok None /\
   simple16encoder.encode [3; 2 ^ 28] = Raise TypeError) /\
  exists out, simple16encoder.encode [3; 5] = Ok out.
Proof.
  split.
  - apply (proj1 (simple16_encode_partial [3; 2 ^ 28]) 1 (2 ^ 28));
      [lia|reflexivity|lia].
  - apply (proj2 (simple16_encode_partial [3; 5])).
    repeat constructor.
Defined.


(** ** bitutils: bit-level view of a word array *)

(** Word [i] of the array, 0 outside it. *)
Definition word (arr : list Z) (i : Z) : Z := default 0 (arr !! Z.to_nat i).

(** Bit [p] of an array of [W]-bit words: bit 0 is the most significant
    bit of word 0. *)
Definition bit (W : Z) (arr : list Z) (p : Z) : bool :=
  Z.testbit (word arr (p / W)) (W - 1 - p `mod` W).

(** Every element is a [W]-bit word. *)
Definition words_ok (W : Z) (arr : list Z) : Prop :=
  Forall (fun w => 0 <= w < 2 ^ W) arr.

Lemma testbit_above (x n j : Z) :
  0 <= x < 2 ^ n -> 0 <= n <= j -> Z.testbit x j = false.
Proof.
  intros Hx Hj. rewrite <- (Z.mod_small x (2 ^ n)) by done.
  apply Z.mod_pow2_bits_high. lia.
Qed.

Lemma lt_pow2_of_bits (x n : Z) :
  0 <= x -> 0 <= n -> (forall j, n <= j -> Z.testbit x j = false) -> x < 2 ^ n.
Proof.
  intros Hx Hn Hbits.
  assert (x = x `mod` 2 ^ n) as ->.
  { apply Z.bits_inj'. intros j Hj.
    destruct (Z.lt_ge_cases j n).
    - by rewrite Z.mod_pow2_bits_low.
    - rewrite Z.mod_pow2_bits_high by lia. by apply Hbits. }
  apply Z.mod_pos_bound. lia.
Qed.

Lemma add_disjoint (a b : Z) :
  (forall j, 0 <= j -> Z.testbit a j && Z.testbit b j = false) ->
  a + b = Z.lor a b.
Proof.
  intros H. apply Z.add_nocarry_lor. apply Z.bits_inj'. intros j Hj.
  rewrite Z.land_spec, Z.bits_0. by apply H.
Qed.

(** Adding a chunk [c] of [n] bits at bit [lo] of a word whose bits
    [lo .. lo+n-1] are clear sets exactly those bits. *)
Lemma word_write (W old c lo n : Z) :
  0 <= old < 2 ^ W -> 0 <= c < 2 ^ n -> 0 <= lo -> 0 <= n -> lo + n <= W ->
  (forall j, lo <= j < lo + n -> Z.testbit old j = false) ->
  0 <= old + Z.shiftl c lo < 2 ^ W /\
  forall j, 0 <= j ->
    Z.testbit (old + Z.shiftl c lo) j =
      if (lo <=? j) && (j <? lo + n) then Z.testbit c (j - lo)
      else Z.testbit old j.
Proof.
  intros Hold Hc Hlo Hn HW Hclear.
  assert (forall j, 0 <= j ->
            Z.testbit (Z.shiftl c lo) j =
              (lo <=? j) && (j <? lo + n) && Z.testbit c (j - lo)) as Hsh.
  { intros j Hj. rewrite Z.shiftl_spec by done.
    destruct (lo <=? j) eqn:E1; simpl.
    - destruct (j <? lo + n) eqn:E2; simpl; [done|].
      apply (testbit_above c n); lia.
    - apply Z.testbit_neg_r. lia. }
  rewrite add_disjoint.
  2:{ intros j Hj. rewrite Hsh by done.
      destruct (lo <=? j) eqn:E1; destruct (j <? lo + n) eqn:E2; simpl;
        rewrite ?andb_false_r; try done.
      rewrite Hclear by lia. done. }
  assert (forall j, 0 <= j ->
            Z.testbit (Z.lor old (Z.shiftl c lo)) j =
              if (lo <=? j) && (j <? lo + n) then Z.testbit c (j - lo)
              else Z.testbit old j) as Hbits.
  { intros j Hj. rewrite Z.lor_spec, Hsh by done.
    destruct (lo <=? j) eqn:E1; destruct (j <? lo + n) eqn:E2; simpl;
      rewrite ?orb_false_r; try done.
    rewrite Hclear by lia. done. }
  split; [|done]. split.
  - apply Z.lor_nonneg. split; [lia|]. apply Z.shiftl_nonneg. lia.
  - apply lt_pow2_of_bits; [|lia|].
    + apply Z.lor_nonneg. split; [lia|]. apply Z.shiftl_nonneg. lia.
    + intros j Hj. rewrite Hbits by lia.
      destruct ((lo <=? j) && (j <? lo + n)) eqn:E; [lia|].
      apply (testbit_above old W); lia.
Qed.

Lemma mask_ones (s : Z) :
  0 <= s <= 32 -> py.rshift 0xFFFFFFFF (32 - s) = Ok (Z.ones s).
Proof.
  intros Hs. unfold py.rshift. destruct (32 - s <? 0) eqn:E; [lia|].
  f_equal. change 0xFFFFFFFF with (Z.ones 32).
  rewrite Z.shiftr_div_pow2, Z.ones_div_pow2 by lia. f_equal. lia.
Qed.

Lemma word_insert (arr : list Z) (idx new i : Z) :
  0 <= idx < py.len arr -> 0 <= i ->
  word (<[Z.to_nat idx := new]> arr) i = if i =? idx then new else word arr i.
Proof.
  intros Hidx Hi. unfold word, py.len in *.
  destruct (i =? idx) eqn:E.
  - assert (i = idx) as -> by lia.
    by rewrite list_lookup_insert_eq by lia.
  - by rewrite list_lookup_insert_ne by lia.
Qed.

Lemma word_bounds (W : Z) (arr : list Z) (i : Z) :
  0 <= W -> words_ok W arr -> 0 <= word arr i < 2 ^ W.
Proof.
  intros HW Hok. unfold word.
  destruct (arr !! Z.to_nat i) as [w|] eqn:E; simpl.
  - exact (Forall_lookup_1 _ _ _ _ Hok E).
  - split; [lia|]. apply Z.pow_pos_nonneg; lia.
Qed.

Lemma words_ok_insert (W : Z) (arr : list Z) (i : nat) (w : Z) :
  words_ok W arr -> 0 <= w < 2 ^ W -> words_ok W (<[i := w]> arr).
Proof. intros Hok Hw. by apply Forall_insert. Qed.

Lemma getitem_word (arr : list Z) (i : Z) :
  0 <= i < py.len arr -> py.getitem arr i = Ok (word arr i).
Proof.
  intros Hi. destruct (getitem_in_range arr i Hi) as (x & Hx & Hx').
  unfold word. by rewrite Hx'.
Qed.

(** The two word sizes of the module: [W = 2^k] is 8 or 32. *)
Definition word_size (k W : Z) : Prop := (k = 3 /\ W = 8) \/ (k = 5 /\ W = 32).

(** One turn of the [while bits > 0] loop of a write routine on [W]-bit
    words, [rec] being the rest of the loop. *)
Definition write_turn (k W : Z)
    (rec : list Z -> Z -> Z -> Z -> result (list Z * Z))
    (array : list Z) (offset number bits : Z) : result (list Z * Z) :=
  let array_index := Z.shiftr offset k in
  let bit_index := Z.land offset (W - 1) in
  let writable := W - bit_index in
  let to_write := if bits <? writable then bits else writable in
  let shift := Z.abs (bits - writable) in
  old ← py.getitem array array_index;
  array' ← (if writable <? bits
            then py.setitem array array_index (old + Z.shiftr number shift)
            else py.setitem array array_index (old + Z.shiftl number shift));
  mask ← py.rshift 0xFFFFFFFF (32 - shift);
  rec array' (offset + to_write) (Z.land number mask) (bits - to_write).

Definition is_write_loop (k W : Z)
    (loop : nat -> list Z -> Z -> Z -> Z -> result (list Z * Z)) : Prop :=
  forall fuel arr off num bits,
    loop fuel arr off num bits =
      if bits >? 0 then
        match fuel with
        | O => Raise OutOfFuel
        | S fuel' => write_turn k W (loop fuel') arr off num bits
        end
      else Ok (arr, off).

Lemma write_iarray_is_loop : is_write_loop 5 32 bitutils.write_iarray_loop.
Proof. intros [|fuel] arr off num bits; reflexivity. Qed.

Lemma write_barray_is_loop : is_write_loop 3 8 bitutils.write_barray_loop.
Proof. intros [|fuel] arr off num bits; reflexivity. Qed.

Ltac warith :=
  repeat match goal with x := _ |- _ => subst x end;
  try match goal with
      | H : word_size _ _ |- _ => destruct H as [[-> ->]|[-> ->]]
      end;
  (lia || (Z.div_mod_to_equations; lia)).

Lemma shiftr_word (k W o : Z) : word_size k W -> Z.shiftr o k = o / W.
Proof. intros [[-> ->]|[-> ->]]; by rewrite Z.shiftr_div_pow2. Qed.

Lemma land_word (k W o : Z) : word_size k W -> Z.land o (W - 1) = o `mod` W.
Proof.
  intros [[-> ->]|[-> ->]].
  - change (8 - 1) with (Z.ones 3). by rewrite Z.land_ones.
  - change (32 - 1) with (Z.ones 5). by rewrite Z.land_ones.
Qed.

Lemma bit_insert (W : Z) (arr : list Z) (idx new p : Z) :
  0 < W -> 0 <= idx < py.len arr -> 0 <= p ->
  bit W (<[Z.to_nat idx := new]> arr) p =
    if p / W =? idx then Z.testbit new (W - 1 - p `mod` W) else bit W arr p.
Proof.
  intros HW Hidx Hp. unfold bit. rewrite word_insert; [|done|].
  - by destruct (p / W =? idx).
  - apply Z.div_pos; lia.
Qed.

Lemma len_insert {A} (l : list A) (i : nat) (x : A) :
  py.len (<[i := x]> l) = py.len l.
Proof. unfold py.len. by rewrite length_insert. Qed.

Lemma write_loop_spec (k W : Z) loop :
  word_size k W -> is_write_loop k W loop ->
  forall (fuel : nat) (arr : list Z) (off num bits : Z),
    words_ok W arr -> 0 <= off -> 0 <= bits <= Z.of_nat fuel ->
    off + bits <= W * py.len arr ->
    0 <= num < 2 ^ bits ->
    bits - (W - off `mod` W) <= 32 ->
    (forall p, off <= p < off + bits -> bit W arr p = false) ->
    exists arr',
      loop fuel arr off num bits = Ok (arr', off + bits) /\
      py.len arr' = py.len arr /\ words_ok W arr' /\
      forall p, 0 <= p ->
        bit W arr' p =
          if (off <=? p) && (p <? off + bits)
          then Z.testbit num (off + bits - 1 - p) else bit W arr p.
Proof.
  intros HW Hloop.
  assert (0 < W <= 32) as HWr by warith.
  induction fuel as [|fuel IH]; intros arr off num bits Hok Hoff Hbits Hroom Hnum Hsh Hclear.
  { assert (bits = 0) as -> by lia. exists arr. rewrite Hloop. simpl.
    rewrite Z.add_0_r. repeat split; try done.
    intros p Hp. destruct (_ && _) eqn:E; [lia|done]. }
  destruct (Z.eq_dec bits 0) as [-> | Hpos].
  { exists arr. rewrite Hloop. simpl.
    rewrite Z.add_0_r. repeat split; try done.
    intros p Hp. destruct (_ && _) eqn:E; [lia|done]. }
  assert (0 <= off `mod` W < W) as Hbi by (apply Z.mod_pos_bound; lia).
  assert (0 <= off / W < py.len arr) as Hidx.
  { pose proof (len_nonneg arr). warith. }
  pose proof (word_bounds W arr (off / W) ltac:(lia) Hok) as Hold.
  rewrite Hloop. destruct (bits >? 0) eqn:E0; [|lia].
  unfold write_turn.
  rewrite (shiftr_word k W) by done. rewrite (land_word k W) by done.
  rewrite getitem_word, bind_Ok by done.
  destruct (W - off `mod` W <? bits) eqn:EA.
  - (* the value spills over into the next word *)
    rewrite Z.abs_eq by lia.
    rewrite setitem_nonneg, bind_Ok by done.
    rewrite mask_ones, bind_Ok by lia.
    destruct (bits <? W - off `mod` W) eqn:EB; [lia|].
    rewrite Z.land_ones by lia.
    set (shift := bits - (W - off `mod` W)).
    assert (0 < shift <= 32) as Hshift by (unfold shift; lia).
    assert (0 <= Z.shiftr num shift < 2 ^ (W - off `mod` W)) as Hc.
    { rewrite Z.shiftr_div_pow2 by lia. split.
      - apply Z.div_pos; [lia|]. apply Z.pow_pos_nonneg; lia.
      - apply Z.div_lt_upper_bound; [apply Z.pow_pos_nonneg; lia|].
        rewrite <- Z.pow_add_r by lia. unfold shift.
        replace (bits - (W - off `mod` W) + (W - off `mod` W)) with bits by lia.
        lia. }
    destruct (word_write W (word arr (off / W)) (Z.shiftr num shift) 0
                (W - off `mod` W)) as [Hnew Hnewbits]; try done; try lia.
    { intros j Hj. specialize (Hclear (off + (W - off `mod` W - 1 - j))).
      unfold bit in Hclear.
      replace ((off + (W - off `mod` W - 1 - j)) / W) with (off / W) in Hclear
        by (warith).
      replace (W - 1 - (off + (W - off `mod` W - 1 - j)) `mod` W) with j in Hclear
        by (warith).
      apply Hclear. lia. }
    rewrite Z.shiftl_0_r in Hnew, Hnewbits.
    set (arr1 := <[Z.to_nat (off / W) := word arr (off / W) + Z.shiftr num shift]> arr).
    destruct (IH arr1 (off + (W - off `mod` W)) (num `mod` 2 ^ shift) shift)
      as (arr' & Hrun & Hlen & Hok' & Hbits'); try lia.
    { by apply words_ok_insert. }
    { unfold arr1. rewrite len_insert. unfold shift. lia. }
    { apply Z.mod_pos_bound. apply Z.pow_pos_nonneg; lia. }
    { replace ((off + (W - off `mod` W)) `mod` W) with 0
        by (warith). lia. }
    { intros p Hp. unfold arr1. rewrite bit_insert by lia.
      destruct (p / W =? off / W) eqn:E1; [exfalso; warith|].
      apply Hclear. unfold shift in Hp. lia. }
    exists arr'.
    replace (off + (W - off `mod` W) + shift) with (off + bits) in *
      by (unfold shift; lia).
    replace (bits - (W - off `mod` W)) with shift by done.
    split; [done|]. split; [by rewrite Hlen; unfold arr1; rewrite len_insert|].
    split; [done|].
    intros p Hp. rewrite Hbits' by done.
    destruct ((off + (W - off `mod` W) <=? p) && (p <? off + bits)) eqn:E1.
    + destruct ((off <=? p) && (p <? off + bits)) eqn:E2; [|lia].
      apply Z.mod_pow2_bits_low. lia.
    + unfold arr1. rewrite bit_insert by lia.
      destruct (p / W =? off / W) eqn:E2.
      * rewrite Hnewbits by warith.
        destruct ((0 <=? W - 1 - p `mod` W) && (W - 1 - p `mod` W <? 0 + (W - off `mod` W))) eqn:E3.
        -- destruct ((off <=? p) && (p <? off + bits)) eqn:E4;
             [|exfalso; warith].
           rewrite Z.shiftr_spec by lia. f_equal.
           warith.
        -- destruct ((off <=? p) && (p <? off + bits)) eqn:E4;
             [exfalso; warith|].
           unfold bit. by replace (p / W) with (off / W) by lia.
      * destruct ((off <=? p) && (p <? off + bits)) eqn:E4;
          [exfalso; warith|done].
  - (* the value ends inside this word *)
    rewrite Z.abs_neq by lia.
    rewrite setitem_nonneg, bind_Ok by done.
    set (shift := - (bits - (W - off `mod` W))).
    assert (0 <= shift < W) as Hshift by (unfold shift; lia).
    rewrite mask_ones, bind_Ok by lia.
    assert ((if bits <? W - off `mod` W then bits else W - off `mod` W) = bits) as ->
      by (destruct (bits <? W - off `mod` W) eqn:EB; lia).
    rewrite Z.sub_diag. rewrite Hloop. change (0 >? 0) with false. cbv iota.
    destruct (word_write W (word arr (off / W)) num shift bits)
      as [Hnew Hnewbits]; try done; try lia.
    { intros j Hj. specialize (Hclear (off + (W - off `mod` W - 1 - j))).
      unfold bit in Hclear.
      replace ((off + (W - off `mod` W - 1 - j)) / W) with (off / W) in Hclear
        by (warith).
      replace (W - 1 - (off + (W - off `mod` W - 1 - j)) `mod` W) with j in Hclear
        by (warith).
      apply Hclear. unfold shift in *. lia. }
    eexists. split; [done|]. split; [by rewrite len_insert|].
    split; [by apply words_ok_insert|].
    intros p Hp. rewrite bit_insert by lia.
    destruct (p / W =? off / W) eqn:E2.
    + rewrite Hnewbits by warith.
      destruct ((shift <=? W - 1 - p `mod` W) && (W - 1 - p `mod` W <? shift + bits)) eqn:E3.
      * destruct ((off <=? p) && (p <? off + bits)) eqn:E4;
          [|exfalso; warith].
        f_equal. warith.
      * destruct ((off <=? p) && (p <? off + bits)) eqn:E4;
          [exfalso; warith|].
        unfold bit. by replace (p / W) with (off / W) by lia.
    + destruct ((off <=? p) && (p <? off + bits)) eqn:E4;
        [exfalso; warith|done].
Qed.

(** Reading [n] bits at bit [bi] (from the top) of a [W]-bit word: mask off
    the bits above, shift out the bits below. *)
Lemma word_read (W w bi n : Z) :
  0 <= w < 2 ^ W -> 0 <= bi -> 0 <= n -> bi + n <= W ->
  let c := Z.shiftr (Z.land w (Z.ones (W - bi))) (W - bi - n) in
  0 <= c < 2 ^ n /\
  forall j, 0 <= j < n -> Z.testbit c j = Z.testbit w (j + (W - bi - n)).
Proof.
  intros Hw Hbi Hn HW c.
  assert (forall j, 0 <= j ->
            Z.testbit c j = (j <? n) && Z.testbit w (j + (W - bi - n))) as Hbits.
  { intros j Hj. unfold c. rewrite Z.shiftr_spec by done.
    rewrite Z.land_spec, Z.testbit_ones_nonneg by lia.
    destruct (j <? n) eqn:E.
    - destruct (j + (W - bi - n) <? W - bi) eqn:E2; [|lia].
      by rewrite andb_true_r.
    - destruct (j + (W - bi - n) <? W - bi) eqn:E2; [lia|].
      by rewrite andb_false_r. }
  assert (0 <= c) as Hc.
  { unfold c. apply Z.shiftr_nonneg. apply Z.land_nonneg. left. lia. }
  split.
  - split; [done|]. apply lt_pow2_of_bits; [done|done|].
    intros j Hj. rewrite Hbits by lia. destruct (j <? n) eqn:E; [lia|done].
  - intros j Hj. rewrite Hbits by lia. destruct (j <? n) eqn:E; [done|lia].
Qed.

(** Bits of [a] placed above the [n] bits of [b]. *)
Lemma testbit_concat (a b n j : Z) :
  0 <= n -> 0 <= b < 2 ^ n -> 0 <= j ->
  Z.testbit (Z.shiftl a n + b) j =
    if j <? n then Z.testbit b j else Z.testbit a (j - n).
Proof.
  intros Hn Hb Hj.
  rewrite add_disjoint.
  - rewrite Z.lor_spec, Z.shiftl_spec by done.
    destruct (j <? n) eqn:E.
    + rewrite (Z.testbit_neg_r a) by lia. done.
    + rewrite (testbit_above b n j) by lia. by rewrite orb_false_r.
  - intros i Hi. rewrite Z.shiftl_spec by done.
    destruct (Z.lt_ge_cases i n).
    + rewrite (Z.testbit_neg_r a) by lia. done.
    + rewrite (testbit_above b n i) by lia. by rewrite andb_false_r.
Qed.

Lemma concat_bounds (a b n : Z) :
  0 <= n -> 0 <= a -> 0 <= b < 2 ^ n -> 0 <= Z.shiftl a n + b.
Proof.
  intros Hn Ha Hb. pose proof (Z.shiftl_nonneg a n). lia.
Qed.

Lemma concat_lt (a b n m : Z) :
  0 <= n -> 0 <= m -> 0 <= a < 2 ^ m -> 0 <= b < 2 ^ n ->
  Z.shiftl a n + b < 2 ^ (m + n).
Proof.
  intros Hn Hm Ha Hb. rewrite Z.shiftl_mul_pow2, Z.pow_add_r by done.
  assert (0 < 2 ^ n) by (apply Z.pow_pos_nonneg; lia). nia.
Qed.

Lemma rshift_nonneg (x k : Z) : 0 <= k -> py.rshift x k = Ok (Z.shiftr x k).
Proof. intros Hk. unfold py.rshift. destruct (k <? 0) eqn:E; [lia|done]. Qed.

(** The loop of [read_binary_from_barray]: it appends to [number] the
    [bits] bits that start at [offset]. *)
Lemma read_barray_loop_spec (fuel : nat) (arr : list Z) (off bits number : Z) :
  words_ok 8 arr -> 0 <= off -> 0 <= bits <= Z.of_nat fuel ->
  off + bits <= 8 * py.len arr ->
  exists v,
    bitutils.read_barray_loop fuel arr off bits number
      = Ok (Z.shiftl number bits + v) /\
    0 <= v < 2 ^ bits /\
    forall j, 0 <= j < bits -> Z.testbit v j = bit 8 arr (off + bits - 1 - j).
Proof.
  revert arr off bits number.
  induction fuel as [|fuel IH]; intros arr off bits number Hok Hoff Hbits Hroom.
  { assert (bits = 0) as -> by lia. exists 0. simpl.
    rewrite Z.shiftl_0_r, Z.add_0_r. repeat split; try done. lia. }
  destruct (Z.eq_dec bits 0) as [-> | Hpos].
  { exists 0. simpl.
    rewrite Z.shiftl_0_r, Z.add_0_r. repeat split; try done. lia. }
  simpl. destruct (bits >? 0) eqn:E0; [|lia].
  rewrite Z.shiftr_div_pow2 by lia. change (2 ^ 3) with 8.
  change 7 with (Z.ones 3). rewrite Z.land_ones by lia. change (2 ^ 3) with 8.
  assert (0 <= off `mod` 8 < 8) as Hbi by (apply Z.mod_pos_bound; lia).
  assert (0 <= off / 8 < py.len arr) as Hidx.
  { pose proof (len_nonneg arr). Z.div_mod_to_equations. lia. }
  pose proof (word_bounds 8 arr (off / 8) ltac:(lia) Hok) as Hw.
  rewrite getitem_word, bind_Ok by done.
  rewrite rshift_nonneg, bind_Ok by lia.
  change 255 with (Z.ones 8).
  rewrite Z.shiftr_div_pow2, Z.ones_div_pow2 by lia.
  set (n := if bits <? 8 - off `mod` 8 then bits else 8 - off `mod` 8).
  assert (0 < n /\ n <= bits /\ n <= 8 - off `mod` 8) as Hn.
  { unfold n. destruct (bits <? 8 - off `mod` 8) eqn:E; lia. }
  assert ((8 - off `mod` 8 - bits)
          * py.int_of_bool (8 - off `mod` 8 - bits >? 0)
          = 8 - off `mod` 8 - n) as ->.
  { unfold n, py.int_of_bool.
    destruct (8 - off `mod` 8 - bits >? 0) eqn:E1;
      destruct (bits <? 8 - off `mod` 8) eqn:E2; lia. }
  rewrite rshift_nonneg, bind_Ok by lia.
  destruct (word_read 8 (word arr (off / 8)) (off `mod` 8) n)
    as [Hc Hcbits]; try lia.
  set (c := Z.shiftr (Z.land (word arr (off / 8)) (Z.ones (8 - off `mod` 8)))
              (8 - off `mod` 8 - n)) in *.
  destruct (IH arr (off + n) (bits - n) (Z.shiftl number n + c))
    as (v' & Hrun & Hv' & Hv'bits); try done; try lia.
  exists (Z.shiftl c (bits - n) + v').
  split.
  { rewrite Hrun. f_equal.
    rewrite !Z.shiftl_mul_pow2 by lia.
    replace (2 ^ bits) with (2 ^ n * 2 ^ (bits - n))
      by (rewrite <- Z.pow_add_r by lia; f_equal; lia).
    ring. }
  split.
  { split; [apply concat_bounds; lia|].
    replace bits with (n + (bits - n)) at 2 by lia.
    apply concat_lt; lia. }
  intros j Hj. rewrite testbit_concat by lia.
  destruct (j <? bits - n) eqn:E.
  - rewrite Hv'bits by lia. f_equal. lia.
  - rewrite Hcbits by lia. unfold bit.
    replace ((off + bits - 1 - j) / 8) with (off / 8)
      by (Z.div_mod_to_equations; lia).
    f_equal. Z.div_mod_to_equations. lia.
Qed.

(** [read_binary_from_iarray] returns the [bits] bits that start at
    [offset], as long as they lie in at most two words. *)
Lemma read_iarray_spec (arr : list Z) (off bits : Z) :
  words_ok 32 arr -> 0 <= off -> 0 < bits ->
  bits - (32 - off `mod` 32) <= 32 ->
  off + bits <= 32 * py.len arr ->
  exists v,
    bitutils.read_binary_from_iarray arr off bits = Ok v /\
    0 <= v < 2 ^ bits /\
    forall j, 0 <= j < bits -> Z.testbit v j = bit 32 arr (off + bits - 1 - j).
Proof.
  intros Hok Hoff Hbits Hspan Hroom.
  unfold bitutils.read_binary_from_iarray.
  rewrite Z.shiftr_div_pow2 by lia. change (2 ^ 5) with 32.
  change 31 with (Z.ones 5). rewrite Z.land_ones by lia. change (2 ^ 5) with 32.
  assert (0 <= off `mod` 32 < 32) as Hbi by (apply Z.mod_pos_bound; lia).
  assert (0 <= off / 32 < py.len arr) as Hidx.
  { pose proof (len_nonneg arr). Z.div_mod_to_equations. lia. }
  pose proof (word_bounds 32 arr (off / 32) ltac:(lia) Hok) as Hw.
  rewrite (getitem_word arr (off / 32)), bind_Ok by done.
  rewrite rshift_nonneg, bind_Ok by lia.
  change 4294967295 with (Z.ones 32).
  rewrite Z.shiftr_div_pow2, Z.ones_div_pow2 by lia.
  set (n := if bits <? 32 - off `mod` 32 then bits else 32 - off `mod` 32).
  assert (0 < n /\ n <= bits /\ n <= 32 - off `mod` 32) as Hn.
  { unfold n. destruct (bits <? 32 - off `mod` 32) eqn:E; lia. }
  assert ((32 - off `mod` 32 - bits)
          * py.int_of_bool (32 - off `mod` 32 - bits >? 0)
          = 32 - off `mod` 32 - n) as ->.
  { unfold n, py.int_of_bool.
    destruct (32 - off `mod` 32 - bits >? 0) eqn:E1;
      destruct (bits <? 32 - off `mod` 32) eqn:E2; lia. }
  rewrite rshift_nonneg, bind_Ok by lia.
  destruct (word_read 32 (word arr (off / 32)) (off `mod` 32) n)
    as [Hc Hcbits]; try lia.
  set (c := Z.shiftr (Z.land (word arr (off / 32)) (Z.ones (32 - off `mod` 32)))
              (32 - off `mod` 32 - n)) in *.
  destruct (bits - (32 - off `mod` 32) >? 0) eqn:E.
  - assert (n = 32 - off `mod` 32) as Hneq.
    { unfold n. destruct (bits <? 32 - off `mod` 32) eqn:E2; lia. }
    assert (0 <= off / 32 + 1 < py.len arr) as Hidx2.
    { Z.div_mod_to_equations. lia. }
    pose proof (word_bounds 32 arr (off / 32 + 1) ltac:(lia) Hok) as Hw2.
    rewrite getitem_word, bind_Ok by done.
    rewrite rshift_nonneg, bind_Ok by lia.
    set (m := bits - (32 - off `mod` 32)) in *.
    destruct (word_read 32 (word arr (off / 32 + 1)) 0 m)
      as [Hc2 Hc2bits]; try lia.
    rewrite Z.sub_0_r in Hc2, Hc2bits.
    rewrite Z.land_ones, Z.mod_small in Hc2, Hc2bits by lia.
    eexists. split; [done|]. split.
    { split; [apply concat_bounds; lia|].
      replace bits with (n + m) by (unfold m; lia).
      apply concat_lt; lia. }
    intros j Hj. rewrite testbit_concat by lia.
    destruct (j <? m) eqn:E2.
    + rewrite Hc2bits by lia. unfold bit.
      replace ((off + bits - 1 - j) / 32) with (off / 32 + 1)
        by (unfold m in *; Z.div_mod_to_equations; lia).
      f_equal. unfold m in *. Z.div_mod_to_equations. lia.
    + rewrite Hcbits by (unfold m in *; lia). unfold bit.
      replace ((off + bits - 1 - j) / 32) with (off / 32)
        by (unfold m in *; Z.div_mod_to_equations; lia).
      f_equal. unfold m in *. Z.div_mod_to_equations. lia.
  - assert (n = bits) as Hneq.
    { unfold n. destruct (bits <? 32 - off `mod` 32) eqn:E2; lia. }
    exists c. split; [done|]. rewrite <- Hneq. split; [done|].
    intros j Hj. rewrite Hcbits by lia. unfold bit.
    replace ((off + n - 1 - j) / 32) with (off / 32)
      by (Z.div_mod_to_equations; lia).
    f_equal. Z.div_mod_to_equations. lia.
Qed.

Lemma eq_of_bits (a b n : Z) :
  0 <= a < 2 ^ n -> 0 <= b < 2 ^ n -> 0 <= n ->
  (forall j, 0 <= j < n -> Z.testbit a j = Z.testbit b j) -> a = b.
Proof.
  intros Ha Hb Hn H. apply Z.bits_inj'. intros j Hj.
  destruct (Z.lt_ge_cases j n); [apply H; lia|].
  by rewrite (testbit_above a n), (testbit_above b n) by lia.
Qed.

Lemma bit_zero_array (W : Z) (n : nat) (p : Z) : bit W (replicate n 0) p = false.
Proof.
  unfold bit, word.
  destruct (replicate n 0 !! Z.to_nat (p / W)) as [w|] eqn:E; simpl.
  - apply lookup_replicate in E as [-> _]. apply Z.bits_0.
  - apply Z.bits_0.
Qed.

Lemma words_ok_zero (W : Z) (n : nat) : 0 <= W -> words_ok W (replicate n 0).
Proof.
  intros HW. apply Forall_replicate. split; [lia|]. apply Z.pow_pos_nonneg; lia.
Qed.

(** X1: on an array of words that is clear in the
    target bit range and long enough for it, for every bit offset and
    every width [bits >= 1] that exceeds by at most 32 the bits left in the
    first word written (so in particular for every [bits] from 1 to 32), and
    for every value below [2^bits], the write returns [offset + bits] and
    the matching read at the same offset returns the value; for the 8-bit
    routines and for the 32-bit routines. *)
Theorem write_then_read_roundtrip (arr : list Z) (off bits value : Z) :
  (words_ok 8 arr -> 0 <= off -> 1 <= bits ->
   bits - (8 - off `mod` 8) <= 32 ->
   off + bits <= 8 * py.len arr ->
   0 <= value < 2 ^ bits ->
   (forall p, off <= p < off + bits -> bit 8 arr p = false) ->
   exists arr',
     bitutils.write_binary_in_barray arr off value bits = Ok (arr', off + bits) /\
     bitutils.read_binary_from_barray arr' off bits = Ok value) /\
  (words_ok 32 arr -> 0 <= off -> 1 <= bits ->
   bits - (32 - off `mod` 32) <= 32 ->
   off + bits <= 32 * py.len arr ->
   0 <= value < 2 ^ bits ->
   (forall p, off <= p < off + bits -> bit 32 arr p = false) ->
   exists arr',
     bitutils.write_binary_in_iarray arr off value bits = Ok (arr', off + bits) /\
     bitutils.read_binary_from_iarray arr' off bits = Ok value).
Proof.
  split; intros Hok Hoff Hbits Hspan Hroom Hvalue Hclear.
  - destruct (write_loop_spec 3 8 bitutils.write_barray_loop
                ltac:(by left) write_barray_is_loop
                (Z.to_nat bits) arr off value bits)
      as (arr' & Hw & Hlen & Hok' & Hbits'); try done; try lia.
    exists arr'. split; [done|].
    destruct (read_barray_loop_spec (Z.to_nat bits) arr' off bits 0)
      as (v & Hr & Hv & Hvbits); try done; try lia.
    unfold bitutils.read_binary_from_barray. rewrite Hr, Z.shiftl_0_l. simpl.
    f_equal. apply (eq_of_bits v value bits); try done; try lia.
    intros j Hj. rewrite Hvbits, Hbits' by lia.
    destruct ((off <=? off + bits - 1 - j) && (off + bits - 1 - j <? off + bits))
      eqn:E; [|lia].
    f_equal. lia.
  - destruct (write_loop_spec 5 32 bitutils.write_iarray_loop
                ltac:(by right) write_iarray_is_loop
                (Z.to_nat bits) arr off value bits)
      as (arr' & Hw & Hlen & Hok' & Hbits'); try done; try lia.
    exists arr'. split; [done|].
    destruct (read_iarray_spec arr' off bits)
      as (v & Hr & Hv & Hvbits); try done; try lia.
    rewrite Hr. f_equal. apply (eq_of_bits v value bits); try done; try lia.
    intros j Hj. rewrite Hvbits, Hbits' by lia.
    destruct ((off <=? off + bits - 1 - j) && (off + bits - 1 - j <? off + bits))
      eqn:E; [|lia].
    f_equal. lia.
Qed.

Lemma write_then_read_roundtrip_witness :
  (exists arr',
     bitutils.write_binary_in_barray (replicate 8 0) 3 (2 ^ 36 + 77) 37
       = Ok (arr', 3 + 37) /\
     bitutils.read_binary_from_barray arr' 3 37 = Ok (2 ^ 36 + 77)) /\
  (exists arr',
     bitutils.write_binary_in_iarray (replicate 3 0) 20 (2 ^ 33 + 5) 40
       = Ok (arr', 20 + 40) /\
     bitutils.read_binary_from_iarray arr' 20 40 = Ok (2 ^ 33 + 5)).
Proof.
  split.
  - apply (proj1 (write_then_read_roundtrip (replicate 8 0) 3 37 (2 ^ 36 + 77))).
    + apply words_ok_zero. lia.
    + lia.
    + lia.
    + change (3 `mod` 8) with 3. lia.
    + rewrite len_replicate. lia.
    + lia.
    + intros p _. apply bit_zero_array.
  - apply (proj2 (write_then_read_roundtrip (replicate 3 0) 20 40 (2 ^ 33 + 5))).
    + apply words_ok_zero. lia.
    + lia.
    + lia.
    + change (20 `mod` 32) with 20. lia.
    + rewrite len_replicate. lia.
    + lia.
    + intros p _. apply bit_zero_array.
Defined.

(** ** Loops over [range(0, len(xs))] *)

(** Invariant rule: [P pre s] holds of the state [s] after the turns that
    have visited the prefix [pre] of [xs]. *)
Lemma for_each_range_inv {A S} (xs : list A) (body : S -> Z -> result S)
    (P : list A -> S -> Prop) (s0 : S) :
  P [] s0 ->
  (forall pre x suf s,
     xs = pre ++ x :: suf -> P pre s ->
     exists s', body s (py.len pre) = Ok s' /\ P (pre ++ [x]) s') ->
  exists s, py.for_each (py.range 0 (py.len xs)) body s0 = Ok s /\ P xs s.
Proof.
  intros H0 Hstep.
  assert (forall pre suf, xs = pre ++ suf ->
            exists s, py.for_each (py.range 0 (py.len pre)) body s0 = Ok s
                      /\ P pre s) as Hgen.
  { induction pre as [|x pre IH] using rev_ind; intros suf Heq.
    - exists s0. by split.
    - destruct (IH (x :: suf)) as (s & Hs & HP); [by rewrite Heq, <- app_assoc|].
      destruct (Hstep pre x suf s) as (s' & Hs' & HP');
        [by rewrite Heq, <- app_assoc|done|].
      exists s'. split; [|done].
      rewrite len_app. change (py.len [x]) with 1.
      rewrite range_snoc by apply len_nonneg.
      by rewrite for_each_app, Hs, bind_Ok, for_each_cons, Hs', bind_Ok. }
  destruct (Hgen xs []) as (s & Hs & HP); [by rewrite app_nil_r|]. eauto.
Qed.

Lemma getitem_middle {A} (pre suf : list A) (x : A) :
  py.getitem (pre ++ x :: suf) (py.len pre) = Ok x.
Proof.
  apply getitem_nonneg; [apply len_nonneg|].
  unfold py.len. rewrite Nat2Z.id.
  by rewrite lookup_app_r, Nat.sub_diag by lia.
Qed.

(** ** pforencoder: choice of [b] and header *)

(** How many elements exceed [m]. *)
Fixpoint count_above (m : Z) (l : list Z) : Z :=
  match l with
  | [] => 0
  | x :: l' => (if x >? m then 1 else 0) + count_above m l'
  end.

Lemma count_above_app (m : Z) (l1 l2 : list Z) :
  count_above m (l1 ++ l2) = count_above m l1 + count_above m l2.
Proof. induction l1 as [|x l1 IH]; simpl; [done|]. rewrite IH. lia. Qed.

Lemma count_above_bounds (m : Z) (l : list Z) : 0 <= count_above m l <= py.len l.
Proof.
  induction l as [|x l IH]; [done|]. unfold py.len in *. simpl length.
  simpl count_above. destruct (x >? m); lia.
Qed.

(** The estimate the encoder minimises: header, [b] bits per number, 32
    bits per number above [2^b - 1]. *)
Definition size_estimate (numbers : list Z) (b : Z) : Z :=
  32 + py.len numbers * b + 32 * count_above (2 ^ b - 1) numbers.

Lemma pfor_masks (b : Z) : 0 <= b <= 32 -> pforencoder.MASKS b = Ok (2 ^ b - 1).
Proof.
  intros Hb. unfold pforencoder.MASKS.
  destruct (_ && _) eqn:E; [|lia]. by rewrite Z.shiftl_1_l.
Qed.

Lemma estimate_encoded_size_spec (numbers : list Z) (b : Z) :
  0 <= b <= 32 ->
  pforencoder.estimate_encoded_size numbers b = Ok (size_estimate numbers b).
Proof.
  intros Hb. unfold pforencoder.estimate_encoded_size.
  rewrite pfor_masks, bind_Ok by done.
  destruct (for_each_range_inv numbers
              (fun exception_count i =>
                 number ← py.getitem numbers i;
                 if number >? 2 ^ b - 1 then Ok (exception_count + 1)
                 else Ok exception_count)
              (fun pre c => c = count_above (2 ^ b - 1) pre) 0)
    as (c & Hc & ->); [done| |].
  { intros pre x suf s -> ->. rewrite getitem_middle, bind_Ok.
    rewrite count_above_app. simpl.
    destruct (x >? 2 ^ b - 1); eexists; (split; [done|lia]). }
  rewrite Hc, bind_Ok. unfold size_estimate, pforencoder.HEADER_SIZE.
  f_equal. lia.
Qed.

(** Keep the candidate [b] only when its estimate is strictly smaller. *)
Definition better (numbers : list Z) (best b : Z) : Z :=
  if size_estimate numbers b <? size_estimate numbers best then b else best.

(** The [b] the encoder chooses. *)
Definition optimal_b (numbers : list Z) : Z :=
  foldl (better numbers) 1 (py.range 2 33).

Lemma possibles_b (i : Z) :
  0 <= i < 32 -> py.getitem pforencoder.POSSIBLES_B i = Ok (i + 1).
Proof.
  intros Hi. apply getitem_nonneg; [lia|].
  unfold pforencoder.POSSIBLES_B, py.range.
  rewrite lookup_seqZ_lt by lia. f_equal. lia.
Qed.

Lemma optimal_b_prefix (numbers : list Z) (n : nat) :
  let r := foldl (better numbers) 1 (seqZ 2 (Z.of_nat n)) in
  1 <= r <= 1 + Z.of_nat n /\
  forall b, 1 <= b <= 1 + Z.of_nat n ->
    size_estimate numbers r <= size_estimate numbers b /\
    (size_estimate numbers b = size_estimate numbers r -> r <= b).
Proof.
  induction n as [|n IH].
  - simpl. split; [lia|]. intros b Hb. assert (b = 1) as -> by lia. lia.
  - rewrite seqZ_S, foldl_app. simpl foldl.
    set (r := foldl (better numbers) 1 (seqZ 2 (Z.of_nat n))) in *.
    destruct IH as [Hr Hmin]. unfold better at 1.
    destruct (size_estimate numbers (2 + Z.of_nat n)
              <? size_estimate numbers r) eqn:E; simpl.
    + split; [lia|]. intros b Hb.
      destruct (Z.eq_dec b (2 + Z.of_nat n)) as [-> | Hne]; [lia|].
      destruct (Hmin b) as [H1 H2]; lia.
    + split; [lia|]. intros b Hb.
      destruct (Z.eq_dec b (2 + Z.of_nat n)) as [-> | Hne]; [lia|].
      apply Hmin. lia.
Qed.

(** [optimal_b] is in 1..32, minimises the estimate, and is the smallest
    such [b]. *)
Lemma optimal_b_spec (numbers : list Z) :
  1 <= optimal_b numbers <= 32 /\
  forall b, 1 <= b <= 32 ->
    size_estimate numbers (optimal_b numbers) <= size_estimate numbers b /\
    (size_estimate numbers b = size_estimate numbers (optimal_b numbers) ->
     optimal_b numbers <= b).
Proof.
  unfold optimal_b, py.range. change (33 - 2) with (Z.of_nat 31).
  pose proof (optimal_b_prefix numbers 31) as H.
  change (1 + Z.of_nat 31) with 32 in H. exact H.
Qed.

Lemma find_optimal_b_loop (numbers : list Z) (n : nat) :
  (n <= 31)%nat ->
  py.for_each (py.range 1 (1 + Z.of_nat n))
    (fun '(optimal_b, optimal_size) i =>
       current_b ← py.getitem pforencoder.POSSIBLES_B i;
       current_size ← pforencoder.estimate_encoded_size numbers current_b;
       if current_size <? optimal_size then Ok (current_b, current_size)
       else Ok (optimal_b, optimal_size))
    (1, size_estimate numbers 1)
  = Ok (foldl (better numbers) 1 (seqZ 2 (Z.of_nat n)),
        size_estimate numbers (foldl (better numbers) 1 (seqZ 2 (Z.of_nat n)))).
Proof.
  induction n as [|n IH]; intros Hn; [done|].
  replace (1 + Z.of_nat (S n)) with (1 + Z.of_nat n + 1) by lia.
  rewrite range_snoc by lia.
  rewrite for_each_app, IH, bind_Ok by lia.
  rewrite seqZ_S, foldl_app. simpl foldl.
  set (r := foldl (better numbers) 1 (seqZ 2 (Z.of_nat n))).
  rewrite for_each_cons.
  rewrite possibles_b, bind_Ok by lia.
  rewrite estimate_encoded_size_spec, bind_Ok by lia.
  replace (1 + Z.of_nat n + 1) with (2 + Z.of_nat n) by lia.
  unfold better.
  destruct (size_estimate numbers (2 + Z.of_nat n) <? size_estimate numbers r);
    by rewrite bind_Ok.
Qed.

Lemma find_optimal_b_spec (numbers : list Z) :
  pforencoder.find_optimal_b numbers = Ok (optimal_b numbers).
Proof.
  unfold pforencoder.find_optimal_b.
  rewrite (possibles_b 0), bind_Ok by lia.
  rewrite estimate_encoded_size_spec, bind_Ok by lia.
  change (py.len pforencoder.POSSIBLES_B) with (1 + Z.of_nat 31).
  change (0 + 1) with 1.
  rewrite (find_optimal_b_loop numbers 31) by lia.
  rewrite bind_Ok. unfold optimal_b, py.range.
  by change (33 - 2) with (Z.of_nat 31).
Qed.

(** ** simple16encoder: decoding what [encode] produced *)

(** Every value fits the slot of its position. *)
Fixpoint fits (slots values : list Z) : Prop :=
  match values, slots with
  | [], _ => True
  | v :: values', s :: slots' => 0 <= v < 2 ^ s /\ fits slots' values'
  | _ :: _, [] => False
  end.

Lemma fits_of_lookup (slots values : list Z) :
  (length values <= length slots)%nat ->
  (forall i s v, slots !! i = Some s -> values !! i = Some v -> 0 <= v < 2 ^ s) ->
  fits slots values.
Proof.
  revert slots. induction values as [|v values IH]; intros slots Hlen H.
  - by destruct slots.
  - destruct slots as [|s slots]; simpl in Hlen; [lia|]. simpl. split.
    + by apply (H 0%nat).
    + apply IH; [lia|]. intros i s' v' Hs Hv. by apply (H (S i)).
Qed.

Lemma fits_nil (slots : list Z) : fits slots [].
Proof. by destruct slots. Qed.

Lemma pack_nil (slots : list Z) (r : Z) : pack slots [] r = 0.
Proof. by destruct slots. Qed.

Lemma pack_bounds (slots values : list Z) (r : Z) :
  Forall (fun s => 0 <= s) slots -> sum_list slots <= r -> fits slots values ->
  0 <= pack slots values r < 2 ^ r.
Proof.
  revert values r. induction slots as [|s slots IH]; intros values r Hs Hsum Hfit.
  - destruct values; simpl in *; [|done]. split; [lia|].
    apply Z.pow_pos_nonneg; lia.
  - apply Forall_cons_1 in Hs as [Hs0 Hs]. simpl in Hsum.
    pose proof (sum_list_nonneg slots Hs) as Hnn.
    destruct values as [|v values]; simpl.
    + split; [lia|]. apply Z.pow_pos_nonneg; lia.
    + destruct Hfit as [Hv Hfit].
      destruct (IH values (r - s) Hs ltac:(lia) Hfit) as [Hp1 Hp2].
      rewrite Z.shiftl_mul_pow2 by lia.
      assert (2 ^ r = 2 ^ s * 2 ^ (r - s)) as ->.
      { rewrite <- Z.pow_add_r by lia. f_equal. lia. }
      assert (0 < 2 ^ (r - s)) by (apply Z.pow_pos_nonneg; lia).
      nia.
Qed.

(** The slot loop of [decode_batch], run on the data bits that [pack]
    laid out below bit [r]: it returns the packed values, then a zero for
    every slot left without a value. *)
Lemma decode_slots (batch : Z) (slots : list Z) :
  Forall (fun s => 1 <= s <= 28) slots ->
  forall (values acc : list Z) (r H : Z),
    sum_list slots <= r -> fits slots values -> 0 <= H ->
    batch = H * 2 ^ r + pack slots values r ->
    py.for_each slots
      (fun '(numbers, offset) bits_to_process =>
         let offset := offset + bits_to_process in
         shifted ← py.rshift batch (28 - offset);
         mask ← simple16encoder.MASKS bits_to_process;
         Ok (numbers ++ [Z.land shifted mask], offset))
      (acc, 28 - r)
    = Ok (acc ++ values ++ replicate (length slots - length values) 0,
          28 - r + sum_list slots).
Proof.
  induction 1 as [|s slots Hs Hslots IH]; intros values acc r H Hsum Hfit HH Hbatch.
  - destruct values; simpl in *; [|done]. rewrite app_nil_r.
    by rewrite Z.add_0_r.
  - simpl in Hsum.
    assert (Forall (fun s => 0 <= s) slots) as Hnn
      by (eapply Forall_impl; [|exact Hslots]; simpl; lia).
    pose proof (sum_list_nonneg slots Hnn) as Hsumnn.
    rewrite for_each_cons.
    set (rest := py.for_each slots _). cbv zeta.
    replace (28 - (28 - r + s)) with (r - s) by lia.
    rewrite rshift_nonneg, bind_Ok by lia.
    rewrite masks_slot, bind_Ok by lia.
    set (v := match values with [] => 0 | v :: _ => v end).
    set (values' := match values with [] => [] | _ :: vs => vs end).
    assert (0 <= v < 2 ^ s /\ fits slots values' /\
            pack (s :: slots) values r
            = v * 2 ^ (r - s) + pack slots values' (r - s)) as (Hv & Hfit' & Hpack).
    { destruct values as [|v0 values0]; simpl in *.
      - split; [split; [lia|apply Z.pow_pos_nonneg; lia]|].
        split; [apply fits_nil|]. by rewrite pack_nil.
      - destruct Hfit. split; [done|]. split; [done|].
        by rewrite Z.shiftl_mul_pow2 by lia. }
    destruct (pack_bounds slots values' (r - s) Hnn ltac:(lia) Hfit') as [Hp1 Hp2].
    assert (Z.land (Z.shiftr batch (r - s)) (2 ^ s - 1) = v) as ->.
    { rewrite Z.shiftr_div_pow2 by lia.
      replace (2 ^ s - 1) with (Z.ones s) by (rewrite Z.ones_equiv; lia).
      rewrite Z.land_ones by lia.
      rewrite Hbatch, Hpack.
      assert (2 ^ r = 2 ^ s * 2 ^ (r - s)) as ->.
      { rewrite <- Z.pow_add_r by lia. f_equal. lia. }
      assert (0 < 2 ^ (r - s)) by (apply Z.pow_pos_nonneg; lia).
      replace (H * (2 ^ s * 2 ^ (r - s)) + (v * 2 ^ (r - s) + pack slots values' (r - s)))
        with ((H * 2 ^ s + v) * 2 ^ (r - s) + pack slots values' (r - s)) by ring.
      rewrite Z.div_add_l by lia. rewrite (Z.div_small (pack _ _ _)) by lia.
      rewrite Z.add_0_r, Z.add_comm, Z.mod_add by lia.
      apply Z.mod_small. lia. }
    replace (28 - r + s) with (28 - (r - s)) by lia.
    rewrite bind_Ok. unfold rest.
    etrans.
    { apply (IH values' (acc ++ [v]) (r - s) (H * 2 ^ s + v)); [lia|done| |].
      - assert (0 < 2 ^ s) by (apply Z.pow_pos_nonneg; lia). nia.
      - rewrite Hbatch, Hpack.
        assert (2 ^ r = 2 ^ s * 2 ^ (r - s)) as ->.
        { rewrite <- Z.pow_add_r by lia. f_equal. lia. }
        ring. }
    f_equal. f_equal; [|simpl; lia].
    rewrite <- app_assoc. f_equal.
    destruct values as [|v0 values0]; simpl.
    + by rewrite Nat.sub_0_r.
    + done.
Qed.

(** [decode_batch] undoes the packing of one batch. *)
Lemma decode_batch_pack (f : Z) (slots values : list Z) :
  layout f slots -> fits slots values ->
  simple16encoder.decode_batch (Z.shiftl f 28 + pack slots values 28) f
  = Ok (values ++ replicate (length slots - length values) 0).
Proof.
  intros Hlay Hfit. destruct Hlay as (Hfmt & Hf & Hlen & Hslots & Hsum).
  unfold simple16encoder.decode_batch. rewrite Hfmt, bind_Ok.
  change 0 with (28 - 28) at 1.
  rewrite (decode_slots _ slots Hslots values [] 28 f); try done; try lia.
  by rewrite Z.shiftl_mul_pow2.
Qed.

Lemma batch_format (f : Z) (slots values : list Z) :
  layout f slots -> fits slots values ->
  Z.land (Z.shiftr (Z.shiftl f 28 + pack slots values 28) 28) 31 = f.
Proof.
  intros Hlay Hfit.
  pose proof (layout_nonneg _ _ Hlay) as Hnn.
  destruct Hlay as (Hfmt & Hf & Hlen & Hslots & Hsum).
  destruct (pack_bounds slots values 28 Hnn ltac:(lia) Hfit) as [Hp1 Hp2].
  rewrite Z.shiftr_div_pow2, Z.shiftl_mul_pow2 by lia.
  rewrite Z.div_add_l by lia. rewrite Z.div_small by lia.
  change 31 with (Z.ones 5). rewrite Z.land_ones by lia.
  rewrite Z.add_0_r. apply Z.mod_small. lia.
Qed.

(** ** simple16encoder: round trip *)

Lemma strip_snoc_nonzero (fuel : nat) (l : list Z) (x : Z) :
  x <> 0 -> simple16encoder.strip_trailing_zeros fuel (l ++ [x]) = l ++ [x].
Proof.
  intros Hx. destruct fuel as [|fuel]; [done|]. simpl.
  destruct (l ++ [x]) eqn:E; [done|]. rewrite <- E, last_last.
  destruct (x =? 0) eqn:E0; [lia|done].
Qed.

Lemma strip_snoc_zero (fuel : nat) (l : list Z) :
  simple16encoder.strip_trailing_zeros (S fuel) (l ++ [0])
  = simple16encoder.strip_trailing_zeros fuel l.
Proof.
  simpl. destruct (l ++ [0]) eqn:E; [by destruct l|].
  rewrite <- E, last_last, removelast_last. done.
Qed.

Lemma strip_zeros (pad fuel : nat) (l : list Z) :
  simple16encoder.strip_trailing_zeros (pad + fuel) (l ++ replicate pad 0)
  = simple16encoder.strip_trailing_zeros fuel l.
Proof.
  induction pad as [|pad IH]; [by rewrite app_nil_r|].
  rewrite replicate_S_end, app_assoc. simpl Nat.add.
  by rewrite strip_snoc_zero.
Qed.

Lemma strip_keeps (fuel : nat) (l : list Z) :
  last l 1 <> 0 -> simple16encoder.strip_trailing_zeros fuel l = l.
Proof.
  intros Hlast. destruct (snoc_cases l) as [-> | (l' & x & ->)].
  - by destruct fuel.
  - rewrite last_last in Hlast. by apply strip_snoc_nonzero.
Qed.

(** The batches [encode] appends from index [start] on decode to the
    numbers from [start] on, followed by zeros for the empty slots of the
    last batch. *)
Lemma simple16_roundtrip_loop (numbers : list Z) :
  Forall (fun x => 0 <= x < 2 ^ 28) numbers ->
  forall (fuel : nat) (start : Z) (encoded : list Z),
    0 <= start -> py.len numbers - start <= Z.of_nat fuel ->
    exists batches pad,
      simple16encoder.encode_loop fuel numbers start encoded
        = Ok (encoded ++ batches) /\
      forall acc,
        py.for_each batches
          (fun numbers batch =>
             batch_numbers ←
               simple16encoder.decode_batch batch
                 (Z.land (Z.shiftr batch 28) 31);
             Ok (numbers ++ batch_numbers))
          acc
        = Ok (acc ++ drop (Z.to_nat start) numbers ++ replicate pad 0).
Proof.
  intros Hrange.
  induction fuel as [|fuel IH]; intros start encoded Hstart Hfuel.
  { exists [], 0%nat. simpl. destruct (start <? py.len numbers) eqn:E; [lia|].
    rewrite app_nil_r. split; [done|]. intros acc.
    rewrite drop_ge by (unfold py.len in *; lia). by rewrite !app_nil_r. }
  destruct (Z.le_gt_cases (py.len numbers) start) as [Hle | Hlt].
  { exists [], 0%nat. simpl. destruct (start <? py.len numbers) eqn:E; [lia|].
    rewrite app_nil_r. split; [done|]. intros acc.
    rewrite drop_ge by (unfold py.len in *; lia). by rewrite !app_nil_r. }
  destruct (find_optimal_format_spec numbers start) as (r & Hr & Hspec); [lia|].
  destruct r as [[f K]|].
  2:{ exfalso.
      destruct (getitem_in_range numbers start) as (x & _ & Hx); [lia|].
      specialize (Hspec x Hx).
      pose proof (Forall_lookup_1 _ _ _ _ Hrange Hx) as Hlt'. simpl in Hlt'. lia. }
  destruct Hspec as (slots & Hlay & HK & Hfit).
  assert (0 < py.len slots) as Hslots by (by destruct Hlay as (_ & _ & ? & _)).
  rewrite (encode_loop_step _ _ _ f K slots) by (done || lia).
  set (vals := py.slice numbers start (start + K)).
  destruct (IH (start + K) (encoded ++ [Z.shiftl f 28 + pack slots vals 28]))
    as (batches & pad & Henc & Hdec); [lia|lia|].
  assert (py.len vals = Z.min K (py.len numbers - start)) as Hlenvals
    by (apply slice_length; lia).
  assert (fits slots vals) as Hfits.
  { apply fits_of_lookup; [unfold py.len in *; lia|].
    intros i s v Hs Hv.
    assert (Z.of_nat i < Z.min K (py.len numbers - start)) as Hi.
    { apply lookup_lt_Some in Hv. unfold py.len in *. lia. }
    unfold vals in Hv. rewrite slice_lookup in Hv by lia.
    pose proof (Forall_lookup_1 _ _ _ _ Hrange Hv) as Hv'. simpl in Hv'.
    split; [lia|].
    specialize (Hfit (Z.of_nat i) s v). rewrite Nat2Z.id in Hfit.
    replace (Z.to_nat (start + Z.of_nat i)) with (Z.to_nat start + i)%nat
      in Hfit by lia.
    specialize (Hfit ltac:(lia) ltac:(lia) Hs Hv). lia. }
  exists ((Z.shiftl f 28 + pack slots vals 28) :: batches).
  exists ((length slots - length vals) + pad)%nat.
  split; [by rewrite Henc, <- app_assoc|].
  intros acc. rewrite for_each_cons.
  rewrite (batch_format f slots vals), (decode_batch_pack f slots vals),
    !bind_Ok by done.
  rewrite Hdec. f_equal. rewrite <- !app_assoc. f_equal.
  assert (vals = take (Z.to_nat (Z.min K (py.len numbers - start)))
                   (drop (Z.to_nat start) numbers)) as Hvals.
  { unfold vals, py.slice, py.norm_bound.
    destruct (start <? 0) eqn:E1; [lia|].
    destruct (start + K <? 0) eqn:E2; [lia|].
    replace (Z.to_nat (start `min` py.len numbers)) with (Z.to_nat start) by lia.
    f_equal. lia. }
  destruct (Z.le_gt_cases (start + K) (py.len numbers)) as [Hfull | Hshort].
  - replace (length slots - length vals)%nat with 0%nat
      by (unfold py.len in *; lia).
    simpl. rewrite Hvals.
    replace (Z.to_nat (start + K)) with
      (Z.to_nat start + Z.to_nat (Z.min K (py.len numbers - start)))%nat by lia.
    rewrite <- drop_drop, app_assoc, take_drop. done.
  - rewrite (drop_ge numbers (Z.to_nat (start + K)))
      by (unfold py.len in *; lia).
    rewrite Hvals, take_ge by (rewrite length_drop; unfold py.len in *; lia).
    simpl. by rewrite replicate_add.
Qed.

(** On numbers that all fit in 28 bits, [decode] without zero stripping
    returns what [encode] was given, followed by zeros only; with zero
    stripping it returns the input whenever that does not end with a
    zero. *)
Lemma simple16_encode_decode (numbers : list Z) :
  Forall (fun x => 0 <= x < 2 ^ 28) numbers ->
  exists encoded,
    simple16encoder.encode numbers = Ok encoded /\
    (exists pad, simple16encoder.decode encoded false
                 = Ok (numbers ++ replicate pad 0)) /\
    (last numbers 1 <> 0 -> simple16encoder.decode encoded true = Ok numbers).
Proof.
  intros Hrange.
  destruct (simple16_roundtrip_loop numbers Hrange (length numbers) 0 [])
    as (batches & pad & Henc & Hdec); [lia|unfold py.len; lia|].
  exists batches. split; [exact Henc|].
  unfold simple16encoder.decode.
  change (simple16encoder.MASKS 5) with (Ok 31 : result Z).
  rewrite !bind_Ok. rewrite (Hdec []).
  change (Z.to_nat 0) with 0%nat. rewrite drop_0. simpl app.
  split; [by exists pad|].
  intros Hlast. rewrite !bind_Ok. f_equal.
  rewrite length_app, length_replicate.
  rewrite (Nat.add_comm (length numbers) pad), strip_zeros.
  by apply strip_keeps.
Qed.

(** ** pforencoder: the slot stream and the exception lists *)

(** The bits [off .. off+bits-1] of an array of 32-bit words spell [v]. *)
Definition field (arr : list Z) (off bits v : Z) : Prop :=
  0 <= v < 2 ^ bits /\
  forall j, 0 <= j < bits -> Z.testbit v j = bit 32 arr (off + bits - 1 - j).

(** The exceptions of [l], whose first element has index [i]: index and
    high bits of every number above [2^b - 1]. *)
Fixpoint exc_from (b i : Z) (l : list Z) : list (Z * Z) :=
  match l with
  | [] => []
  | x :: l' =>
      if x >? 2 ^ b - 1 then (i, Z.shiftr x b) :: exc_from b (i + 1) l'
      else exc_from b (i + 1) l'
  end.

Lemma exc_from_app (b i : Z) (l1 l2 : list Z) :
  exc_from b i (l1 ++ l2) = exc_from b i l1 ++ exc_from b (i + py.len l1) l2.
Proof.
  revert i. induction l1 as [|x l1 IH]; intros i.
  - simpl. by rewrite Z.add_0_r.
  - simpl. rewrite IH. unfold py.len. simpl length.
    replace (i + 1 + Z.of_nat (length l1)) with (i + Z.of_nat (S (length l1))) by lia.
    by destruct (x >? 2 ^ b - 1).
Qed.

Lemma exc_from_length (b i : Z) (l : list Z) :
  py.len (exc_from b i l) = count_above (2 ^ b - 1) l.
Proof.
  revert i. induction l as [|x l IH]; intros i; [done|]. simpl.
  destruct (x >? 2 ^ b - 1); unfold py.len in *; simpl length; rewrite <- (IH (i + 1)); lia.
Qed.

Lemma read_of_field (arr : list Z) (off bits v : Z) :
  words_ok 32 arr -> 0 <= off -> 0 < bits <= 32 ->
  off + bits <= 32 * py.len arr ->
  field arr off bits v ->
  bitutils.read_binary_from_iarray arr off bits = Ok v.
Proof.
  intros Hok Hoff Hbits Hroom [Hv Hvbits].
  assert (0 <= off `mod` 32 < 32) by (apply Z.mod_pos_bound; lia).
  destruct (read_iarray_spec arr off bits) as (v' & Hr & Hv' & Hv'bits);
    try done; try lia.
  rewrite Hr. f_equal. apply (eq_of_bits v' v bits); try done; try lia.
  intros j Hj. by rewrite Hv'bits, Hvbits.
Qed.

Lemma land_mask_mod (x b : Z) : 0 <= b -> Z.land x (2 ^ b - 1) = x `mod` 2 ^ b.
Proof.
  intros Hb. replace (2 ^ b - 1) with (Z.ones b) by (rewrite Z.ones_equiv; lia).
  by apply Z.land_ones.
Qed.

Lemma encode_step_unfold (numbers : list Z) (b : Z)
    (encoded : list Z) (offset : Z) (idxs excs : list Z) (i : Z) :
  pforencoder.encode_step numbers b (encoded, offset, idxs, excs) i =
    (number ← py.getitem numbers i;
     mask ← pforencoder.MASKS b;
     '(number, exceptions_indexes, exceptions) ←
       (if number >? mask then
          upper ← py.rshift number b;
          Ok (Z.land number mask, idxs ++ [i], excs ++ [upper])
        else Ok (number, idxs, excs));
     '(encoded, _) ← bitutils.write_binary_in_iarray encoded offset number b;
     Ok (encoded, offset + b, exceptions_indexes, exceptions)).
Proof. reflexivity. Qed.

(** The slot loop of [encode]: it writes the low [b] bits of every
    number into consecutive [b]-bit fields of the zeroed array and collects
    the exceptions. *)
Lemma pfor_encode_loop (numbers : list Z) (b : Z) (L : nat) :
  1 <= b <= 32 -> Forall (fun x => 0 <= x) numbers ->
  b * py.len numbers <= 32 * Z.of_nat L ->
  exists encoded,
    py.for_each (py.range 0 (py.len numbers)) (pforencoder.encode_step numbers b)
      (replicate L 0, 0, [], [])
    = Ok (encoded, b * py.len numbers,
          (exc_from b 0 numbers).*1, (exc_from b 0 numbers).*2) /\
    length encoded = L /\ words_ok 32 encoded /\
    forall (i : nat) x, numbers !! i = Some x ->
      field encoded (b * Z.of_nat i) b (x `mod` 2 ^ b).
Proof.
  intros Hb Hnn Hroom.
  destruct (for_each_range_inv numbers (pforencoder.encode_step numbers b)
    (fun pre st =>
       let '(encoded, offset, idxs, excs) := st in
       offset = b * py.len pre /\ length encoded = L /\ words_ok 32 encoded /\
       (forall p, offset <= p -> bit 32 encoded p = false) /\
       (forall (i : nat) x, pre !! i = Some x ->
          field encoded (b * Z.of_nat i) b (x `mod` 2 ^ b)) /\
       idxs = (exc_from b 0 pre).*1 /\ excs = (exc_from b 0 pre).*2)
    (replicate L 0, 0, [], [])) as (st & Hrun & HP).
  { split; [unfold py.len; simpl; lia|]. split; [apply length_replicate|].
    split; [apply words_ok_zero; lia|].
    split; [intros p _; apply bit_zero_array|]. split; [|done].
    intros i x Hx. by rewrite lookup_nil in Hx. }
  { intros pre x suf [[[encoded offset] idxs] excs] Heq
      (Hoff & Hlen & Hok & Hzero & Hfields & Hidxs & Hexcs).
    assert (0 <= x) as Hx.
    { rewrite Heq in Hnn. apply Forall_app in Hnn as [_ Hnn].
      by apply Forall_cons_1 in Hnn as [? _]. }
    assert (py.len pre + 1 <= py.len numbers) as Hpre.
    { rewrite Heq, len_app. unfold py.len. simpl length. lia. }
    assert (b * py.len pre + b <= 32 * Z.of_nat L) as Hroom' by nia.
    pose proof (len_nonneg pre) as Hprenn.
    assert (0 < 2 ^ b) as Hpow by (apply Z.pow_pos_nonneg; lia).
    rewrite encode_step_unfold.
    assert (py.getitem numbers (py.len pre) = Ok x) as ->
      by (rewrite Heq; apply getitem_middle).
    rewrite bind_Ok, pfor_masks, bind_Ok by lia.
    set (low := x `mod` 2 ^ b).
    assert (0 <= low < 2 ^ b) as Hlow by (apply Z.mod_pos_bound; lia).
    assert (exists idxs' excs',
              (if x >? 2 ^ b - 1
               then upper ← py.rshift x b;
                    Ok (Z.land x (2 ^ b - 1), idxs ++ [py.len pre], excs ++ [upper])
               else Ok (x, idxs, excs)) = Ok (low, idxs', excs') /\
              idxs' = (exc_from b 0 (pre ++ [x])).*1 /\
              excs' = (exc_from b 0 (pre ++ [x])).*2) as (idxs' & excs' & -> & Hi' & He').
    { rewrite exc_from_app, !fmap_app. simpl. rewrite Z.add_0_l.
      destruct (x >? 2 ^ b - 1) eqn:E.
      - rewrite rshift_nonneg, bind_Ok, land_mask_mod by lia.
        do 2 eexists. split; [done|]. simpl. by rewrite Hidxs, Hexcs.
      - do 2 eexists. split.
        + unfold low. by rewrite Z.mod_small by lia.
        + simpl. by rewrite !app_nil_r. }
    rewrite bind_Ok. cbv beta iota.
    destruct (write_loop_spec 5 32 bitutils.write_iarray_loop
                ltac:(by right) write_iarray_is_loop
                (Z.to_nat b) encoded offset low b)
      as (arr' & Hw & Hlen' & Hok' & Hbits'); try done; try lia.
    { unfold py.len. lia. }
    { assert (0 <= offset `mod` 32 < 32) by (apply Z.mod_pos_bound; lia). lia. }
    { intros p Hp. apply Hzero. lia. }
    unfold bitutils.write_binary_in_iarray. rewrite Hw, bind_Ok.
    eexists. split; [done|]. cbv beta iota.
    split; [rewrite len_app; change (py.len [x]) with 1; lia|].
    split; [unfold py.len in Hlen'; lia|]. split; [done|].
    split.
    { intros p Hp. rewrite Hbits' by lia.
      destruct ((offset <=? p) && (p <? offset + b)) eqn:E; [lia|].
      apply Hzero. lia. }
    split; [|done].
    intros i y Hy.
    destruct (decide (i < length pre)%nat) as [Hi | Hi].
    - rewrite lookup_app_l in Hy by done.
      destruct (Hfields i y Hy) as [Hv Hvbits]. split; [done|].
      intros j Hj. rewrite Hvbits by done.
      assert (b * Z.of_nat i + b <= offset) by (unfold py.len in *; nia).
      rewrite Hbits' by lia.
      destruct ((offset <=? b * Z.of_nat i + b - 1 - j)
                && (b * Z.of_nat i + b - 1 - j <? offset + b)) eqn:E; [lia|done].
    - apply lookup_lt_Some in Hy as Hlt. rewrite length_app in Hlt.
      simpl in Hlt. assert (i = length pre) as -> by lia.
      rewrite lookup_app_r, Nat.sub_diag in Hy by lia. injection Hy as <-.
      replace (b * Z.of_nat (length pre)) with offset by (unfold py.len in *; lia).
      split; [done|]. intros j Hj. rewrite Hbits' by lia.
      destruct ((offset <=? offset + b - 1 - j)
                && (offset + b - 1 - j <? offset + b)) eqn:E; [|lia].
      f_equal. lia. }
  destruct st as [[[encoded offset] idxs] excs].
  destruct HP as (Hoff & Hlen & Hok & Hzero & Hfields & Hidxs & Hexcs).
  exists encoded. rewrite Hrun, Hoff, Hidxs, Hexcs. done.
Qed.

(** ** pforencoder: [encode] as a whole *)

Lemma slots_room (b n : Z) :
  1 <= b <= 32 -> 0 <= n -> b * n <= 32 * ((n + 32 / b - 1) / (32 / b)).
Proof.
  intros Hb Hn.
  assert (1 <= 32 / b) as Hq by (apply Z.div_le_lower_bound; lia).
  assert (b * (32 / b) <= 32) as Hbq by (apply Z.mul_div_le; lia).
  set (q := 32 / b) in *.
  assert (n <= q * ((n + q - 1) / q)) as HL.
  { pose proof (Z.div_mod (n + q - 1) q ltac:(lia)) as Hdm.
    pose proof (Z.mod_pos_bound (n + q - 1) q ltac:(lia)). lia. }
  assert (0 <= (n + q - 1) / q) as HLnn by (apply Z.div_pos; lia).
  set (L := (n + q - 1) / q) in *. nia.
Qed.

Lemma exc_from_spec (b i : Z) (l : list Z) :
  Forall (fun p => i <= p.1 < i + py.len l /\
                   exists x, x ∈ l /\ 2 ^ b - 1 < x /\ p.2 = Z.shiftr x b)
    (exc_from b i l).
Proof.
  revert i. induction l as [|x l IH]; intros i; [constructor|].
  simpl. unfold py.len. simpl length.
  assert (Forall (fun p => i <= p.1 < i + Z.of_nat (S (length l)) /\
                   exists y, y ∈ x :: l /\ 2 ^ b - 1 < y /\ p.2 = Z.shiftr y b)
            (exc_from b (i + 1) l)) as Htail.
  { eapply Forall_impl; [|exact (IH (i + 1))]. simpl.
    intros p [Hp (y & Hy & Hgt & Heq)]. unfold py.len in Hp.
    split; [lia|]. exists y. split; [by right|done]. }
  destruct (x >? 2 ^ b - 1) eqn:E; [|done].
  constructor; [|done]. simpl. split; [lia|].
  exists x. split; [by left|]. split; [lia|done].
Qed.

(** What the input must satisfy for [encode] to return: non-negative
    numbers, whose high parts above the chosen [b] bits fit a Simple-16
    slot, at most [2^28] of them. *)
Definition pfor_encodable (numbers : list Z) : Prop :=
  Forall (fun x => 0 <= x /\ Z.shiftr x (optimal_b numbers) < 2 ^ 28) numbers /\
  py.len numbers <= 2 ^ 28.

Lemma exceptions_in_range (numbers : list Z) :
  pfor_encodable numbers ->
  Forall (fun x => 0 <= x < 2 ^ 28)
    ((exc_from (optimal_b numbers) 0 numbers).*1
     ++ (exc_from (optimal_b numbers) 0 numbers).*2).
Proof.
  intros [Hnum Hlen]. pose proof (exc_from_spec (optimal_b numbers) 0 numbers) as H.
  apply Forall_app. split; apply Forall_fmap.
  - eapply Forall_impl; [|exact H]. simpl. intros p [Hp _]. lia.
  - eapply Forall_impl; [|exact H]. simpl. intros p [_ (x & Hx & Hgt & ->)].
    rewrite Forall_forall in Hnum. apply list_elem_of_In in Hx.
    destruct (Hnum x Hx) as [Hx0 Hxs]. split; [|done].
    apply Z.shiftr_nonneg. lia.
Qed.

(** The pieces [encode] puts together: the header word, the used words
    of the slot array and the Simple-16 block of the exceptions. *)
Lemma pfor_encode_spec (numbers : list Z) :
  let b := optimal_b numbers in
  Forall (fun x => 0 <= x) numbers ->
  exists encoded,
    pforencoder.encode numbers =
      (exception_encode ←
         simple16encoder.encode ((exc_from b 0 numbers).*1
                                 ++ (exc_from b 0 numbers).*2);
       Ok ([Z.shiftl (b - 1) 27 + count_above (2 ^ b - 1) numbers]
           ++ take (Z.to_nat ((b * py.len numbers + 31) / 32)) encoded
           ++ exception_encode)) /\
    (b * py.len numbers + 31) / 32 <= py.len encoded /\
    words_ok 32 encoded /\
    forall (i : nat) x, numbers !! i = Some x ->
      field encoded (b * Z.of_nat i) b (x `mod` 2 ^ b).
Proof.
  intros b Hnn. destruct (optimal_b_spec numbers) as [Hb _]. fold b in Hb.
  unfold pforencoder.encode. rewrite find_optimal_b_spec, bind_Ok. fold b.
  assert (1 <= 32 / b) as Hq by (apply Z.div_le_lower_bound; lia).
  destruct (32 / b =? 0) eqn:E; [lia|].
  pose proof (len_nonneg numbers) as Hn.
  pose proof (slots_room b (py.len numbers) Hb Hn) as Hroom.
  unfold py.ceil_div.
  set (L := Z.to_nat ((py.len numbers + 32 / b - 1) / (32 / b))).
  assert (0 <= (py.len numbers + 32 / b - 1) / (32 / b)) by (apply Z.div_pos; lia).
  destruct (pfor_encode_loop numbers b L Hb Hnn) as (encoded & Hrun & Hlen & Hok & Hfields);
    [unfold L; lia|].
  rewrite Hrun, bind_Ok. cbv beta iota zeta.
  assert ((b * py.len numbers + 31) / 32 <= py.len encoded) as Hused.
  { unfold py.len at 2. rewrite Hlen. unfold L.
    rewrite Z2Nat.id by done.
    assert ((b * py.len numbers + 31) / 32
            < (py.len numbers + 32 / b - 1) / (32 / b) + 1)
      by (apply Z.div_lt_upper_bound; lia).
    lia. }
  assert (0 <= (b * py.len numbers + 31) / 32) by (apply Z.div_pos; lia).
  exists encoded. split; [|done].
  replace (b * py.len numbers + 32 - 1) with (b * py.len numbers + 31) by lia.
  assert (py.slice_to encoded ((b * py.len numbers + 31) / 32)
          = take (Z.to_nat ((b * py.len numbers + 31) / 32)) encoded) as ->.
  { unfold py.slice_to, py.norm_bound.
    destruct (_ <? 0) eqn:E2; [lia|]. f_equal. lia. }
  assert (py.len (exc_from b 0 numbers).*2 = count_above (2 ^ b - 1) numbers) as ->.
  { unfold py.len. rewrite length_fmap. apply exc_from_length. }
  unfold pforencoder.B_HEADER_SIZE. change (32 - 5) with 27.
  generalize (simple16encoder.encode
                ((exc_from b 0 numbers).*1 ++ (exc_from b 0 numbers).*2)).
  intros [s16|e]; [|rewrite !bind_Raise; reflexivity].
  rewrite !bind_Ok, <- app_assoc. reflexivity.
Qed.

(** The header read of [decode] undoes the header word of [encode]. *)
Lemma get_header_spec (b count : Z) (rest : list Z) :
  1 <= b <= 32 -> 0 <= count < 2 ^ 27 ->
  pforencoder.get_header ((Z.shiftl (b - 1) 27 + count) :: rest) = Ok (b, count) /\
  Z.shiftl (b - 1) 27 + count = Z.lor (Z.shiftl (b - 1) 27) count.
Proof.
  intros Hb Hc. split.
  - unfold pforencoder.get_header, pforencoder.B_HEADER_SIZE.
    change (32 - 5) with 27.
    change (py.getitem (Z.shiftl (b - 1) 27 + count :: rest) 0)
      with (Ok (Z.shiftl (b - 1) 27 + count) : result Z).
    rewrite bind_Ok, pfor_masks, bind_Ok by lia.
    rewrite land_mask_mod by lia.
    rewrite Z.shiftr_div_pow2, Z.shiftl_mul_pow2 by lia.
    assert (((b - 1) * 2 ^ 27 + count) / 2 ^ 27 = b - 1) as ->
      by (rewrite Z.div_add_l, Z.div_small by lia; lia).
    assert (((b - 1) * 2 ^ 27 + count) `mod` 2 ^ 27 = count) as ->
      by (rewrite Z.add_comm, Z.mod_add, Z.mod_small by lia; reflexivity).
    do 2 f_equal. lia.
  - apply add_disjoint. intros j Hj. rewrite Z.shiftl_spec by done.
    destruct (Z.lt_ge_cases j 27).
    + rewrite (Z.testbit_neg_r (b - 1)) by lia. done.
    + rewrite (testbit_above count 27 j) by lia. by rewrite andb_false_r.
Qed.

(** ** pforencoder: [decode] *)

Lemma getitem_app_l {A} (l1 l2 : list A) (i : Z) :
  0 <= i < py.len l1 -> py.getitem (l1 ++ l2) i = py.getitem l1 i.
Proof.
  intros Hi. destruct (getitem_in_range l1 i Hi) as (x & -> & Hx).
  apply getitem_nonneg; [lia|]. by apply lookup_app_l_Some.
Qed.

(** A read that ends inside the first part of an array does not look at
    what follows. *)
Lemma read_iarray_prefix (l1 l2 : list Z) (off bits : Z) :
  0 <= off -> 0 < bits -> off + bits <= 32 * py.len l1 ->
  bitutils.read_binary_from_iarray (l1 ++ l2) off bits
  = bitutils.read_binary_from_iarray l1 off bits.
Proof.
  intros Hoff Hbits Hroom. unfold bitutils.read_binary_from_iarray.
  assert (Z.shiftr off 5 = off / 32) as -> by (by rewrite Z.shiftr_div_pow2).
  assert (Z.land off 31 = off `mod` 32) as ->
    by (change 31 with (Z.ones 5); by rewrite Z.land_ones).
  assert (0 <= off `mod` 32 < 32) by (apply Z.mod_pos_bound; lia).
  assert (0 <= off / 32 < py.len l1) by (Z.div_mod_to_equations; lia).
  rewrite (getitem_app_l l1 l2 (off / 32)) by done.
  destruct (py.getitem l1 (off / 32)) as [w|e]; [|reflexivity].
  rewrite !bind_Ok.
  destruct (py.rshift 4294967295 (off `mod` 32)) as [m|e]; [|reflexivity].
  rewrite !bind_Ok.
  destruct (py.rshift _ _) as [n|e]; [|reflexivity].
  rewrite !bind_Ok.
  destruct (bits - (32 - off `mod` 32) >? 0) eqn:E; [|reflexivity].
  rewrite (getitem_app_l l1 l2 (off / 32 + 1)); [reflexivity|].
  Z.div_mod_to_equations. lia.
Qed.

Lemma word_take (arr : list Z) (n : nat) (i : Z) :
  0 <= i < Z.of_nat n -> word (take n arr) i = word arr i.
Proof. intros Hi. unfold word. by rewrite lookup_take_lt by lia. Qed.

Lemma field_take (arr : list Z) (n : nat) (off bits v : Z) :
  0 <= off -> 0 < bits -> off + bits <= 32 * Z.of_nat n ->
  field arr off bits v -> field (take n arr) off bits v.
Proof.
  intros Hoff Hbits Hroom [Hv Hvbits]. split; [done|].
  intros j Hj. rewrite Hvbits by done. unfold bit.
  rewrite word_take; [done|]. Z.div_mod_to_equations. lia.
Qed.

(** The first phase of [decode]: it reads back the low [b] bits of every
    number. *)
Lemma pfor_read_loop (numbers slots tail : list Z) (b : Z) :
  1 <= b <= 32 -> words_ok 32 slots ->
  b * py.len numbers <= 32 * py.len slots ->
  (forall (i : nat) x, numbers !! i = Some x ->
     field slots (b * Z.of_nat i) b (x `mod` 2 ^ b)) ->
  py.for_each (py.range 0 (py.len numbers))
    (fun '(decoded, offset) _ =>
       number ← bitutils.read_binary_from_iarray (slots ++ tail) offset b;
       Ok (decoded ++ [number], offset + b))
    ([], 0)
  = Ok ((fun x => x `mod` 2 ^ b) <$> numbers, b * py.len numbers).
Proof.
  intros Hb Hok Hroom Hfields.
  destruct (for_each_range_inv numbers
    (fun '(decoded, offset) (_ : Z) =>
       number ← bitutils.read_binary_from_iarray (slots ++ tail) offset b;
       Ok (decoded ++ [number], offset + b))
    (fun pre st => st = ((fun x => x `mod` 2 ^ b) <$> pre, b * py.len pre))
    ([], 0)) as (st & Hrun & ->).
  { unfold py.len. simpl. f_equal. lia. }
  { intros pre x suf st Heq ->.
    assert (py.len pre + 1 <= py.len numbers) as Hpre.
    { rewrite Heq, len_app. unfold py.len. simpl length. lia. }
    pose proof (len_nonneg pre) as Hprenn.
    assert (b * py.len pre + b <= 32 * py.len slots) by nia.
    rewrite read_iarray_prefix by lia.
    rewrite (read_of_field slots (b * py.len pre) b (x `mod` 2 ^ b));
      try done; try lia.
    - rewrite bind_Ok. eexists. split; [reflexivity|].
      rewrite fmap_app, len_app. change (py.len [x]) with 1.
      f_equal. lia.
    - unfold py.len at 1. apply Hfields.
      rewrite Heq. by rewrite lookup_app_r, Nat.sub_diag by lia. }
  exact Hrun.
Qed.

Lemma setitem_middle {A} (pre suf : list A) (x y : A) :
  py.setitem (pre ++ x :: suf) (py.len pre) y = Ok (pre ++ y :: suf).
Proof.
  rewrite setitem_nonneg.
  - unfold py.len. rewrite Nat2Z.id. f_equal.
    rewrite insert_app_r_alt, Nat.sub_diag by lia. done.
  - rewrite len_app. unfold py.len. simpl length. lia.
Qed.

Lemma lshift_nonneg (x k : Z) : 0 <= k -> py.lshift x k = Ok (Z.shiftl x k).
Proof. intros Hk. unfold py.lshift. destruct (k <? 0) eqn:E; [lia|done]. Qed.

Lemma split_high_low (x b : Z) :
  0 <= b -> x `mod` 2 ^ b + Z.shiftl (Z.shiftr x b) b = x.
Proof.
  intros Hb. rewrite Z.shiftl_mul_pow2, Z.shiftr_div_pow2 by done.
  pose proof (Z.div_mod x (2 ^ b)) as H.
  assert (0 < 2 ^ b) by (apply Z.pow_pos_nonneg; lia). lia.
Qed.

(** The exception loop of [__merge_exceptions]: it adds the high bits
    back at every recorded index. *)
Lemma merge_loop (b : Z) (suf pre rest : list Z) :
  0 <= b -> Forall (fun x => 0 <= x) suf ->
  py.for_each (exc_from b (py.len pre) suf).*1
    (fun '(decoded, exceptions) i =>
       '(high, exceptions) ← py.pop0 exceptions;
       exception ← py.lshift high b;
       old ← py.getitem decoded i;
       decoded ← py.setitem decoded i (old + exception);
       Ok (decoded, exceptions))
    (pre ++ ((fun x => x `mod` 2 ^ b) <$> suf),
     (exc_from b (py.len pre) suf).*2 ++ rest)
  = Ok (pre ++ suf, rest).
Proof.
  intros Hb. revert pre. induction suf as [|x suf IH]; intros pre Hnn; [done|].
  apply Forall_cons_1 in Hnn as [Hx Hnn].
  assert (0 < 2 ^ b) by (apply Z.pow_pos_nonneg; lia).
  assert (py.len (pre ++ [x]) = py.len pre + 1) as Hlen
    by (rewrite len_app; reflexivity).
  specialize (IH (pre ++ [x]) Hnn). rewrite Hlen, <- !app_assoc in IH.
  simpl exc_from. destruct (x >? 2 ^ b - 1) eqn:E.
  - simpl fmap. rewrite for_each_cons. simpl py.pop0.
    rewrite bind_Ok. cbv beta iota.
    rewrite lshift_nonneg by done.
    rewrite bind_Ok, getitem_middle, bind_Ok, setitem_middle, !bind_Ok.
    rewrite split_high_low by done. exact IH.
  - simpl fmap. rewrite Z.mod_small by lia. exact IH.
Qed.

(** ** pforencoder: round trip *)

Lemma count_above_zero (m : Z) (l : list Z) :
  count_above m l = 0 -> Forall (fun x => x <= m) l.
Proof.
  induction l as [|x l IH]; intros H; [constructor|]. simpl in H.
  pose proof (count_above_bounds m l).
  destruct (x >? m) eqn:E; [lia|]. constructor; [lia|]. apply IH. lia.
Qed.

Lemma exc_from_high_pos (b i : Z) (l : list Z) :
  0 <= b -> Forall (fun e => 1 <= e) (exc_from b i l).*2.
Proof.
  intros Hb. apply Forall_fmap.
  eapply Forall_impl; [|apply exc_from_spec]. simpl.
  intros p [_ (x & _ & Hgt & ->)].
  rewrite Z.shiftr_div_pow2 by done.
  assert (0 < 2 ^ b) by (apply Z.pow_pos_nonneg; lia).
  apply Z.div_le_lower_bound; lia.
Qed.

Lemma exc_from_complete (b i x : Z) (l : list Z) :
  x ∈ l -> 2 ^ b - 1 < x -> Z.shiftr x b ∈ (exc_from b i l).*2.
Proof.
  intros Hx Hgt. revert i. induction l as [|y l IH]; intros i; [inversion Hx|].
  simpl. apply elem_of_cons in Hx as [-> | Hx].
  - destruct (y >? 2 ^ b - 1) eqn:E; [|lia]. by left.
  - destruct (y >? 2 ^ b - 1); [right|]; by apply IH.
Qed.

Lemma slice_to_take {A} (l : list A) (k : Z) :
  0 <= k -> py.slice_to l k = take (Z.to_nat k) l.
Proof.
  intros Hk. unfold py.slice_to, py.norm_bound.
  destruct (k <? 0) eqn:E; [lia|].
  destruct (Z.le_ge_cases k (py.len l)).
  - f_equal. lia.
  - rewrite !take_ge; [done| |]; unfold py.len in *; lia.
Qed.

Lemma slice_from_drop {A} (l : list A) (k : Z) :
  0 <= k -> py.slice_from l k = drop (Z.to_nat k) l.
Proof.
  intros Hk. unfold py.slice_from, py.norm_bound.
  destruct (k <? 0) eqn:E; [lia|].
  destruct (Z.le_ge_cases k (py.len l)).
  - f_equal. lia.
  - rewrite !drop_ge; [done| |]; unfold py.len in *; lia.
Qed.

Lemma slice_0_take {A} (l : list A) (k : Z) :
  0 <= k -> py.slice l 0 k = take (Z.to_nat k) l.
Proof.
  intros Hk. unfold py.slice, py.norm_bound.
  change (0 <? 0) with false. cbv iota.
  destruct (k <? 0) eqn:E; [lia|].
  pose proof (len_nonneg l).
  replace (0 `min` py.len l) with 0 by lia.
  change (Z.to_nat 0) with 0%nat. rewrite drop_0, Z.sub_0_r.
  destruct (Z.le_ge_cases k (py.len l)).
  - f_equal. lia.
  - rewrite !take_ge; [done| |]; unfold py.len in *; lia.
Qed.

Lemma merge_exceptions_spec (numbers : list Z) (b : Z) :
  0 <= b -> Forall (fun x => 0 <= x) numbers ->
  pforencoder.merge_exceptions ((fun x => x `mod` 2 ^ b) <$> numbers)
    ((exc_from b 0 numbers).*1 ++ (exc_from b 0 numbers).*2) b
  = Ok numbers.
Proof.
  intros Hb Hnn. unfold pforencoder.merge_exceptions.
  set (ps := exc_from b 0 numbers).
  assert (py.len (ps.*1 ++ ps.*2) = 2 * py.len ps.*1) as Hlen.
  { rewrite len_app. unfold py.len. rewrite !length_fmap. lia. }
  pose proof (len_nonneg ps.*1) as Hpos.
  assert (Z.shiftr (py.len (ps.*1 ++ ps.*2)) 1 = py.len ps.*1) as ->.
  { rewrite Hlen, Z.shiftr_div_pow2 by lia. change (2 ^ 1) with 2.
    rewrite Z.mul_comm. apply Z.div_mul. lia. }
  rewrite slice_0_take, slice_from_drop by done.
  unfold py.len at 1 2. rewrite !Nat2Z.id.
  rewrite take_app_length, drop_app_length.
  pose proof (merge_loop b numbers [] [] Hb Hnn) as Hmerge.
  change (py.len []) with 0 in Hmerge. rewrite app_nil_r in Hmerge.
  simpl app in Hmerge. fold ps in Hmerge.
  rewrite Hmerge. reflexivity.
Qed.

(** X7: on every list of at most [2^28] non-negative numbers whose parts
    above the chosen [b] bits are below [2^28], with fewer than [2^27]
    numbers above [2^b - 1], [encode] returns a list that starts with the
    header word [((b - 1) << 27) + count], and [decode] of that list with
    the count of the numbers returns the input. *)
Theorem pfor_encode_decode (numbers : list Z) :
  let b := optimal_b numbers in
  let count := count_above (2 ^ b - 1) numbers in
  pfor_encodable numbers -> count < 2 ^ 27 ->
  exists rest,
    pforencoder.encode numbers = Ok ((Z.shiftl (b - 1) 27 + count) :: rest) /\
    pforencoder.decode ((Z.shiftl (b - 1) 27 + count) :: rest) (py.len numbers)
      = Ok numbers.
Proof.
  intros b count Henc Hcount.
  pose proof (exceptions_in_range numbers Henc) as Hexc.
  destruct (optimal_b_spec numbers) as [Hb _].
  assert (Forall (fun x => 0 <= x) numbers) as Hnn.
  { destruct Henc as [H _]. eapply Forall_impl; [|exact H]. simpl. lia. }
  destruct (pfor_encode_spec numbers Hnn) as (encoded & Hrun & Hused & Hok & Hfields).
  clear Henc.
  assert (count = count_above (2 ^ b - 1) numbers) as Hcdef by reflexivity.
  assert (b = optimal_b numbers) as Hbdef by reflexivity.
  clearbody count. clearbody b.
  rewrite <- Hbdef in Hb, Hrun, Hused, Hfields, Hexc.
  rewrite <- Hcdef in Hrun. clear Hbdef.
  set (ps := exc_from b 0 numbers) in *.
  destruct (simple16_encode_decode (ps.*1 ++ ps.*2) Hexc) as (s16 & Hs16 & _ & Hs16dec).
  rewrite Hs16, bind_Ok in Hrun.
  set (U := Z.to_nat ((b * py.len numbers + 31) / 32)) in *.
  pose proof (len_nonneg numbers) as Hn.
  assert (0 <= (b * py.len numbers + 31) / 32) as HUnn by (apply Z.div_pos; lia).
  assert (length (take U encoded) = U) as HlenU.
  { rewrite length_take. unfold py.len in Hused. unfold U, py.len. lia. }
  assert (0 <= count) as Hcount0 by (rewrite Hcdef; apply count_above_bounds).
  exists (take U encoded ++ s16). split; [exact Hrun|].
  unfold pforencoder.decode.
  destruct (get_header_spec b count (take U encoded ++ s16)) as [-> _]; [done|lia|].
  rewrite bind_Ok. cbv beta iota. rewrite slice_from_cons.
  assert (b * py.len numbers <= 32 * Z.of_nat U) as Hroom.
  { unfold U. rewrite Z2Nat.id by done. Z.div_mod_to_equations. lia. }
  rewrite (pfor_read_loop numbers (take U encoded) s16 b); [|exact Hb| | |].
  2:{ by apply Forall_take. }
  2:{ unfold py.len at 2. rewrite HlenU. done. }
  2:{ intros i x Hx. apply field_take; [nia|lia| |by apply Hfields].
      apply lookup_lt_Some in Hx. unfold py.len in *. nia. }
  rewrite bind_Ok. cbv beta iota.
  destruct (count >? 0) eqn:E.
  - unfold py.ceil_div.
    replace (b * py.len numbers + 32 - 1) with (b * py.len numbers + 31) by lia.
    rewrite slice_from_drop by done. fold U.
    rewrite <- HlenU at 1. rewrite drop_app_length.
    rewrite Hs16dec, bind_Ok.
    2:{ assert (ps.*2 <> []) as Hne.
        { intros Heq. assert (py.len ps.*2 = 0) as H0 by (by rewrite Heq).
          unfold py.len in H0. rewrite length_fmap in H0.
          pose proof (exc_from_length b 0 numbers) as Hl. unfold py.len in Hl.
          fold ps in Hl. lia. }
        destruct (snoc_cases ps.*2) as [Heq | (l' & y & Heq)]; [done|].
        rewrite Heq, app_assoc, last_last.
        pose proof (exc_from_high_pos b 0 numbers ltac:(lia)) as Hpos.
        fold ps in Hpos. rewrite Heq in Hpos.
        apply Forall_app in Hpos as [_ Hpos].
        apply Forall_cons_1 in Hpos as [Hy _]. lia. }
    rewrite lshift_nonneg, bind_Ok by lia.
    assert (Z.shiftl count 1 = py.len (ps.*1 ++ ps.*2)) as ->.
    { rewrite Z.shiftl_mul_pow2 by lia. change (2 ^ 1) with 2.
      rewrite len_app. unfold py.len. rewrite !length_fmap.
      pose proof (exc_from_length b 0 numbers) as Hl. unfold py.len in Hl.
      fold ps in Hl. lia. }
    rewrite slice_0_take by apply len_nonneg.
    unfold py.len at 1. rewrite Nat2Z.id, firstn_all.
    apply merge_exceptions_spec; [lia|done].
  - f_equal. assert (count_above (2 ^ b - 1) numbers = 0) as H0 by lia.
    apply count_above_zero in H0.
    rewrite <- (list_fmap_id numbers) at 2.
    apply Forall_fmap_ext_1.
    apply Forall_lookup_2. intros i x Hx.
    pose proof (Forall_lookup_1 _ _ _ _ Hnn Hx) as H1.
    pose proof (Forall_lookup_1 _ _ _ _ H0 Hx) as H2.
    simpl in H1, H2. unfold id. apply Z.mod_small. lia.
Qed.

(** ** bitutils: what a write stores, and when it raises *)

(** X2: on words that are clear in the target range, a write stores the
    binary digits of the value, most significant first, in the bits
    [offset .. offset + bits - 1] of the array seen as one bit string, and
    changes no other bit, no word count and no word range; for the 8-bit
    routine and for the 32-bit routine. *)
Theorem write_binary_layout (arr : list Z) (off bits value : Z) :
  0 <= off -> 0 <= bits -> 0 <= value < 2 ^ bits ->
  (words_ok 8 arr -> off + bits <= 8 * py.len arr ->
   bits - (8 - off `mod` 8) <= 32 ->
   (forall p, off <= p < off + bits -> bit 8 arr p = false) ->
   exists arr',
     bitutils.write_binary_in_barray arr off value bits = Ok (arr', off + bits) /\
     py.len arr' = py.len arr /\ words_ok 8 arr' /\
     forall p, 0 <= p ->
       bit 8 arr' p =
         if (off <=? p) && (p <? off + bits)
         then Z.testbit value (off + bits - 1 - p) else bit 8 arr p) /\
  (words_ok 32 arr -> off + bits <= 32 * py.len arr ->
   bits - (32 - off `mod` 32) <= 32 ->
   (forall p, off <= p < off + bits -> bit 32 arr p = false) ->
   exists arr',
     bitutils.write_binary_in_iarray arr off value bits = Ok (arr', off + bits) /\
     py.len arr' = py.len arr /\ words_ok 32 arr' /\
     forall p, 0 <= p ->
       bit 32 arr' p =
         if (off <=? p) && (p <? off + bits)
         then Z.testbit value (off + bits - 1 - p) else bit 32 arr p).
Proof.
  intros Hoff Hbits Hvalue. split; intros Hok Hroom Hspan Hclear.
  - apply (write_loop_spec 3 8 bitutils.write_barray_loop
             ltac:(by left) write_barray_is_loop
             (Z.to_nat bits) arr off value bits); try assumption; lia.
  - apply (write_loop_spec 5 32 bitutils.write_iarray_loop
             ltac:(by right) write_iarray_is_loop
             (Z.to_nat bits) arr off value bits); try assumption; lia.
Qed.

Lemma write_binary_layout_witness :
  exists arr',
    bitutils.write_binary_in_barray [0xE0; 0; 0x07] 3 0x155 18 = Ok (arr', 3 + 18) /\
    py.len arr' = py.len [0xE0; 0; 0x07] /\ words_ok 8 arr' /\
    forall p, 0 <= p ->
      bit 8 arr' p =
        if (3 <=? p) && (p <? 3 + 18)
        then Z.testbit 0x155 (3 + 18 - 1 - p) else bit 8 [0xE0; 0; 0x07] p.
Proof.
  apply (proj1 (write_binary_layout [0xE0; 0; 0x07] 3 18 0x155
                  ltac:(lia) ltac:(lia) ltac:(lia))).
  - repeat constructor; lia.
  - change (py.len [0xE0; 0; 0x07]) with 3. lia.
  - change (3 `mod` 8) with 3. lia.
  - intros p Hp.
    assert (p = 3 \/ p = 4 \/ p = 5 \/ p = 6 \/ p = 7 \/ p = 8 \/ p = 9 \/
            p = 10 \/ p = 11 \/ p = 12 \/ p = 13 \/ p = 14 \/ p = 15 \/
            p = 16 \/ p = 17 \/ p = 18 \/ p = 19 \/ p = 20) as Hcases by lia.
    repeat (destruct Hcases as [-> | Hcases]; [reflexivity|]).
    subst p. reflexivity.
Defined.

(** One turn of a write whose width exceeds by more than 32 the bits left
    in the first word: the mask shift [32 - shift] is negative. *)
Lemma write_loop_too_wide (k W : Z) loop :
  word_size k W -> is_write_loop k W loop ->
  forall (fuel : nat) (arr : list Z) (off num bits : Z),
    0 <= off -> off / W < py.len arr ->
    32 < bits - (W - off `mod` W) -> (0 < fuel)%nat ->
    loop fuel arr off num bits = Raise ValueError.
Proof.
  intros HW Hloop fuel arr off num bits Hoff Hin Hwide Hfuel.
  assert (0 < W <= 32) as HWr by warith.
  assert (0 <= off `mod` W < W) as Hbi by (apply Z.mod_pos_bound; lia).
  assert (0 <= off / W) as Hidx by (apply Z.div_pos; lia).
  rewrite Hloop. destruct (bits >? 0) eqn:E; [|lia].
  destruct fuel as [|fuel]; [lia|].
  unfold write_turn.
  rewrite (shiftr_word k W off HW), (land_word k W off HW).
  rewrite (getitem_word arr (off / W)) by lia. rewrite bind_Ok.
  destruct (W - off `mod` W <? bits) eqn:E2; [|lia].
  rewrite setitem_nonneg by lia. rewrite bind_Ok.
  unfold py.rshift.
  destruct (32 - Z.abs (bits - (W - off `mod` W)) <? 0) eqn:E3; [|lia].
  apply bind_Raise.
Qed.

(** X3: a write whose width exceeds by more than 32 the bits left in the
    word the offset points into raises ValueError (the negative shift count
    of its mask), on every array that holds that word and for every value;
    for the 8-bit routine and for the 32-bit routine. *)
Theorem write_too_wide_raises (arr : list Z) (off bits value : Z) :
  0 <= off ->
  (off / 8 < py.len arr -> 32 < bits - (8 - off `mod` 8) ->
   bitutils.write_binary_in_barray arr off value bits = Raise ValueError) /\
  (off / 32 < py.len arr -> 32 < bits - (32 - off `mod` 32) ->
   bitutils.write_binary_in_iarray arr off value bits = Raise ValueError).
Proof.
  intros Hoff. split; intros Hin Hwide.
  - assert (0 <= off `mod` 8 < 8) by (apply Z.mod_pos_bound; lia).
    apply (write_loop_too_wide 3 8 _ ltac:(by left) write_barray_is_loop);
      try assumption; lia.
  - assert (0 <= off `mod` 32 < 32) by (apply Z.mod_pos_bound; lia).
    apply (write_loop_too_wide 5 32 _ ltac:(by right) write_iarray_is_loop);
      try assumption; lia.
Qed.

Lemma write_too_wide_raises_witness :
  bitutils.write_binary_in_barray (replicate 8 0) 3 5 38 = Raise ValueError /\
  bitutils.write_binary_in_iarray (replicate 3 0) 0 5 70 = Raise ValueError.
Proof.
  split.
  - apply (proj1 (write_too_wide_raises (replicate 8 0) 3 38 5 ltac:(lia))).
    + rewrite len_replicate. change (3 / 8) with 0. lia.
    + change (3 `mod` 8) with 3. lia.
  - apply (proj2 (write_too_wide_raises (replicate 3 0) 0 70 5 ltac:(lia))).
    + rewrite len_replicate. change (0 / 32) with 0. lia.
    + change (0 `mod` 32) with 0. lia.
Defined.

(** ** simple16encoder: round trip *)

(** X4: on every list of numbers below [2^28], [encode] returns and
    [decode] of its output starts with the input and continues with zeros
    only (the unused slots of the last batch); with the stripping of
    trailing zeros it returns the input itself whenever the input does not
    end with a zero. *)
Theorem simple16_roundtrip (numbers : list Z) :
  Forall (fun x => 0 <= x < 2 ^ 28) numbers ->
  exists encoded decoded,
    simple16encoder.encode numbers = Ok encoded /\
    simple16encoder.decode encoded false = Ok decoded /\
    take (length numbers) decoded = numbers /\
    Forall (fun x => x = 0) (drop (length numbers) decoded) /\
    (last numbers 1 <> 0 -> simple16encoder.decode encoded true = Ok numbers).
Proof.
  intros Hrange.
  destruct (simple16_encode_decode numbers Hrange)
    as (encoded & Henc & (pad & Hdec) & Hstrip).
  exists encoded, (numbers ++ replicate pad 0).
  split; [exact Henc|]. split; [exact Hdec|].
  split; [by rewrite take_app_length|].
  split; [|exact Hstrip].
  rewrite drop_app_length. apply Forall_replicate. reflexivity.
Qed.

Lemma simple16_roundtrip_witness :
  exists encoded decoded,
    simple16encoder.encode [3; 2 ^ 19; 0; 5] = Ok encoded /\
    simple16encoder.decode encoded false = Ok decoded /\
    take (length [3; 2 ^ 19; 0; 5]) decoded = [3; 2 ^ 19; 0; 5] /\
    Forall (fun x => x = 0) (drop (length [3; 2 ^ 19; 0; 5]) decoded) /\
    (last [3; 2 ^ 19; 0; 5] 1 <> 0 ->
     simple16encoder.decode encoded true = Ok [3; 2 ^ 19; 0; 5]).
Proof.
  apply (simple16_roundtrip [3; 2 ^ 19; 0; 5]).
  repeat constructor; lia.
Defined.

(** ** pforencoder: the choice of [b] and the header word *)

(** X5: [estimate_encoded_size] returns [32 + b * n + 32 * e], [e] being
    the count of numbers above [2^b - 1], for every [b] from 0 to 32; and
    [__find_optimal_b] returns the [b] of 1..32 that minimises this
    estimate, the smallest one when several do. *)
Theorem find_optimal_b_minimises (numbers : list Z) :
  (forall b, 0 <= b <= 32 ->
     pforencoder.estimate_encoded_size numbers b
       = Ok (32 + py.len numbers * b + 32 * count_above (2 ^ b - 1) numbers)) /\
  exists b,
    pforencoder.find_optimal_b numbers = Ok b /\ 1 <= b <= 32 /\
    forall b', 1 <= b' <= 32 ->
      size_estimate numbers b <= size_estimate numbers b' /\
      (size_estimate numbers b' = size_estimate numbers b -> b <= b').
Proof.
  split.
  - intros b Hb. exact (estimate_encoded_size_spec numbers b Hb).
  - destruct (optimal_b_spec numbers) as [Hrange Hmin].
    exists (optimal_b numbers).
    split; [exact (find_optimal_b_spec numbers)|].
    split; [exact Hrange|exact Hmin].
Qed.

(** X6: from the header word [((b - 1) << 27) | count], [__get_header]
    reads back the pair [(b, count)], for every [b] from 1 to 32 and every
    exception count below [2^27]; on such values the sum that [encode]
    stores is that word. *)
Theorem pfor_header_roundtrip (b count : Z) (rest : list Z) :
  1 <= b <= 32 -> 0 <= count < 2 ^ 27 ->
  Z.shiftl (b - 1) 27 + count = Z.lor (Z.shiftl (b - 1) 27) count /\
  pforencoder.get_header (Z.lor (Z.shiftl (b - 1) 27) count :: rest)
    = Ok (b, count).
Proof.
  intros Hb Hc.
  destruct (get_header_spec b count rest Hb Hc) as [Hread Hlor].
  split; [exact Hlor|]. rewrite <- Hlor. exact Hread.
Qed.

Lemma pfor_header_roundtrip_witness :
  Z.shiftl (32 - 1) 27 + 77 = Z.lor (Z.shiftl (32 - 1) 27) 77 /\
  pforencoder.get_header (Z.lor (Z.shiftl (32 - 1) 27) 77 :: [1; 2])
    = Ok (32, 77).
Proof.
  apply (pfor_header_roundtrip 32 77 [1; 2]); lia.
Defined.

(** ** pforencoder: numbers it cannot encode *)

(** X8: [encode] raises TypeError when the part above the chosen [b] bits
    of some number needs more than 28 bits: that part goes to the
    Simple-16 encoder, which has no slot for it. *)
Theorem pfor_encode_rejects_wide_exception (numbers : list Z) (x : Z) :
  Forall (fun y => 0 <= y) numbers -> x ∈ numbers ->
  2 ^ 28 <= Z.shiftr x (optimal_b numbers) ->
  pforencoder.encode numbers = Raise TypeError.
Proof.
  intros Hnn Hx Hbig.
  destruct (optimal_b_spec numbers) as [Hb _].
  destruct (pfor_encode_spec numbers Hnn) as (encoded & Hrun & _).
  rewrite Hrun. clear Hrun.
  remember (optimal_b numbers) as b eqn:Hbdef. clear Hbdef.
  assert (0 < 2 ^ b) as Hpow by (apply Z.pow_pos_nonneg; lia).
  assert (2 ^ b - 1 < x) as Hgt.
  { rewrite Z.shiftr_div_pow2 in Hbig by lia.
    assert (x / 2 ^ b * 2 ^ b <= x).
    { rewrite Z.mul_comm. apply Z.mul_div_le. lia. }
    nia. }
  apply (exc_from_complete b 0) in Hx; [|exact Hgt].
  apply list_elem_of_lookup in Hx as [j Hj].
  set (ps := exc_from b 0 numbers) in *.
  assert (simple16encoder.encode (ps.*1 ++ ps.*2) = Raise TypeError) as ->;
    [|apply bind_Raise].
  unfold simple16encoder.encode.
  apply (encode_loop_fails _ (Z.of_nat (length ps.*1 + j)) (Z.shiftr x b)).
  - lia.
  - rewrite Nat2Z.id. rewrite lookup_app_r by lia.
    replace (length ps.*1 + j - length ps.*1)%nat with j by lia. exact Hj.
  - exact Hbig.
  - lia.
  - unfold py.len. lia.
Qed.

Lemma pfor_encode_rejects_wide_exception_witness :
  pforencoder.encode [0; 2 ^ 31] = Raise TypeError.
Proof.
  apply (pfor_encode_rejects_wide_exception [0; 2 ^ 31] (2 ^ 31)).
  - repeat constructor; lia.
  - apply elem_of_cons. right. apply elem_of_cons. left. reflexivity.
  - vm_compute. discriminate.
Defined.

Lemma pfor_encode_decode_witness :
  exists rest,
    pforencoder.encode [3; 1000; 5; 7; 2 ^ 20] =
      Ok ((Z.shiftl (optimal_b [3; 1000; 5; 7; 2 ^ 20] - 1) 27
           + count_above (2 ^ optimal_b [3; 1000; 5; 7; 2 ^ 20] - 1)
               [3; 1000; 5; 7; 2 ^ 20]) :: rest) /\
    pforencoder.decode
      ((Z.shiftl (optimal_b [3; 1000; 5; 7; 2 ^ 20] - 1) 27
        + count_above (2 ^ optimal_b [3; 1000; 5; 7; 2 ^ 20] - 1)
            [3; 1000; 5; 7; 2 ^ 20]) :: rest)
      (py.len [3; 1000; 5; 7; 2 ^ 20])
    = Ok [3; 1000; 5; 7; 2 ^ 20].
Proof.
  apply (pfor_encode_decode [3; 1000; 5; 7; 2 ^ 20]).
  - split; [|vm_compute; discriminate].
    repeat constructor; vm_compute; (discriminate || reflexivity).
  - vm_compute. reflexivity.
Defined.

(** ** gapsencoder: round trip *)

(** The differences of consecutive elements of [l], [prev] preceding the
    first one. *)
Fixpoint diffs (prev : Z) (l : list Z) : list Z :=
  match l with
  | [] => []
  | x :: l' => (x - prev) :: diffs x l'
  end.

Lemma prefix_sums_diffs (a : Z) (l : list Z) : prefix_sums a (diffs a l) = l.
Proof.
  revert a. induction l as [|x l IH]; intros a; simpl; [done|].
  replace (a + (x - a)) with x by lia. by rewrite IH.
Qed.

Lemma diffs_length (a : Z) (l : list Z) : length (diffs a l) = length l.
Proof. revert a. induction l as [|x l IH]; intros a; simpl; [done|]. by rewrite IH. Qed.

(** [l] is non-decreasing and starts at [prev] or above. *)
Fixpoint nondecreasing_from (prev : Z) (l : list Z) : Prop :=
  match l with
  | [] => True
  | x :: l' => prev <= x /\ nondecreasing_from x l'
  end.

Lemma diffs_nonneg (a : Z) (l : list Z) :
  nondecreasing_from a l -> Forall (fun g => 0 <= g) (diffs a l).
Proof.
  revert a. induction l as [|x l IH]; intros a Hs; simpl; [constructor|].
  destruct Hs as [Hax Hs]. constructor; [lia|by apply IH].
Qed.

(** The loop of [encode] from index [len(pre) + 1] on: it appends the
    differences and leaves the argument as it was. *)
Lemma gaps_encode_loop_diffs (l pre : list Z) (a : Z) (gaps : list Z) :
  gapsencoder.arg_for (py.range (py.len pre + 1) (py.len (pre ++ a :: l)))
    (fun gaps i =>
       gapsencoder.arg_bind (gapsencoder.arg_getitem i) (fun a =>
       gapsencoder.arg_bind (gapsencoder.arg_getitem (i - 1)) (fun b =>
       gapsencoder.arg_ret (gaps ++ [a - b]))))
    gaps (pre ++ a :: l)
  = Ok (gaps ++ diffs a l, pre ++ a :: l).
Proof.
  revert pre a gaps. induction l as [|x l IH]; intros pre a gaps.
  - rewrite range_nil by (rewrite len_app; unfold py.len; simpl; lia).
    simpl. by rewrite app_nil_r.
  - assert (py.getitem (pre ++ a :: x :: l) (py.len pre + 1) = Ok x) as H1.
    { replace (py.len pre + 1) with (py.len (pre ++ [a]))
        by (rewrite len_app; unfold py.len; simpl; lia).
      replace (pre ++ a :: x :: l) with ((pre ++ [a]) ++ x :: l)
        by (by rewrite <- app_assoc).
      apply getitem_middle. }
    assert (py.getitem (pre ++ a :: x :: l) (py.len pre + 1 - 1) = Ok a) as H2.
    { replace (py.len pre + 1 - 1) with (py.len pre) by lia.
      apply getitem_middle. }
    rewrite range_cons by (rewrite len_app; unfold py.len; simpl; lia).
    cbn [gapsencoder.arg_for].
    set (rest := gapsencoder.arg_for _ _).
    unfold gapsencoder.arg_bind, gapsencoder.arg_getitem, gapsencoder.arg_ret.
    rewrite H1, bind_Ok, H2, bind_Ok. subst rest.
    specialize (IH (pre ++ [a]) x (gaps ++ [x - a])).
    rewrite <- !app_assoc in IH. simpl app in IH.
    replace (py.len (pre ++ [a]) + 1) with (py.len pre + 1 + 1) in IH
      by (rewrite len_app; unfold py.len; simpl; lia).
    exact IH.
Qed.

(** X9: on every non-empty list [encode] returns the first element
    followed by the differences of consecutive elements, and [decode] of
    that list returns the input; the gaps of a non-decreasing list are
    non-negative from the second on. On the empty list both functions raise
    IndexError. *)
Theorem gaps_roundtrip (x : Z) (l : list Z) :
  gapsencoder.encode (x :: l) = Ok (x :: diffs x l, x :: l) /\
  gapsencoder.decode (x :: diffs x l) = Ok (x :: l, diffs x l) /\
  (nondecreasing_from x l -> Forall (fun g => 0 <= g) (diffs x l)) /\
  gapsencoder.encode [] = Raise IndexError /\
  gapsencoder.decode [] = Raise IndexError.
Proof.
  split; [|split; [|split; [|split]]].
  - unfold gapsencoder.encode.
    unfold gapsencoder.arg_bind at 1 2, gapsencoder.arg_getitem,
      gapsencoder.arg_len.
    change (py.getitem (x :: l) 0) with (Ok x : result Z). rewrite bind_Ok.
    exact (gaps_encode_loop_diffs l [] x [x]).
  - unfold gapsencoder.decode, gapsencoder.arg_bind, gapsencoder.arg_pop0,
      gapsencoder.arg_iter. simpl.
    etrans; [exact (gaps_decode_loop (diffs x l) [] x (diffs x l))|].
    simpl. by rewrite prefix_sums_diffs.
  - apply diffs_nonneg.
  - reflexivity.
  - reflexivity.
Qed.

(** ** eliasfanoencoder: the delta preprocessing undone *)

(** What [__delta_encode_since_min] returns on a list of two elements or
    more. *)
Lemma delta_encode_run (s0 s1 : Z) (rest : list Z) :
  eliasfanoencoder.delta_encode_since_min (s0 :: s1 :: rest) =
    if s0 =? 0 then Ok (0 :: s0 :: s1 :: rest)
    else Ok ((s0 - Z.min (s1 - s0 - 1) (s0 - 1)) :: Z.min (s1 - s0 - 1) (s0 - 1)
             :: (s1 - s0) :: ((fun x => x - s0) <$> rest)).
Proof.
  unfold eliasfanoencoder.delta_encode_since_min.
  rewrite slice_from_cons.
  rewrite (delta_encode_tail _ _ _ s0) by done.
  simpl. destruct (s0 =? 0); done.
Qed.

Lemma delta_decode_run (e0 e1 : Z) (tail : list Z) :
  eliasfanoencoder.delta_decode_since_min (e0 :: e1 :: tail) =
    Ok ((e0 + e1) :: ((fun number => e0 + e1 + number) <$> tail)).
Proof.
  unfold eliasfanoencoder.delta_decode_since_min.
  change (py.getitem (e0 :: e1 :: tail) 0) with (Ok e0 : result Z).
  assert (py.getitem (e0 :: e1 :: tail) 1 = Ok e1) as ->
    by (by apply getitem_nonneg).
  rewrite !bind_Ok. rewrite slice_from_drop by lia. reflexivity.
Qed.

(** [l] is strictly increasing and starts above [prev]. *)
Fixpoint increasing_from (prev : Z) (l : list Z) : Prop :=
  match l with
  | [] => True
  | x :: l' => prev < x /\ increasing_from x l'
  end.

Lemma increasing_from_shift (s0 a : Z) (l : list Z) :
  increasing_from a l -> increasing_from (a - s0) ((fun x => x - s0) <$> l).
Proof.
  revert a. induction l as [|x l IH]; intros a H; simpl; [done|].
  destruct H as [Hax H]. split; [lia|by apply IH].
Qed.

(** X10: the delta preprocessing of Elias-Fano is undone by its inverse:
    on every list of two numbers or more, and on [[0]],
    [__delta_decode_since_min] applied to the output of
    [__delta_encode_since_min] returns the input, the output being two
    elements longer than the tail of the input.  On a single number other
    than 0, and on the empty list, the preprocessing raises IndexError. *)
Theorem delta_since_min_roundtrip (s0 : Z) (rest : list Z) :
  (rest <> [] \/ s0 = 0 ->
   exists encoded,
     eliasfanoencoder.delta_encode_since_min (s0 :: rest) = Ok encoded /\
     py.len encoded = py.len rest + 2 /\
     eliasfanoencoder.delta_decode_since_min encoded = Ok (s0 :: rest)) /\
  (s0 <> 0 ->
   eliasfanoencoder.delta_encode_since_min [s0] = Raise IndexError) /\
  eliasfanoencoder.delta_encode_since_min [] = Raise IndexError.
Proof.
  split; [|split].
  - intros Hcase. destruct rest as [|s1 rest].
    + destruct Hcase as [Hne | ->]; [done|]. exists [0; 0]. by repeat split.
    + rewrite delta_encode_run. destruct (s0 =? 0) eqn:E.
      * assert (s0 = 0) as -> by lia. eexists. split; [done|].
        split; [unfold py.len; simpl length; lia|].
        rewrite delta_decode_run. simpl. f_equal. f_equal. f_equal.
        rewrite <- (list_fmap_id rest) at 2. apply list_fmap_ext.
        intros i y _. reflexivity.
      * eexists. split; [done|].
        split; [unfold py.len; simpl length; rewrite length_fmap; lia|].
        rewrite delta_decode_run.
        replace (s0 - Z.min (s1 - s0 - 1) (s0 - 1) + Z.min (s1 - s0 - 1) (s0 - 1))
          with s0 by lia.
        simpl. f_equal. f_equal. f_equal; [lia|].
        rewrite <- list_fmap_compose.
        rewrite <- (list_fmap_id rest) at 2. apply list_fmap_ext.
        intros i y _. simpl. lia.
  - intros Hs0. unfold eliasfanoencoder.delta_encode_since_min.
    rewrite slice_from_cons. simpl. destruct (s0 =? 0) eqn:E; [lia|done].
  - reflexivity.
Qed.

Lemma delta_since_min_roundtrip_witness :
  exists encoded,
    eliasfanoencoder.delta_encode_since_min [5; 7; 9] = Ok encoded /\
    py.len encoded = py.len [7; 9] + 2 /\
    eliasfanoencoder.delta_decode_since_min encoded = Ok [5; 7; 9].
Proof.
  apply (proj1 (delta_since_min_roundtrip 5 [7; 9])).
  left. discriminate.
Defined.

(** X11: on a strictly increasing list that starts above 0 the
    preprocessing yields a first value of at least 1 (the one stored in
    Variable Byte) followed by a strictly increasing list of non-negative
    numbers (the ones stored in Elias-Fano): the second value stays below
    the first delta. *)
Theorem delta_since_min_increasing (s0 s1 : Z) (rest : list Z) :
  0 < s0 -> increasing_from s0 (s1 :: rest) ->
  exists vb fano tail,
    eliasfanoencoder.delta_encode_since_min (s0 :: s1 :: rest)
      = Ok (vb :: fano :: tail) /\
    1 <= vb /\ 0 <= fano /\ vb + fano = s0 /\ increasing_from fano tail.
Proof.
  intros Hpos [Hs1 Hrest].
  rewrite delta_encode_run. destruct (s0 =? 0) eqn:E; [lia|].
  do 3 eexists. split; [done|].
  repeat split; try lia.
  replace s1 with (s1 - s0 + s0) in Hrest by lia.
  apply (increasing_from_shift s0) in Hrest.
  replace (s1 - s0 + s0 - s0) with (s1 - s0) in Hrest by lia. exact Hrest.
Qed.

Lemma delta_since_min_increasing_witness :
  exists vb fano tail,
    eliasfanoencoder.delta_encode_since_min (5 :: 7 :: [9; 20])
      = Ok (vb :: fano :: tail) /\
    1 <= vb /\ 0 <= fano /\ vb + fano = 5 /\ increasing_from fano tail.
Proof.
  apply (delta_since_min_increasing 5 7 [9; 20]).
  - lia.
  - simpl. lia.
Defined.

(** ** vbencoder: round trip *)

(** The number that the base-128 digits [bytes] spell after [acc]. *)
Definition vb_value (acc : Z) (bytes : list Z) : Z :=
  foldl (fun a d => Z.shiftl a 7 + d) acc bytes.

Lemma vb_value_snoc (acc : Z) (bytes : list Z) (d : Z) :
  vb_value acc (bytes ++ [d]) = Z.shiftl (vb_value acc bytes) 7 + d.
Proof. unfold vb_value. by rewrite foldl_app. Qed.

Lemma vb_split (n : Z) : Z.shiftl (Z.shiftr n 7) 7 + Z.land n 127 = n.
Proof.
  rewrite Z.shiftl_mul_pow2, Z.shiftr_div_pow2 by lia.
  change 127 with (Z.ones 7). rewrite Z.land_ones by lia.
  change (2 ^ 7) with 128. Z.div_mod_to_equations. lia.
Qed.

(** The loop of [encode] puts the base-128 digits of the number, most
    significant first, before what it was given. *)
Lemma vb_encode_loop_spec (fuel : nat) (n : Z) (acc : list Z) :
  (0 < fuel)%nat -> 0 <= n < 2 ^ (7 * Z.of_nat fuel) ->
  exists body,
    vbencoder.encode_loop fuel n acc = Ok (body ++ [Z.land n 127] ++ acc) /\
    Forall (fun x => 0 <= x < 128) body /\
    vb_value 0 (body ++ [Z.land n 127]) = n /\
    py.len body = Z.log2 n / 7.
Proof.
  revert n acc. induction fuel as [|fuel IH]; intros n acc Hfuel Hn; [lia|].
  cbn [vbencoder.encode_loop].
  destruct (n <? 128) eqn:E.
  - exists []. split; [done|]. split; [constructor|].
    assert (Z.land n 127 = n) as ->.
    { change 127 with (Z.ones 7). rewrite Z.land_ones by lia.
      apply Z.mod_small. lia. }
    split; [done|].
    destruct (Z.eq_dec n 0) as [-> | Hnz]; [done|].
    assert (Z.log2 n < 7) by (apply Z.log2_lt_pow2; lia).
    pose proof (Z.log2_nonneg n).
    change (py.len []) with 0. symmetry. apply Z.div_small. lia.
  - assert (0 <= Z.shiftr n 7 < 2 ^ (7 * Z.of_nat fuel)) as Hhi.
    { rewrite Z.shiftr_div_pow2 by lia. split; [apply Z.div_pos; lia|].
      apply Z.div_lt_upper_bound; [lia|].
      rewrite <- Z.pow_add_r by lia.
      replace (7 + 7 * Z.of_nat fuel) with (7 * Z.of_nat (S fuel)) by lia.
      lia. }
    assert (1 <= Z.shiftr n 7) as Hge.
    { rewrite Z.shiftr_div_pow2 by lia. apply Z.div_le_lower_bound; lia. }
    assert (0 < fuel)%nat as Hf.
    { destruct fuel; [|lia]. change (2 ^ (7 * Z.of_nat 0)) with 1 in Hhi. lia. }
    destruct (IH (Z.shiftr n 7) ([Z.land n 127] ++ acc) Hf Hhi)
      as (body & Hrun & Hbody & Hval & Hlen).
    exists (body ++ [Z.land (Z.shiftr n 7) 127]).
    split; [by rewrite Hrun, <- !app_assoc|].
    split.
    { apply Forall_app. split; [done|]. constructor; [|constructor].
      change 127 with (Z.ones 7). rewrite Z.land_ones by lia.
      apply Z.mod_pos_bound. lia. }
    split.
    { rewrite vb_value_snoc, Hval. apply vb_split. }
    rewrite len_app, Hlen. change (py.len [_]) with 1.
    rewrite Z.log2_shiftr by lia.
    assert (7 <= Z.log2 n) by (apply Z.log2_le_pow2; lia).
    replace (Z.max 0 (Z.log2 n - 7)) with (Z.log2 n - 7) by lia.
    Z.div_mod_to_equations. lia.
Qed.

(** One turn of the loop of [decode]. *)
Definition vb_step : list Z * Z -> Z -> list Z * Z :=
  fun '(numbers, number) byte =>
    let number := Z.shiftl number 7 + byte in
    if byte >? 127 then (numbers ++ [number - 128], 0) else (numbers, number).

Lemma vb_decode_fold (encoded : list Z) :
  vbencoder.decode encoded = fst (foldl vb_step ([], 0) encoded).
Proof. reflexivity. Qed.

Lemma vb_step_digits (body : list Z) (numbers : list Z) (acc : Z) :
  Forall (fun x => 0 <= x < 128) body ->
  foldl vb_step (numbers, acc) body = (numbers, vb_value acc body).
Proof.
  revert acc. induction body as [|x body IH]; intros acc H; [done|].
  apply Forall_cons_1 in H as [Hx H]. simpl.
  destruct (x >? 127) eqn:E; [lia|]. by apply IH.
Qed.

Lemma vb_step_prefix (rest pre numbers : list Z) (acc : Z) :
  foldl vb_step (pre ++ numbers, acc) rest =
    (pre ++ fst (foldl vb_step (numbers, acc) rest),
     snd (foldl vb_step (numbers, acc) rest)).
Proof.
  revert numbers acc. induction rest as [|x rest IH]; intros numbers acc; [done|].
  simpl. destruct (x >? 127).
  - rewrite <- app_assoc. apply IH.
  - apply IH.
Qed.

(** [decode_number] from the index of the first byte of a number: it
    returns at the terminator byte [t]. *)
Lemma vb_decode_number_loop (body : list Z) (pre rest : list Z) (acc t : Z) :
  Forall (fun x => 0 <= x < 128) body -> 127 < t ->
  vbencoder.decode_number_loop (pre ++ body ++ t :: rest)
    (py.range (py.len pre) (py.len (pre ++ body ++ t :: rest))) acc
  = Ok (Some (Z.shiftl (vb_value acc body) 7 + t - 128,
              (py.len pre + py.len body + 1) * 8)).
Proof.
  revert pre acc. induction body as [|x body IH]; intros pre acc Hbody Ht.
  - rewrite range_cons by (rewrite len_app; unfold py.len; simpl; lia).
    cbn [vbencoder.decode_number_loop app].
    rewrite getitem_middle, bind_Ok.
    destruct (t >? 127) eqn:E; [|lia].
    change (py.len []) with 0. rewrite Z.add_0_r. reflexivity.
  - apply Forall_cons_1 in Hbody as [Hx Hbody].
    rewrite range_cons by (rewrite !len_app; unfold py.len; simpl; lia).
    cbn [vbencoder.decode_number_loop].
    change ((x :: body) ++ t :: rest) with (x :: (body ++ t :: rest)).
    rewrite getitem_middle, bind_Ok.
    destruct (x >? 127) eqn:E; [lia|].
    specialize (IH (pre ++ [x]) (Z.shiftl acc 7 + x) Hbody Ht).
    rewrite <- !app_assoc in IH. simpl app in IH.
    replace (py.len (pre ++ [x])) with (py.len pre + 1) in IH
      by (rewrite len_app; unfold py.len; simpl; lia).
    rewrite IH. unfold py.len. simpl length. do 3 f_equal. lia.
Qed.

(** X12: Variable Byte round trip.  For every [n >= 0], [encode] returns
    [log2(n) / 7 + 1] bytes (one byte for 0), all but the last below 128
    and the last at least 128; [decode] of these bytes followed by any
    other bytes returns [n] followed by what the other bytes decode to; and
    [decode_number], started at any bit offset inside the first of these
    bytes, wherever they stand in a byte list, returns [n] and the bit
    offset of the byte that follows them. *)
Theorem vb_roundtrip (n : Z) (pre rest : list Z) (off : Z) :
  0 <= n ->
  exists body t,
    vbencoder.encode n = Ok (body ++ [t]) /\
    Forall (fun x => 0 <= x < 128) body /\ 128 <= t < 256 /\
    py.len (body ++ [t]) = Z.log2 n / 7 + 1 /\
    vbencoder.decode ((body ++ [t]) ++ rest) = n :: vbencoder.decode rest /\
    (Z.shiftr off 3 = py.len pre ->
     vbencoder.decode_number (pre ++ (body ++ [t]) ++ rest) off
       = Ok (n, 8 * (py.len pre + py.len (body ++ [t])))).
Proof.
  intros Hn.
  destruct (vb_encode_loop_spec (S (Z.to_nat (Z.log2 n))) n []) as
    (body & Hrun & Hbody & Hval & Hlen); [lia| |].
  { split; [done|]. destruct (Z.eq_dec n 0) as [-> | Hnz]; [done|].
    pose proof (Z.log2_nonneg n).
    assert (n < 2 ^ (Z.log2 n + 1)).
    { replace (Z.log2 n + 1) with (Z.succ (Z.log2 n)) by lia.
      apply Z.log2_spec. lia. }
    assert (2 ^ (Z.log2 n + 1) <= 2 ^ (7 * Z.of_nat (S (Z.to_nat (Z.log2 n))))).
    { apply Z.pow_le_mono_r; lia. }
    lia. }
  assert (0 <= Z.land n 127 < 128) as Hd.
  { change 127 with (Z.ones 7). rewrite Z.land_ones by lia.
    apply Z.mod_pos_bound. lia. }
  exists body, (Z.land n 127 + 128).
  split.
  { unfold vbencoder.encode. rewrite Hrun, bind_Ok.
    rewrite app_nil_r, getitem_last, bind_Ok. apply setitem_last. }
  split; [exact Hbody|]. split; [lia|].
  split.
  { rewrite len_app, Hlen. reflexivity. }
  rewrite vb_value_snoc in Hval.
  split.
  - rewrite !vb_decode_fold, !foldl_app.
    rewrite vb_step_digits by done. simpl.
    destruct (Z.land n 127 + 128 >? 127) eqn:E; [|lia].
    replace (Z.shiftl (vb_value 0 body) 7 + (Z.land n 127 + 128) - 128)
      with n by lia.
    change [n] with ([n] ++ []). rewrite (vb_step_prefix rest [n] [] 0). reflexivity.
  - intros Hoff. unfold vbencoder.decode_number. rewrite Hoff.
    rewrite <- !app_assoc. simpl app.
    rewrite vb_decode_number_loop by (done || lia).
    rewrite bind_Ok. f_equal. f_equal; [lia|].
    rewrite len_app. unfold py.len. simpl length. lia.
Qed.

Lemma vb_roundtrip_witness :
  exists body t,
    vbencoder.encode 300 = Ok (body ++ [t]) /\
    Forall (fun x => 0 <= x < 128) body /\ 128 <= t < 256 /\
    py.len (body ++ [t]) = Z.log2 300 / 7 + 1 /\
    vbencoder.decode ((body ++ [t]) ++ [133]) = 300 :: vbencoder.decode [133] /\
    (Z.shiftr 13 3 = py.len [7] ->
     vbencoder.decode_number ([7] ++ (body ++ [t]) ++ [133]) 13
       = Ok (300, 8 * (py.len [7] + py.len (body ++ [t])))).
Proof.
  apply (vb_roundtrip 300 [7] [133] 13). lia.
Defined.

(** ** unaryencoder: round trip *)

(** The byte that starts with [r] ones followed by zeros. *)
Definition unary_tail (r : Z) : Z := Z.land (Z.shiftl 255 (8 - r)) 255.

Lemma small_cases (r : Z) :
  0 <= r < 8 ->
  r = 0 \/ r = 1 \/ r = 2 \/ r = 3 \/ r = 4 \/ r = 5 \/ r = 6 \/ r = 7.
Proof. lia. Qed.

Ltac by_small_cases H :=
  apply small_cases in H;
  repeat (destruct H as [-> | H]; [reflexivity|]); subst; reflexivity.

(** The optimized [encode] of [n > 0] returns the bytes of the plain
    [encode] of [n - 1]. *)
Lemma unary_encode_optimized (n : Z) :
  0 < n ->
  exists padding,
    unaryencoder.encode n true =
      Ok (replicate (Z.to_nat ((n + 7) / 8 - 1)) 255
            ++ [unary_tail ((n - 1) `mod` 8)], padding).
Proof.
  intros Hpos. unfold unaryencoder.encode, py.ceil_div.
  replace (n + 1 + 8 - 1) with (n + 8) by lia.
  assert (0 < (n + 8) / 8) as Hk by (Z.div_mod_to_equations; lia).
  assert (0 <= n `mod` 8 < 8) as Hm by (apply Z.mod_pos_bound; lia).
  destruct (8 - n `mod` 8 - 1 =? 8) eqn:E1; [lia|].
  destruct ((n + 8) / 8 <? 0) eqn:E2; [lia|].
  rewrite replicate_snoc by done.
  rewrite getitem_last. simpl. rewrite setitem_last. simpl.
  destruct (n =? 0) eqn:E3; [lia|].
  destruct (8 - n `mod` 8 - 1 =? 7) eqn:E4.
  - rewrite pop_last_snoc. simpl.
    assert (0 < (n + 8) / 8 - 1) as Hk2 by (Z.div_mod_to_equations; lia).
    rewrite replicate_snoc by done.
    rewrite getitem_last. simpl. rewrite setitem_last. simpl.
    eexists. f_equal. f_equal.
    assert (n `mod` 8 = 0) as H0 by lia.
    assert ((n - 1) `mod` 8 = 7) as -> by (Z.div_mod_to_equations; lia).
    replace ((n + 8) / 8 - 1 - 1) with ((n + 7) / 8 - 1)
      by (Z.div_mod_to_equations; lia).
    reflexivity.
  - simpl. rewrite getitem_last. simpl. rewrite setitem_last. simpl.
    eexists. f_equal. f_equal.
    assert (1 <= n `mod` 8) as H1 by lia.
    assert ((n - 1) `mod` 8 = n `mod` 8 - 1) as -> by (Z.div_mod_to_equations; lia).
    replace ((n + 8) / 8 - 1) with ((n + 7) / 8 - 1)
      by (Z.div_mod_to_equations; lia).
    f_equal. f_equal. unfold unary_tail.
    replace (8 - n `mod` 8 - 1 + 1) with (8 - n `mod` 8) by lia.
    assert (1 <= n `mod` 8 < 8) as Hr by lia. revert Hr.
    generalize (n `mod` 8). intros r Hr.
    assert (r = 1 \/ r = 2 \/ r = 3 \/ r = 4 \/ r = 5 \/ r = 6 \/ r = 7)
      as Hc by lia.
    repeat (destruct Hc as [-> | Hc]; [reflexivity|]). subst. reflexivity.
Qed.

(** [number] is an accumulator of the count of leading ones. *)
Lemma count_leading_ones_acc (fuel : nat) (readed number bit_index : Z) :
  unaryencoder.count_leading_ones fuel readed number bit_index =
    ('(c, b) ← unaryencoder.count_leading_ones fuel readed 0 bit_index;
     Ok (number + c, b)).
Proof.
  revert number bit_index. induction fuel as [|fuel IH]; intros number bit_index.
  - reflexivity.
  - cbn [unaryencoder.count_leading_ones].
    destruct (unaryencoder.READ_MSB_MASKS bit_index) as [mask|e];
      [|reflexivity].
    rewrite !bind_Ok.
    destruct (Z.land readed mask =? 0).
    + rewrite bind_Ok. by rewrite Z.add_0_r.
    + rewrite (IH (number + 1)), (IH (0 + 1)).
      destruct (unaryencoder.count_leading_ones fuel readed 0 (bit_index + 1))
        as [[c b]|e]; [|reflexivity].
      rewrite !bind_Ok. f_equal. f_equal. lia.
Qed.

Lemma count_leading_ones_tail (r number : Z) :
  0 <= r < 8 ->
  unaryencoder.count_leading_ones 9 (unary_tail r) number 0 = Ok (number + r, r).
Proof.
  intros Hr. rewrite count_leading_ones_acc.
  assert (unaryencoder.count_leading_ones 9 (unary_tail r) 0 0 = Ok (r, r)) as ->
    by by_small_cases Hr.
  reflexivity.
Qed.

Lemma unary_tail_range (r : Z) :
  0 <= r < 8 -> 0 <= unary_tail r < 255.
Proof.
  intros Hr. apply small_cases in Hr.
  repeat (destruct Hr as [-> | Hr]; [by vm_compute|]). subst. by vm_compute.
Qed.

Lemma getitem_full (k : nat) (last : Z) (rest : list Z) (j : Z) :
  0 <= j < Z.of_nat k ->
  py.getitem (replicate k 255 ++ last :: rest) j = Ok 255.
Proof.
  intros Hj. apply getitem_nonneg; [lia|].
  rewrite lookup_app_l by (rewrite length_replicate; lia).
  apply lookup_replicate_2. lia.
Qed.

Lemma getitem_after_full (k : nat) (last : Z) (rest : list Z) :
  py.getitem (replicate k 255 ++ last :: rest) (Z.of_nat k) = Ok last.
Proof.
  replace (Z.of_nat k) with (py.len (replicate k 255)) by apply len_replicate.
  apply getitem_middle.
Qed.

(** The run of full bytes is skipped up to the byte that holds a zero. *)
Lemma skip_full_bytes_run (k : nat) (last : Z) (rest : list Z) (m : nat) :
  last <> 255 ->
  forall (fuel : nat) (number j : Z),
    (m < fuel)%nat -> 0 <= j -> j + Z.of_nat m = Z.of_nat k ->
    unaryencoder.skip_full_bytes fuel (replicate k 255 ++ last :: rest) number j
      = Ok (number + 8 * Z.of_nat m, Z.of_nat k).
Proof.
  intros Hlast. induction m as [|m IH]; intros fuel number j Hfuel Hj Hsum;
    (destruct fuel as [|fuel]; [lia|]); cbn [unaryencoder.skip_full_bytes].
  - replace j with (Z.of_nat k) by lia.
    rewrite getitem_after_full, bind_Ok.
    destruct (last =? 255) eqn:E; [lia|]. f_equal. f_equal. lia.
  - rewrite getitem_full, bind_Ok by lia.
    change (255 =? 255) with true. cbv iota.
    rewrite IH by lia. f_equal. f_equal. lia.
Qed.

(** [decode] of one number from the start of a byte list that is [k]
    full bytes and then a byte of [r] leading ones. *)
Lemma unary_decode_one (k : nat) (r : Z) (rest : list Z) (is_optimized : bool) :
  0 <= r < 8 ->
  unaryencoder.decode (replicate k 255 ++ unary_tail r :: rest) 1 is_optimized 0
    = Ok [py.int_of_bool is_optimized + 8 * Z.of_nat k + r].
Proof.
  intros Hr. pose proof (unary_tail_range r Hr) as Hlast.
  unfold unaryencoder.decode.
  change (py.range 0 1) with [0]. rewrite for_each_cons.
  change (Z.shiftr 0 3) with 0. change (Z.land 0 7) with 0.
  unfold unaryencoder.decode_step.
  change (unaryencoder.READ_SINCE_MASKS 0) with (Ok 255 : result Z).
  rewrite bind_Ok.
  destruct k as [|k].
  - change (replicate 0 255 ++ unary_tail r :: rest) with (unary_tail r :: rest).
    change (py.getitem (unary_tail r :: rest) 0) with (Ok (unary_tail r) : result Z).
    rewrite bind_Ok.
    assert (Z.land (unary_tail r) 255 = unary_tail r) as ->.
    { change 255 with (Z.ones 8). rewrite Z.land_ones by lia.
      apply Z.mod_small. change (Z.ones 8) with 255 in *. lia. }
    destruct (unary_tail r =? 255) eqn:E; [lia|].
    rewrite bind_Ok. cbv beta iota.
    rewrite count_leading_ones_tail by done.
    rewrite !bind_Ok. cbv beta iota. rewrite for_each_nil, bind_Ok.
    cbv beta iota. f_equal. simpl. f_equal. lia.
  - rewrite (getitem_full (S k)) by lia. rewrite bind_Ok.
    change (Z.land 255 255 =? 255) with true. cbv iota.
    change (0 + 1) with 1.
    rewrite (skip_full_bytes_run (S k) _ rest k);
      [|lia|rewrite length_app, length_replicate; simpl; lia|lia|lia].
    rewrite bind_Ok. cbv beta iota.
    rewrite getitem_after_full, !bind_Ok. cbv beta iota.
    rewrite count_leading_ones_tail by done.
    rewrite !bind_Ok. cbv beta iota. rewrite for_each_nil, bind_Ok.
    cbv beta iota. f_equal. simpl app. f_equal. lia.
Qed.

(** X13: unary round trip.  For every [n >= 0], [decode] of one number
    from the bytes the plain [encode] returns, followed by any other bytes,
    returns [n]; for every [n > 0], so does the optimized [decode] from the
    bytes the optimized [encode] returns.  The optimized [encode] of 0
    raises. *)
Theorem unary_roundtrip (n : Z) (rest : list Z) :
  0 <= n ->
  (exists bytes padding,
     unaryencoder.encode n false = Ok (bytes, padding) /\
     unaryencoder.decode (bytes ++ rest) 1 false 0 = Ok [n]) /\
  (0 < n ->
   exists bytes padding,
     unaryencoder.encode n true = Ok (bytes, padding) /\
     unaryencoder.decode (bytes ++ rest) 1 true 0 = Ok [n]) /\
  unaryencoder.encode 0 true = Raise InvalidInput.
Proof.
  intros Hn. split; [|split].
  - do 2 eexists. split; [by apply unary_encode_plain|].
    rewrite <- app_assoc. simpl app.
    fold (unary_tail (n `mod` 8)).
    rewrite unary_decode_one by (apply Z.mod_pos_bound; lia).
    f_equal. f_equal. simpl py.int_of_bool.
    assert (0 < (n + 8) / 8) by (Z.div_mod_to_equations; lia).
    rewrite Z2Nat.id by lia. Z.div_mod_to_equations. lia.
  - intros Hpos. destruct (unary_encode_optimized n Hpos) as [padding Henc].
    do 2 eexists. split; [exact Henc|].
    rewrite <- app_assoc. simpl app.
    rewrite unary_decode_one by (apply Z.mod_pos_bound; lia).
    f_equal. f_equal. simpl py.int_of_bool.
    assert (0 < (n + 7) / 8) by (Z.div_mod_to_equations; lia).
    rewrite Z2Nat.id by lia. Z.div_mod_to_equations. lia.
  - reflexivity.
Qed.

Lemma unary_roundtrip_witness :
  (exists bytes padding,
     unaryencoder.encode 19 false = Ok (bytes, padding) /\
     unaryencoder.decode (bytes ++ [170]) 1 false 0 = Ok [19]) /\
  (0 < 19 ->
   exists bytes padding,
     unaryencoder.encode 19 true = Ok (bytes, padding) /\
     unaryencoder.decode (bytes ++ [170]) 1 true 0 = Ok [19]) /\
  unaryencoder.encode 0 true = Raise InvalidInput.
Proof.
  apply (unary_roundtrip 19 [170]). lia.
Defined.

(** ** BitByteArray: appending bit strings *)

(** The object holds [n] bits: its stream has the bytes these bits need,
    the bit pointer is [n mod 8], and the bits after them are clear. *)
Definition holds (self : BitByteArray.t) (n : Z) : Prop :=
  0 <= n /\ words_ok 8 (BitByteArray.stream self) /\
  py.len (BitByteArray.stream self) = (n + 7) / 8 /\
  BitByteArray.bit_pointer self = n `mod` 8 /\
  forall p, n <= p -> bit 8 (BitByteArray.stream self) p = false.

Lemma word_nil (i : Z) : word [] i = 0.
Proof. reflexivity. Qed.

Lemma word_cons (x : Z) (l : list Z) (i : Z) :
  0 <= i -> word (x :: l) i = if i =? 0 then x else word l (i - 1).
Proof.
  intros Hi. unfold word. destruct (i =? 0) eqn:E.
  - by replace i with 0 by lia.
  - replace (Z.to_nat i) with (S (Z.to_nat (i - 1))) by lia. reflexivity.
Qed.

Lemma word_app (l1 l2 : list Z) (i : Z) :
  0 <= i ->
  word (l1 ++ l2) i = if i <? py.len l1 then word l1 i else word l2 (i - py.len l1).
Proof.
  intros Hi. unfold word, py.len. destruct (i <? Z.of_nat (length l1)) eqn:E.
  - by rewrite lookup_app_l by lia.
  - rewrite lookup_app_r by lia. do 2 f_equal. lia.
Qed.

Lemma word_beyond (l : list Z) (i : Z) : py.len l <= i -> word l i = 0.
Proof.
  intros Hi. unfold word, py.len in *.
  by rewrite lookup_ge_None_2 by lia.
Qed.

Lemma to_byte_small (e : Z) : 0 <= e < 256 -> bitbyteutils.to_byte e = [e].
Proof.
  intros He. unfold bitbyteutils.to_byte, bitbyteutils.to_bytes.
  change (reverse (py.range 0 1)) with [0]. simpl fmap.
  change (Z.shiftl 0 3) with 0. rewrite Z.shiftr_0_r.
  change 255 with (Z.ones 8). rewrite Z.land_ones by lia.
  by rewrite Z.mod_small by lia.
Qed.

Lemma validate_padding_ok (pad : Z) : bitbyteutils.validate_padding pad = Ok tt.
Proof.
  unfold bitbyteutils.validate_padding. destruct (_ || _) eqn:E; [done|lia].
Qed.

Lemma recompute_bit_pointer_spec (s : list Z) (bp pad : Z) :
  0 <= pad < 8 -> 0 <= bp < 8 ->
  BitByteArray.recompute_bit_pointer (BitByteArray.Build s bp) pad
    = Ok (BitByteArray.Build s ((bp + 8 - pad) `mod` 8)).
Proof.
  intros Hpad Hbp. unfold BitByteArray.recompute_bit_pointer.
  rewrite validate_padding_ok, bind_Ok.
  destruct (pad =? 0) eqn:E.
  - f_equal. f_equal. assert (pad = 0) as -> by lia.
    rewrite Z.sub_0_r. Z.div_mod_to_equations. lia.
  - simpl. f_equal. f_equal.
    change 7 with (Z.ones 3). rewrite Z.land_ones by lia.
    f_equal. lia.
Qed.

Lemma word_snoc (l : list Z) (x i : Z) :
  0 <= i ->
  word (l ++ [x]) i =
    if i <? py.len l then word l i else if i =? py.len l then x else 0.
Proof.
  intros Hi. rewrite word_app by done.
  destruct (i <? py.len l) eqn:E; [done|].
  rewrite word_cons by lia.
  destruct (i =? py.len l) eqn:E2.
  - destruct (i - py.len l =? 0) eqn:E3; [done|lia].
  - destruct (i - py.len l =? 0) eqn:E3; [lia|]. apply word_nil.
Qed.

Lemma low_bits_clear (e pad j : Z) :
  0 <= pad -> e `mod` 2 ^ pad = 0 -> j < pad -> Z.testbit e j = false.
Proof.
  intros Hpad Hlow Hj.
  destruct (Z.lt_ge_cases j 0); [by apply Z.testbit_neg_r|].
  rewrite <- (Z.mod_pow2_bits_low e pad j) by lia.
  rewrite Hlow. apply Z.bits_0.
Qed.

(** Bit [d] of the one-byte string [[e]]. *)
Lemma bit_single (e d : Z) :
  0 <= d -> bit 8 [e] d = if d <? 8 then Z.testbit e (7 - d) else false.
Proof.
  intros Hd. unfold bit. rewrite word_cons by (apply Z.div_pos; lia).
  destruct (d <? 8) eqn:E.
  - rewrite Z.div_small, Z.mod_small by lia. reflexivity.
  - destruct (d / 8 =? 0) eqn:E2; [Z.div_mod_to_equations; lia|].
    rewrite word_nil. apply Z.bits_0.
Qed.

(** What [holds] asks of the object after an append, from the bits of its
    stream. *)
Lemma holds_after (s s' : list Z) (n e pad bp' : Z) :
  0 <= n -> 0 <= pad < 8 -> e `mod` 2 ^ pad = 0 ->
  words_ok 8 s' -> py.len s' = (n + 8 - pad + 7) / 8 ->
  bp' = (n + 8 - pad) `mod` 8 ->
  (forall p, 0 <= p ->
     bit 8 s' p = if p <? n then bit 8 s p else bit 8 [e] (p - n)) ->
  holds (BitByteArray.Build s' bp') (n + 8 - pad).
Proof.
  intros Hn Hpad Hlow Hok Hlen Hbp Hbits.
  unfold holds. simpl. repeat split; try done; try lia.
  intros p Hp. rewrite Hbits by lia.
  destruct (p <? n) eqn:E; [lia|].
  rewrite bit_single by lia.
  destruct (p - n <? 8) eqn:E2; [|done].
  apply (low_bits_clear e pad); lia.
Qed.

(** [append] of a byte whose [pad] low bits are clear: the object then
    holds the old bits followed by the [8 - pad] high bits of the byte. *)
Lemma append_spec (self : BitByteArray.t) (n e pad : Z) :
  holds self n -> 0 <= e < 256 -> 0 <= pad < 8 -> e `mod` 2 ^ pad = 0 ->
  exists self',
    BitByteArray.append self e pad = Ok self' /\
    holds self' (n + 8 - pad) /\
    forall p, 0 <= p ->
      bit 8 (BitByteArray.stream self') p =
        if p <? n then bit 8 (BitByteArray.stream self) p
        else bit 8 [e] (p - n).
Proof.
  destruct self as [s bp].
  intros (Hn & Hok & Hlen & Hbp & Hclear) He Hpad Hlow.
  simpl in Hok, Hlen, Hbp, Hclear. subst bp.
  unfold BitByteArray.append. rewrite validate_padding_ok, bind_Ok.
  cbn [BitByteArray.bit_pointer BitByteArray.stream].
  assert (exists q o, n = 8 * q + o /\ 0 <= o < 8 /\ 0 <= q) as (q & o & Hnq & Ho & Hq).
  { exists (n / 8), (n `mod` 8). Z.div_mod_to_equations. lia. }
  assert (n `mod` 8 = o) as Hmod by (Z.div_mod_to_equations; lia).
  rewrite Hmod.
  destruct (o =? 0) eqn:E0.
  - assert (o = 0) as -> by lia.
    assert (py.len s = q) as Hlens by (rewrite Hlen; Z.div_mod_to_equations; lia).
    rewrite to_byte_small, recompute_bit_pointer_spec by lia.
    eexists. split; [reflexivity|].
    assert (forall p, 0 <= p ->
              bit 8 (s ++ [e]) p = if p <? n then bit 8 s p else bit 8 [e] (p - n))
      as Hbits.
    { intros p Hp. unfold bit.
      assert (0 <= p / 8) by (apply Z.div_pos; lia).
      rewrite word_snoc by done. rewrite Hlens.
      destruct (p <? n) eqn:E1.
      - destruct (p / 8 <? q) eqn:E2; [done|Z.div_mod_to_equations; lia].
      - destruct (p / 8 <? q) eqn:E2; [Z.div_mod_to_equations; lia|].
        assert (0 <= (p - n) / 8) by (apply Z.div_pos; lia).
        rewrite word_cons by done.
        replace ((p - n) `mod` 8) with (p `mod` 8)
          by (Z.div_mod_to_equations; lia).
        destruct (p / 8 =? q) eqn:E3.
        + destruct ((p - n) / 8 =? 0) eqn:E4; [done|Z.div_mod_to_equations; lia].
        + destruct ((p - n) / 8 =? 0) eqn:E4; [Z.div_mod_to_equations; lia|].
          by rewrite word_nil, !Z.bits_0. }
    split; [|exact Hbits].
    apply (holds_after s _ n e pad); try done.
    + apply Forall_app. split; [done|]. constructor; [|constructor].
      change (2 ^ 8) with 256. lia.
    + rewrite len_app, Hlens. change (py.len [e]) with 1.
      Z.div_mod_to_equations. lia.
    + Z.div_mod_to_equations. lia.
  - rewrite rshift_nonneg, bind_Ok by lia.
    destruct (snoc_cases s) as [-> | (init & last & ->)].
    { change (py.len []) with 0 in Hlen. Z.div_mod_to_equations. lia. }
    rewrite getitem_last, bind_Ok.
    assert (py.len init = q) as Hlens.
    { rewrite len_app in Hlen. change (py.len [last]) with 1 in Hlen.
      Z.div_mod_to_equations. lia. }
    apply Forall_app in Hok as [Hok_init Hok_last].
    apply Forall_cons_1 in Hok_last as [Hlast _].
    assert (forall j, 0 <= j < 8 - o -> Z.testbit last j = false) as Hlast_clear.
    { intros j Hj. specialize (Hclear (8 * q + 7 - j) ltac:(lia)).
      unfold bit in Hclear.
      replace ((8 * q + 7 - j) / 8) with q in Hclear
        by (Z.div_mod_to_equations; lia).
      replace ((8 * q + 7 - j) `mod` 8) with (7 - j) in Hclear
        by (Z.div_mod_to_equations; lia).
      rewrite word_snoc, Hlens in Hclear by lia.
      destruct (q <? q) eqn:E1; [lia|]. destruct (q =? q) eqn:E2; [|lia].
      replace (8 - 1 - (7 - j)) with j in Hclear by lia. exact Hclear. }
    assert (0 <= Z.shiftr e o < 2 ^ (8 - o)) as Hhigh.
    { rewrite Z.shiftr_div_pow2 by lia.
      assert (0 < 2 ^ o) by (apply Z.pow_pos_nonneg; lia).
      split; [apply Z.div_pos; lia|].
      apply Z.div_lt_upper_bound; [lia|].
      rewrite <- Z.pow_add_r by lia. replace (o + (8 - o)) with 8 by lia.
      change (2 ^ 8) with 256. lia. }
    destruct (word_write 8 last (Z.shiftr e o) 0 (8 - o)) as [Hv Hvbits];
      try done; try lia.
    rewrite Z.shiftl_0_r in Hv, Hvbits.
    set (v := last + Z.shiftr e o) in *.
    unfold py.bytearray_setitem.
    change (2 ^ 8) with 256 in Hv.
    destruct ((v <? 0) || (255 <? v)) eqn:Ev; [lia|].
    rewrite setitem_last, bind_Ok.
    unfold bitbyteutils.to_left. rewrite lshift_nonneg, !bind_Ok by lia.
    set (carried := Z.land (Z.shiftl e (8 - o)) 255).
    assert (0 <= carried < 256) as Hcarried.
    { unfold carried. change 255 with (Z.ones 8). rewrite Z.land_ones by lia.
      apply Z.mod_pos_bound. lia. }
    assert (forall j, 0 <= j < 8 ->
              Z.testbit carried j = Z.testbit e (j - (8 - o))) as Hcbits.
    { intros j Hj. unfold carried. change 255 with (Z.ones 8).
      rewrite Z.land_ones by lia. rewrite Z.mod_pow2_bits_low by lia.
      apply Z.shiftl_spec. lia. }
    set (s2 := if BitByteArray.has_to_write_carried pad o
               then (init ++ [v]) ++ bitbyteutils.to_byte carried
               else init ++ [v]).
    assert (words_ok 8 s2 /\
            py.len s2 = (n + 8 - pad + 7) / 8 /\
            forall i, 0 <= i ->
              word s2 i = if i <? q then word init i
                          else if i =? q then v
                          else if i =? q + 1 then carried else 0)
      as (Hok2 & Hlen2 & Hword2).
    { unfold s2, BitByteArray.has_to_write_carried.
      destruct (o - pad >? 0) eqn:Ec.
      - rewrite to_byte_small by done. split; [|split].
        + apply Forall_app. split; [apply Forall_app; split; [done|]|];
            (constructor; [change (2 ^ 8) with 256; lia|constructor]).
        + rewrite !len_app, Hlens. change (py.len [_]) with 1.
          change (py.len [v]) with 1. Z.div_mod_to_equations. lia.
        + intros i Hi. rewrite word_snoc by done.
          rewrite len_app, Hlens. change (py.len [v]) with 1.
          rewrite word_snoc, Hlens by done.
          destruct (i <? q) eqn:E1; destruct (i =? q) eqn:E2;
            destruct (i <? q + 1) eqn:E3; destruct (i =? q + 1) eqn:E4;
            try lia; reflexivity.
      - assert (carried = 0) as Hzero.
        { apply Z.bits_inj'. intros j Hj. rewrite Z.bits_0.
          destruct (Z.lt_ge_cases j 8).
          - rewrite Hcbits by lia. apply (low_bits_clear e pad); lia.
          - apply (testbit_above carried 8); [change (2 ^ 8) with 256|]; lia. }
        split; [|split].
        + apply Forall_app. split; [done|].
          constructor; [change (2 ^ 8) with 256; lia|constructor].
        + rewrite len_app, Hlens. change (py.len [v]) with 1.
          Z.div_mod_to_equations. lia.
        + intros i Hi. rewrite word_snoc, Hlens by done. rewrite Hzero.
          destruct (i <? q) eqn:E1; destruct (i =? q) eqn:E2;
            destruct (i =? q + 1) eqn:E4; try lia; reflexivity. }
    clearbody s2.
    rewrite recompute_bit_pointer_spec by lia.
    eexists. split; [reflexivity|].
    cbn [BitByteArray.stream].
    assert (forall p, 0 <= p ->
              bit 8 s2 p =
                if p <? n then bit 8 (init ++ [last]) p else bit 8 [e] (p - n))
      as Hbits.
    { intros p Hp.
      assert (exists i r, p = 8 * i + r /\ 0 <= r < 8 /\ 0 <= i) as (i & r & -> & Hr & Hi).
      { exists (p / 8), (p `mod` 8). Z.div_mod_to_equations. lia. }
      unfold bit at 1 2.
      replace ((8 * i + r) / 8) with i by (Z.div_mod_to_equations; lia).
      replace ((8 * i + r) `mod` 8) with r by (Z.div_mod_to_equations; lia).
      rewrite Hword2 by done. rewrite word_snoc, Hlens by done.
      destruct (8 * i + r <? n) eqn:E1.
      - destruct (i <? q) eqn:E2; [done|].
        destruct (i =? q) eqn:E3; [|lia].
        rewrite Hvbits by lia.
        destruct ((0 <=? 8 - 1 - r) && (8 - 1 - r <? 0 + (8 - o))) eqn:E4; [lia|done].
      - rewrite bit_single by lia.
        destruct (i <? q) eqn:E2; [lia|].
        destruct (i =? q) eqn:E3.
        + rewrite Hvbits by lia.
          destruct ((0 <=? 8 - 1 - r) && (8 - 1 - r <? 0 + (8 - o))) eqn:E4; [|lia].
          destruct (8 * i + r - n <? 8) eqn:E5; [|lia].
          rewrite Z.shiftr_spec by lia. f_equal. lia.
        + destruct (i =? q + 1) eqn:E4.
          * rewrite Hcbits by lia.
            destruct (8 * i + r - n <? 8) eqn:E5.
            -- f_equal. lia.
            -- apply Z.testbit_neg_r. lia.
          * rewrite Z.bits_0.
            destruct (8 * i + r - n <? 8) eqn:E5; [lia|done]. }
    split; [|exact Hbits].
    apply (holds_after (init ++ [last]) s2 n e pad); try done.
    Z.div_mod_to_equations. lia.
Qed.

(** The bits of two byte strings put end to end. *)
Lemma bit_app (l1 l2 : list Z) (d : Z) :
  0 <= d ->
  bit 8 (l1 ++ l2) d =
    if d <? 8 * py.len l1 then bit 8 l1 d else bit 8 l2 (d - 8 * py.len l1).
Proof.
  intros Hd. unfold bit.
  assert (0 <= d / 8) by (apply Z.div_pos; lia).
  pose proof (len_nonneg l1).
  rewrite word_app by done.
  destruct (d <? 8 * py.len l1) eqn:E1.
  - destruct (d / 8 <? py.len l1) eqn:E2; [done|Z.div_mod_to_equations; lia].
  - destruct (d / 8 <? py.len l1) eqn:E2; [Z.div_mod_to_equations; lia|].
    replace ((d - 8 * py.len l1) / 8) with (d / 8 - py.len l1)
      by (Z.div_mod_to_equations; lia).
    replace ((d - 8 * py.len l1) `mod` 8) with (d `mod` 8)
      by (Z.div_mod_to_equations; lia).
    reflexivity.
Qed.

Lemma holds_new : holds BitByteArray.new 0.
Proof.
  unfold holds, BitByteArray.new. simpl.
  split; [lia|]. split; [constructor|]. split; [reflexivity|]. split; [reflexivity|].
  intros p _. unfold bit. rewrite word_nil. apply Z.bits_0.
Qed.

(** [padding()] is the count of unused bits of the last byte. *)
Lemma padding_spec (self : BitByteArray.t) (m : Z) :
  holds self m -> BitByteArray.padding self = (- m) `mod` 8.
Proof.
  intros (_ & _ & _ & Hbp & _). unfold BitByteArray.padding. rewrite Hbp.
  destruct (8 - m `mod` 8 =? 8) eqn:E; Z.div_mod_to_equations; lia.
Qed.

(** [extend] with a non-empty list of bytes and a padding that counts
    clear low bits of the last byte. *)
Lemma extend_spec (self : BitByteArray.t) (n : Z)
    (init : list Z) (last pad : Z) :
  holds self n -> Forall (fun e => 0 <= e < 256) (init ++ [last]) ->
  0 <= pad < 8 -> last `mod` 2 ^ pad = 0 ->
  exists self',
    BitByteArray.extend self (init ++ [last]) pad = Ok self' /\
    holds self' (n + 8 * py.len (init ++ [last]) - pad) /\
    forall p, 0 <= p ->
      bit 8 (BitByteArray.stream self') p =
        if p <? n then bit 8 (BitByteArray.stream self) p
        else bit 8 (init ++ [last]) (p - n).
Proof.
  intros Hholds Hbytes Hpad Hlow.
  apply Forall_app in Hbytes as [Hinit Hlast].
  apply Forall_cons_1 in Hlast as [Hlast _].
  unfold BitByteArray.extend. rewrite validate_padding_ok, bind_Ok.
  rewrite len_app. change (py.len [last]) with 1.
  rewrite range_snoc by apply len_nonneg.
  rewrite for_each_app.
  set (body := fun (self : BitByteArray.t) (i : Z) =>
                 element ← py.getitem (init ++ [last]) i;
                 BitByteArray.append self element
                   (if i =? py.len init + 1 - 1 then pad else 0)).
  destruct (for_each_range_inv init body
    (fun pre s =>
       holds s (n + 8 * py.len pre) /\
       forall p, 0 <= p ->
         bit 8 (BitByteArray.stream s) p =
           if p <? n then bit 8 (BitByteArray.stream self) p
           else bit 8 pre (p - n))
    self) as (s1 & Hrun & Hs1 & Hbits1).
  { split.
    - change (py.len []) with 0. by rewrite Z.mul_0_r, Z.add_0_r.
    - intros p Hp. destruct (p <? n) eqn:E; [done|].
      destruct Hholds as (_ & _ & _ & _ & Hclear).
      rewrite Hclear by lia. unfold bit. rewrite word_nil. by rewrite Z.bits_0. }
  { intros pre x suf s Heq [Hs Hbits].
    assert (0 <= x < 256) as Hx.
    { rewrite Heq in Hinit. apply Forall_app in Hinit as [_ Hinit].
      by apply Forall_cons_1 in Hinit as [Hx _]. }
    destruct (append_spec s (n + 8 * py.len pre) x 0 Hs Hx) as (s' & Happ & Hs' & Hbits');
      [lia|apply Z.mod_1_r|].
    exists s'. split.
    - unfold body. rewrite Heq, <- app_assoc. simpl app.
      rewrite getitem_middle, bind_Ok.
      rewrite !len_app. unfold py.len at 3. simpl length.
      pose proof (len_nonneg suf). pose proof (len_nonneg pre).
      destruct (py.len pre =? py.len pre + Z.of_nat (S (length suf)) + 1 - 1) eqn:E;
        [lia|exact Happ].
    - split.
      + rewrite len_app. change (py.len [x]) with 1.
        replace (n + 8 * (py.len pre + 1)) with (n + 8 * py.len pre + 8 - 0) by lia.
        exact Hs'.
      + intros p Hp. rewrite Hbits' by done.
        pose proof (len_nonneg pre).
        destruct (p <? n) eqn:E1.
        * destruct (p <? n + 8 * py.len pre) eqn:E2; [|lia].
          rewrite Hbits by done. by rewrite E1.
        * rewrite bit_app by lia.
          destruct (p <? n + 8 * py.len pre) eqn:E2.
          -- rewrite Hbits by done. rewrite E1.
             destruct (p - n <? 8 * py.len pre) eqn:E3; [done|lia].
          -- destruct (p - n <? 8 * py.len pre) eqn:E3; [lia|].
             f_equal. lia. }
  rewrite Hrun, bind_Ok, for_each_cons.
  destruct (append_spec s1 (n + 8 * py.len init) last pad Hs1 Hlast Hpad Hlow)
    as (s2 & Happ & Hs2 & Hbits2).
  assert (body s1 (py.len init) = Ok s2) as ->.
  { unfold body. rewrite getitem_middle, bind_Ok.
    destruct (py.len init =? py.len init + 1 - 1) eqn:E; [exact Happ|lia]. }
  rewrite bind_Ok, for_each_nil.
  exists s2. split; [reflexivity|].
  replace (n + 8 * (py.len init + 1) - pad) with (n + 8 * py.len init + 8 - pad)
    by lia.
  split; [exact Hs2|].
  intros p Hp. rewrite Hbits2 by done.
  pose proof (len_nonneg init).
  destruct (p <? n) eqn:E1.
  - destruct (p <? n + 8 * py.len init) eqn:E2; [|lia].
    rewrite Hbits1 by done. by rewrite E1.
  - rewrite bit_app by lia.
    destruct (p <? n + 8 * py.len init) eqn:E2.
    + rewrite Hbits1 by done. rewrite E1.
      destruct (p - n <? 8 * py.len init) eqn:E3; [done|lia].
    + destruct (p - n <? 8 * py.len init) eqn:E3; [lia|].
      f_equal. lia.
Qed.

(** X14: [extend] puts bit strings end to end.  On an object that holds
    [n] bits, [extend] with a non-empty list of bytes and a padding [pad]
    below 8 that counts clear low bits of the last byte returns an object
    that holds [n + 8 * len(elements) - pad] bits: the bits it held,
    followed by the bits of the elements; its stream has the bytes these
    bits need, its bit pointer is their count modulo 8, the bits after them
    are clear, and [padding()] is the count of unused bits of the last
    byte.  With an empty list [extend] returns the object as it was. *)
Theorem bitbytearray_extend (self : BitByteArray.t) (n : Z)
    (init : list Z) (last pad : Z) :
  holds self n -> Forall (fun e => 0 <= e < 256) (init ++ [last]) ->
  0 <= pad < 8 -> last `mod` 2 ^ pad = 0 ->
  (exists self',
     BitByteArray.extend self (init ++ [last]) pad = Ok self' /\
     holds self' (n + 8 * py.len (init ++ [last]) - pad) /\
     BitByteArray.padding self'
       = (- (n + 8 * py.len (init ++ [last]) - pad)) `mod` 8 /\
     forall p, 0 <= p ->
       bit 8 (BitByteArray.to_bytearray self') p =
         if p <? n then bit 8 (BitByteArray.to_bytearray self) p
         else bit 8 (init ++ [last]) (p - n)) /\
  BitByteArray.extend self [] pad = Ok self.
Proof.
  intros Hholds Hbytes Hpad Hlow. split.
  - destruct (extend_spec self n init last pad Hholds Hbytes Hpad Hlow)
      as (self' & Hrun & Hholds' & Hbits).
    exists self'. split; [exact Hrun|]. split; [exact Hholds'|].
    split; [by apply padding_spec|exact Hbits].
  - unfold BitByteArray.extend. by rewrite validate_padding_ok.
Qed.

Lemma bitbytearray_extend_witness :
  (exists self',
     BitByteArray.extend BitByteArray.new ([0xAB] ++ [0xC0]) 6 = Ok self' /\
     holds self' (0 + 8 * py.len ([0xAB] ++ [0xC0]) - 6) /\
     BitByteArray.padding self'
       = (- (0 + 8 * py.len ([0xAB] ++ [0xC0]) - 6)) `mod` 8 /\
     forall p, 0 <= p ->
       bit 8 (BitByteArray.to_bytearray self') p =
         if p <? 0 then bit 8 (BitByteArray.to_bytearray BitByteArray.new) p
         else bit 8 ([0xAB] ++ [0xC0]) (p - 0)) /\
  BitByteArray.extend BitByteArray.new [] 6 = Ok BitByteArray.new.
Proof.
  apply (bitbytearray_extend BitByteArray.new 0 [0xAB] 0xC0 6).
  - exact holds_new.
  - repeat constructor; lia.
  - lia.
  - reflexivity.
Defined.

(** ** bitbyteutils.to_bytes *)

Lemma to_bytes_len (size v : Z) :
  0 <= size -> py.len (bitbyteutils.to_bytes size v) = size.
Proof.
  intros Hs. unfold py.len, bitbyteutils.to_bytes, py.range.
  rewrite length_fmap, length_reverse, length_seqZ. lia.
Qed.

Lemma to_bytes_ok (size v : Z) : words_ok 8 (bitbyteutils.to_bytes size v).
Proof.
  unfold words_ok, bitbyteutils.to_bytes. apply Forall_fmap, Forall_true.
  intros i. simpl. change 255 with (Z.ones 8). rewrite Z.land_ones by lia.
  apply Z.mod_pos_bound. lia.
Qed.

Lemma to_bytes_word (size v i : Z) :
  0 <= i < size ->
  word (bitbyteutils.to_bytes size v) i
    = Z.land (Z.shiftr v (8 * (size - 1 - i))) 255.
Proof.
  intros Hi. unfold word, bitbyteutils.to_bytes, py.range.
  rewrite list_lookup_fmap, reverse_lookup by (rewrite length_seqZ; lia).
  rewrite length_seqZ, lookup_seqZ_lt by lia. simpl.
  rewrite Z.shiftl_mul_pow2 by lia. do 2 f_equal. lia.
Qed.

Lemma to_bytes_bit (size v p : Z) :
  0 <= p < 8 * size ->
  bit 8 (bitbyteutils.to_bytes size v) p = Z.testbit v (8 * size - 1 - p).
Proof.
  intros Hp. unfold bit.
  rewrite to_bytes_word by (Z.div_mod_to_equations; lia).
  change 255 with (Z.ones 8). rewrite Z.land_ones by lia.
  rewrite Z.mod_pow2_bits_low by (Z.div_mod_to_equations; lia).
  rewrite Z.shiftr_spec by (Z.div_mod_to_equations; lia).
  f_equal. Z.div_mod_to_equations. lia.
Qed.

(** X16: [to_bytes(size, number)] returns [size] bytes that spell the
    [8 * size] low binary digits of the number, most significant first:
    higher digits are dropped, not reported. *)
Theorem to_bytes_big_endian (size number : Z) :
  0 <= size ->
  py.len (bitbyteutils.to_bytes size number) = size /\
  Forall (fun b => 0 <= b < 256) (bitbyteutils.to_bytes size number) /\
  (forall p, 0 <= p < 8 * size ->
     bit 8 (bitbyteutils.to_bytes size number) p
       = Z.testbit number (8 * size - 1 - p)) /\
  bitbyteutils.to_bytes size (number `mod` 2 ^ (8 * size))
    = bitbyteutils.to_bytes size number.
Proof.
  intros Hs. split; [by apply to_bytes_len|].
  split; [exact (to_bytes_ok size number)|].
  split; [intros p Hp; by apply to_bytes_bit|].
  unfold bitbyteutils.to_bytes. apply list_fmap_ext.
  intros k i Hi. unfold py.range in Hi.
  apply reverse_lookup_Some in Hi as [Hi Hlt].
  apply lookup_seqZ in Hi as [-> Hk]. rewrite length_seqZ in Hk, Hlt |- *.
  apply Z.bits_inj'. intros j Hj.
  rewrite !Z.land_spec, !Z.shiftr_spec by lia.
  change 255 with (Z.ones 8).
  destruct (Z.lt_ge_cases j 8).
  - rewrite Z.shiftl_mul_pow2 by lia.
    rewrite Z.mod_pow2_bits_low; [done|]. lia.
  - by rewrite Z.ones_spec_high, !andb_false_r by lia.
Qed.

Lemma to_bytes_big_endian_witness :
  py.len (bitbyteutils.to_bytes 2 0x12345) = 2 /\
  Forall (fun b => 0 <= b < 256) (bitbyteutils.to_bytes 2 0x12345) /\
  (forall p, 0 <= p < 8 * 2 ->
     bit 8 (bitbyteutils.to_bytes 2 0x12345) p
       = Z.testbit 0x12345 (8 * 2 - 1 - p)) /\
  bitbyteutils.to_bytes 2 (0x12345 `mod` 2 ^ (8 * 2))
    = bitbyteutils.to_bytes 2 0x12345.
Proof. apply (to_bytes_big_endian 2 0x12345). lia. Defined.

(** ** eliasfanoencoder: the lower and the upper bit strings *)

(** Invariant rule for a loop over the elements of a list. *)
Lemma for_each_inv {A S} (xs : list A) (body : S -> A -> result S)
    (P : list A -> S -> Prop) (s0 : S) :
  P [] s0 ->
  (forall pre x suf s,
     xs = pre ++ x :: suf -> P pre s ->
     exists s', body s x = Ok s' /\ P (pre ++ [x]) s') ->
  exists s, py.for_each xs body s0 = Ok s /\ P xs s.
Proof.
  intros H0 Hstep.
  assert (forall pre suf, xs = pre ++ suf ->
            exists s, py.for_each pre body s0 = Ok s /\ P pre s) as Hgen.
  { induction pre as [|x pre IH] using rev_ind; intros suf Heq.
    - exists s0. by split.
    - destruct (IH (x :: suf)) as (s & Hs & HP); [by rewrite Heq, <- app_assoc|].
      destruct (Hstep pre x suf s) as (s' & Hs' & HP');
        [by rewrite Heq, <- app_assoc|done|].
      exists s'. split; [|done].
      by rewrite for_each_app, Hs, bind_Ok, for_each_cons, Hs', bind_Ok. }
  destruct (Hgen xs []) as (s & Hs & HP); [by rewrite app_nil_r|]. eauto.
Qed.

(** From bit [start] on, [arr] holds the numbers [xs], [l] bits each. *)
Fixpoint fields_at (arr : list Z) (start l : Z) (xs : list Z) : Prop :=
  match xs with
  | [] => True
  | x :: xs' =>
      (forall j, 0 <= j < l -> bit 8 arr (start + j) = Z.testbit x (l - 1 - j)) /\
      fields_at arr (start + l) l xs'
  end.

(** From bit [start] on, [arr] holds the unary codes of [gaps]: [g] ones
    and a zero for each. *)
Fixpoint unary_at (arr : list Z) (start : Z) (gaps : list Z) : Prop :=
  match gaps with
  | [] => True
  | g :: gs =>
      (forall k, 0 <= k < g -> bit 8 arr (start + k) = true) /\
      bit 8 arr (start + g) = false /\
      unary_at arr (start + g + 1) gs
  end.

(** The bits the unary codes of [gaps] take. *)
Fixpoint unary_bits (gaps : list Z) : Z :=
  match gaps with
  | [] => 0
  | g :: gs => g + 1 + unary_bits gs
  end.

Lemma unary_bits_app (g1 g2 : list Z) :
  unary_bits (g1 ++ g2) = unary_bits g1 + unary_bits g2.
Proof. induction g1 as [|g g1 IH]; simpl; [done|]. rewrite IH. lia. Qed.

Lemma unary_bits_nonneg (gaps : list Z) :
  Forall (fun g => 0 <= g) gaps -> 0 <= unary_bits gaps.
Proof.
  induction 1 as [|g gs Hg _ IH]; simpl; lia.
Qed.

Lemma fields_at_app (arr : list Z) (start l : Z) (xs ys : list Z) :
  fields_at arr start l (xs ++ ys) <->
  fields_at arr start l xs /\ fields_at arr (start + l * py.len xs) l ys.
Proof.
  revert start. induction xs as [|x xs IH]; intros start.
  - simpl. change (py.len []) with 0. rewrite Z.mul_0_r, Z.add_0_r. tauto.
  - simpl. rewrite IH.
    replace (start + l + l * py.len xs) with (start + l * py.len (x :: xs))
      by (unfold py.len; simpl length; lia).
    tauto.
Qed.

Lemma unary_at_app (arr : list Z) (start : Z) (g1 g2 : list Z) :
  unary_at arr start (g1 ++ g2) <->
  unary_at arr start g1 /\ unary_at arr (start + unary_bits g1) g2.
Proof.
  revert start. induction g1 as [|g g1 IH]; intros start.
  - simpl. rewrite Z.add_0_r. tauto.
  - simpl. rewrite IH.
    replace (start + g + 1 + unary_bits g1) with (start + (g + 1 + unary_bits g1))
      by lia.
    tauto.
Qed.

(** A layout below bit [n] is kept by an array with the same bits below
    [n]. *)
Lemma fields_at_ext (arr arr' : list Z) (n l : Z) (xs : list Z) (start : Z) :
  0 <= start -> 0 <= l -> start + l * py.len xs <= n ->
  (forall p, 0 <= p < n -> bit 8 arr' p = bit 8 arr p) ->
  fields_at arr start l xs -> fields_at arr' start l xs.
Proof.
  intros Hstart Hl Hn Hsame. revert start Hstart Hn.
  induction xs as [|x xs IH]; intros start Hstart Hn H; [done|].
  destruct H as [Hx H]. unfold py.len in Hn. simpl length in Hn.
  assert (0 <= l * Z.of_nat (length xs)) by lia.
  split.
  - intros j Hj. rewrite Hsame by lia. by apply Hx.
  - apply IH; [lia|unfold py.len; lia|done].
Qed.

Lemma unary_at_ext (arr arr' : list Z) (n : Z) (gaps : list Z) (start : Z) :
  0 <= start -> Forall (fun g => 0 <= g) gaps ->
  start + unary_bits gaps <= n ->
  (forall p, 0 <= p < n -> bit 8 arr' p = bit 8 arr p) ->
  unary_at arr start gaps -> unary_at arr' start gaps.
Proof.
  intros Hstart Hgaps Hn Hsame. revert start Hstart Hn.
  induction Hgaps as [|g gs Hg Hgs IH]; intros start Hstart Hn H; [done|].
  destruct H as (Hones & Hzero & H). simpl in Hn.
  pose proof (unary_bits_nonneg gs Hgs).
  split; [|split].
  - intros k Hk. rewrite Hsame by lia. by apply Hones.
  - rewrite Hsame by lia. exact Hzero.
  - apply IH; [lia|lia|done].
Qed.

Lemma mod_pow2_zero_of_bits (a k : Z) :
  0 <= k -> (forall j, 0 <= j < k -> Z.testbit a j = false) -> a `mod` 2 ^ k = 0.
Proof.
  intros Hk H. apply Z.bits_inj'. intros j Hj. rewrite Z.bits_0.
  destruct (Z.lt_ge_cases j k).
  - rewrite Z.mod_pow2_bits_low by lia. apply H. lia.
  - apply Z.mod_pow2_bits_high. lia.
Qed.

Lemma words_ok_bytes (l : list Z) :
  words_ok 8 l <-> Forall (fun e => 0 <= e < 256) l.
Proof. reflexivity. Qed.

(** The last byte of a non-empty stream. *)
Lemma stream_snoc (s : list Z) :
  0 < py.len s ->
  exists init, s = init ++ [word s (py.len s - 1)] /\ py.len init = py.len s - 1.
Proof.
  intros Hlen. destruct (snoc_cases s) as [-> | (init & x & ->)]; [done|].
  exists init. rewrite len_app. change (py.len [x]) with 1.
  split; [|lia].
  rewrite word_snoc by (pose proof (len_nonneg init); lia).
  replace (py.len init + 1 - 1) with (py.len init) by lia.
  destruct (py.len init <? py.len init) eqn:E; [lia|].
  destruct (py.len init =? py.len init) eqn:E2; [done|lia].
Qed.

(** [extend] with any non-empty list of bytes whose last [pad] bits are
    clear. *)
Lemma extend_bytes (self : BitByteArray.t) (n : Z) (es : list Z) (pad : Z) :
  holds self n -> words_ok 8 es -> 0 < py.len es -> 0 <= pad < 8 ->
  (forall p, 8 * py.len es - pad <= p -> bit 8 es p = false) ->
  exists self',
    BitByteArray.extend self es pad = Ok self' /\
    holds self' (n + 8 * py.len es - pad) /\
    forall p, 0 <= p ->
      bit 8 (BitByteArray.stream self') p =
        if p <? n then bit 8 (BitByteArray.stream self) p else bit 8 es (p - n).
Proof.
  intros Hholds Hok Hlen Hpad Hclear.
  destruct (stream_snoc es Hlen) as (init & Hes & Hinit).
  set (last := word es (py.len es - 1)) in *.
  assert (last `mod` 2 ^ pad = 0) as Hlow.
  { apply mod_pow2_zero_of_bits; [lia|]. intros j Hj.
    specialize (Hclear (8 * (py.len es - 1) + (7 - j)) ltac:(lia)).
    unfold bit in Hclear.
    replace ((8 * (py.len es - 1) + (7 - j)) / 8) with (py.len es - 1) in Hclear
      by (Z.div_mod_to_equations; lia).
    replace ((8 * (py.len es - 1) + (7 - j)) `mod` 8) with (7 - j) in Hclear
      by (Z.div_mod_to_equations; lia).
    replace (8 - 1 - (7 - j)) with j in Hclear by lia. exact Hclear. }
  rewrite Hes in Hok |- *.
  destruct (extend_spec self n init last pad Hholds Hok Hpad Hlow)
    as (self' & Hrun & Hholds' & Hbits).
  exists self'. rewrite <- Hes in *. done.
Qed.

(** [__encode_lower]: the object holds the numbers, [l] bits each. *)
Lemma encode_lower_spec (xs : list Z) (l : Z) :
  1 <= l -> Forall (fun x => 0 <= x < 2 ^ l) xs ->
  exists lower,
    eliasfanoencoder.encode_lower xs l = Ok lower /\
    holds lower (l * py.len xs) /\
    fields_at (BitByteArray.stream lower) 0 l xs.
Proof.
  intros Hl Hxs. unfold eliasfanoencoder.encode_lower.
  set (pd := if 8 - l `mod` 8 =? 8 then 0 else 8 - l `mod` 8).
  set (size := py.ceil_div l 8).
  assert (0 <= pd < 8 /\ 1 <= size /\ 8 * size - pd = l) as (Hpd & Hsize & Hfit).
  { unfold pd, size, py.ceil_div.
    destruct (8 - l `mod` 8 =? 8) eqn:E; Z.div_mod_to_equations; lia. }
  apply (for_each_inv xs _
    (fun pre s => holds s (l * py.len pre) /\
                  fields_at (BitByteArray.stream s) 0 l pre)).
  { split; [|done]. change (py.len []) with 0. rewrite Z.mul_0_r.
    exact holds_new. }
  intros pre x suf s Heq [Hs Hfields].
  assert (0 <= x < 2 ^ l) as Hx.
  { rewrite Heq in Hxs. apply Forall_app in Hxs as [_ Hxs].
    by apply Forall_cons_1 in Hxs as [Hx _]. }
  pose proof (len_nonneg pre) as Hpre.
  set (bytes := bitbyteutils.to_bytes size (Z.shiftl x pd)).
  assert (py.len bytes = size) as Hlen by (apply to_bytes_len; lia).
  destruct (extend_bytes s (l * py.len pre) bytes pd Hs) as (s' & Hrun & Hs' & Hbits).
  { apply to_bytes_ok. }
  { lia. }
  { done. }
  { intros p Hp. destruct (Z.lt_ge_cases p (8 * py.len bytes)).
    - unfold bytes. rewrite to_bytes_bit by lia.
      rewrite Z.shiftl_spec by lia. apply Z.testbit_neg_r. lia.
    - unfold bit. rewrite word_beyond; [apply Z.bits_0|].
      Z.div_mod_to_equations. lia. }
  exists s'. split; [exact Hrun|].
  rewrite len_app. change (py.len [x]) with 1.
  replace (l * (py.len pre + 1)) with (l * py.len pre + 8 * py.len bytes - pd) by lia.
  split; [exact Hs'|].
  apply fields_at_app. split.
  - apply (fields_at_ext (BitByteArray.stream s) _ (l * py.len pre)); try done; try lia.
    intros p Hp. rewrite Hbits by lia.
    destruct (p <? l * py.len pre) eqn:E; [done|lia].
  - split; [|done]. intros j Hj. rewrite Hbits by lia.
    destruct (0 + l * py.len pre + j <? l * py.len pre) eqn:E; [lia|].
    replace (0 + l * py.len pre + j - l * py.len pre) with j by lia.
    unfold bytes. rewrite to_bytes_bit by lia.
    rewrite Z.shiftl_spec by lia. f_equal. lia.
Qed.

(** The bits of the bytes that the plain unary [encode] returns. *)
Lemma unary_bytes_bit (k : nat) (r d : Z) :
  0 <= r < 8 -> 0 <= d ->
  bit 8 (replicate k 255 ++ [unary_tail r]) d = (d <? 8 * Z.of_nat k + r).
Proof.
  intros Hr Hd. rewrite bit_app by done. rewrite len_replicate.
  destruct (d <? 8 * Z.of_nat k) eqn:E.
  - unfold bit, word.
    rewrite lookup_replicate_2 by (Z.div_mod_to_equations; lia). simpl.
    change 255 with (Z.ones 8).
    rewrite Z.ones_spec_low by (Z.div_mod_to_equations; lia).
    symmetry. apply Z.ltb_lt. lia.
  - rewrite bit_single by lia.
    destruct (d - 8 * Z.of_nat k <? 8) eqn:E2.
    + unfold unary_tail. change 255 with (Z.ones 8).
      rewrite Z.land_ones by lia. rewrite Z.mod_pow2_bits_low by lia.
      rewrite Z.shiftl_spec by lia.
      destruct (d <? 8 * Z.of_nat k + r) eqn:E3.
      * apply Z.ones_spec_low. lia.
      * apply Z.testbit_neg_r. lia.
    + symmetry. apply Z.ltb_ge. lia.
Qed.

Lemma gaps_encode_run (x : Z) (l : list Z) :
  gapsencoder.encode (x :: l) = Ok (x :: diffs x l, x :: l).
Proof.
  unfold gapsencoder.encode.
  unfold gapsencoder.arg_bind at 1 2, gapsencoder.arg_getitem,
    gapsencoder.arg_len.
  change (py.getitem (x :: l) 0) with (Ok x : result Z). rewrite bind_Ok.
  exact (gaps_encode_loop_diffs l [] x [x]).
Qed.

(** [__encode_upper]: the object holds the unary codes of the gaps. *)
Lemma encode_upper_spec (u : Z) (us : list Z) :
  0 <= u -> nondecreasing_from u us ->
  exists upper,
    eliasfanoencoder.encode_upper (u :: us) = Ok upper /\
    holds upper (unary_bits (u :: diffs u us)) /\
    unary_at (BitByteArray.stream upper) 0 (u :: diffs u us).
Proof.
  intros Hu Hus. unfold eliasfanoencoder.encode_upper.
  rewrite gaps_encode_run, bind_Ok. cbv beta iota.
  assert (Forall (fun g => 0 <= g) (u :: diffs u us)) as Hgaps.
  { constructor; [done|by apply diffs_nonneg]. }
  revert Hgaps. generalize (u :: diffs u us). intros gaps Hgaps.
  apply (for_each_inv gaps _
    (fun pre s => holds s (unary_bits pre) /\
                  unary_at (BitByteArray.stream s) 0 pre)).
  { split; [exact holds_new|done]. }
  intros pre g suf s Heq [Hs Hcodes].
  assert (Forall (fun g => 0 <= g) pre /\ 0 <= g) as [Hpre Hg].
  { rewrite Heq in Hgaps. apply Forall_app in Hgaps as [Hpre Hgaps].
    by apply Forall_cons_1 in Hgaps as [Hg _]. }
  pose proof (unary_bits_nonneg pre Hpre) as Hn.
  rewrite unary_encode_plain, bind_Ok by done. cbv beta iota.
  fold (unary_tail (g `mod` 8)).
  assert (0 <= g `mod` 8 < 8) as Hr by (apply Z.mod_pos_bound; lia).
  set (r := g `mod` 8) in *.
  set (k := Z.to_nat ((g + 8) / 8 - 1)).
  assert (g = 8 * Z.of_nat k + r) as Hgk.
  { unfold k, r. Z.div_mod_to_equations. lia. }
  set (bytes := replicate k 255 ++ [unary_tail r]).
  assert (py.len bytes = Z.of_nat k + 1) as Hlen.
  { unfold bytes. rewrite len_app, len_replicate. reflexivity. }
  destruct (extend_bytes s (unary_bits pre) bytes (7 - r) Hs) as (s' & Hrun & Hs' & Hbits).
  { apply Forall_app. split.
    - apply Forall_replicate. change (2 ^ 8) with 256. lia.
    - constructor; [|constructor]. pose proof (unary_tail_range r Hr).
      change (2 ^ 8) with 256. lia. }
  { lia. }
  { lia. }
  { intros p Hp. unfold bytes. rewrite unary_bytes_bit by lia.
    apply Z.ltb_ge. lia. }
  exists s'. split; [exact Hrun|].
  rewrite unary_bits_app. simpl unary_bits.
  replace (unary_bits pre + (g + 1 + 0))
    with (unary_bits pre + 8 * py.len bytes - (7 - r)) by lia.
  split; [exact Hs'|].
  apply unary_at_app. split.
  - apply (unary_at_ext (BitByteArray.stream s) _ (unary_bits pre)); try done; try lia.
    intros p Hp. rewrite Hbits by lia.
    destruct (p <? unary_bits pre) eqn:E; [done|lia].
  - simpl. split; [|split; [|done]].
    + intros d Hd. rewrite Hbits by lia.
      destruct (0 + unary_bits pre + d <? unary_bits pre) eqn:E; [lia|].
      replace (0 + unary_bits pre + d - unary_bits pre) with d by lia.
      unfold bytes. rewrite unary_bytes_bit by lia. apply Z.ltb_lt. lia.
    + rewrite Hbits by lia.
      destruct (0 + unary_bits pre + g <? unary_bits pre) eqn:E; [lia|].
      replace (0 + unary_bits pre + g - unary_bits pre) with g by lia.
      unfold bytes. rewrite unary_bytes_bit by lia. apply Z.ltb_ge. lia.
Qed.

Lemma bytearray_of_list_ok (l : list Z) :
  words_ok 8 l -> py.bytearray_of_list l = Ok l.
Proof.
  intros Hok. unfold py.bytearray_of_list.
  assert (forallb (fun x => (0 <=? x) && (x <=? 255)) l = true) as ->; [|done].
  apply forallb_forall. intros x Hx.
  unfold words_ok in Hok. rewrite Forall_forall in Hok. specialize (Hok x Hx).
  change (2 ^ 8) with 256 in Hok. lia.
Qed.

(** [__merge_encodes]: the header byte [l], then the lower bits followed
    by the upper bits. *)
Lemma merge_encodes_spec (l : Z) (lower upper : BitByteArray.t) (L U : Z) :
  holds lower L -> holds upper U -> 1 <= U -> 0 <= l < 256 ->
  exists bytes,
    eliasfanoencoder.merge_encodes l lower upper
      = Ok ([l] ++ bytes, (- (L + U)) `mod` 8) /\
    words_ok 8 bytes /\ py.len bytes = (L + U + 7) / 8 /\
    forall p, 0 <= p ->
      bit 8 bytes p =
        if p <? L then bit 8 (BitByteArray.stream lower) p
        else bit 8 (BitByteArray.stream upper) (p - L).
Proof.
  intros Hlower Hupper HU Hl. unfold eliasfanoencoder.merge_encodes.
  pose proof Hupper as (_ & Hok & Hlen & _ & Hclear).
  rewrite (padding_spec upper U Hupper).
  assert (0 <= (- U) `mod` 8 < 8) as Hpad by (apply Z.mod_pos_bound; lia).
  assert (8 * py.len (BitByteArray.stream upper) - (- U) `mod` 8 = U) as Hfit.
  { rewrite Hlen. Z.div_mod_to_equations. lia. }
  destruct (extend_bytes lower L (BitByteArray.stream upper) ((- U) `mod` 8) Hlower Hok)
    as (merged & Hrun & Hmerged & Hbits).
  { rewrite Hlen. Z.div_mod_to_equations. lia. }
  { done. }
  { intros p Hp. apply Hclear. lia. }
  rewrite Hrun, bind_Ok.
  rewrite (padding_spec merged _ Hmerged).
  pose proof Hmerged as (_ & Hok' & Hlen' & _ & _).
  rewrite to_byte_small by done.
  unfold BitByteArray.to_bytearray.
  rewrite bytearray_of_list_ok, bind_Ok.
  2:{ apply Forall_app. split; [|done]. constructor; [|constructor].
      change (2 ^ 8) with 256. lia. }
  exists (BitByteArray.stream merged).
  replace (L + 8 * py.len (BitByteArray.stream upper) - (- U) `mod` 8)
    with (L + U) in * by lia.
  done.
Qed.

(** ** unaryencoder.decode at a bit offset *)

Lemma land_pow2 (a k : Z) :
  0 <= k -> Z.land a (2 ^ k) = if Z.testbit a k then 2 ^ k else 0.
Proof.
  intros Hk. apply Z.bits_inj'. intros j Hj.
  rewrite Z.land_spec, Z.pow2_bits_eqb by done.
  destruct (Z.eqb_spec k j) as [-> | Hne].
  - destruct (Z.testbit a j) eqn:E; simpl.
    + by rewrite Z.pow2_bits_true.
    + by rewrite Z.bits_0.
  - rewrite andb_false_r. destruct (Z.testbit a k).
    + by rewrite Z.pow2_bits_false.
    + by rewrite Z.bits_0.
Qed.

Lemma msb_mask_test (readed bi : Z) :
  0 <= bi <= 7 ->
  exists mask, unaryencoder.READ_MSB_MASKS bi = Ok mask /\
    (Z.land readed mask =? 0) = negb (Z.testbit readed (7 - bi)).
Proof.
  intros Hbi. exists (2 ^ (7 - bi)). split.
  - unfold unaryencoder.READ_MSB_MASKS.
    destruct ((0 <=? bi) && (bi <=? 7)) eqn:E; [|lia].
    f_equal. change 128 with (2 ^ 7).
    rewrite Z.shiftr_div_pow2 by lia.
    rewrite <- Z.pow_sub_r by lia. reflexivity.
  - rewrite land_pow2 by lia.
    assert (0 < 2 ^ (7 - bi)) by (apply Z.pow_pos_nonneg; lia).
    destruct (Z.testbit readed (7 - bi)); simpl; lia.
Qed.

(** The count of leading ones from bit index [bi] on. *)
Lemma count_leading_ones_run (readed : Z) (m : nat) :
  forall (fuel : nat) (number bi : Z),
    (m < fuel)%nat -> 0 <= bi -> bi + Z.of_nat m <= 7 ->
    (forall k, 0 <= k < Z.of_nat m -> Z.testbit readed (7 - (bi + k)) = true) ->
    Z.testbit readed (7 - (bi + Z.of_nat m)) = false ->
    unaryencoder.count_leading_ones fuel readed number bi
      = Ok (number + Z.of_nat m, bi + Z.of_nat m).
Proof.
  induction m as [|m IH]; intros fuel number bi Hfuel Hbi Hend Hones Hzero;
    (destruct fuel as [|fuel]; [lia|]); cbn [unaryencoder.count_leading_ones];
    destruct (msb_mask_test readed bi ltac:(lia)) as (mask & -> & Htest);
    rewrite bind_Ok, Htest.
  - change (Z.of_nat 0) with 0 in *. rewrite Z.add_0_r in Hzero.
    rewrite Hzero. simpl. by rewrite !Z.add_0_r.
  - rewrite <- (Z.add_0_r bi) at 1. rewrite Hones by lia. simpl negb. cbv iota.
    rewrite IH; try lia.
    + f_equal. f_equal; lia.
    + intros k Hk. replace (bi + 1 + k) with (bi + (k + 1)) by lia.
      apply Hones. lia.
    + replace (bi + 1 + Z.of_nat m) with (bi + Z.of_nat (S m)) by lia. done.
Qed.

(** The run of full bytes from index [j] up to the byte [stop], the first
    one that is not 255. *)
Lemma skip_full_bytes_words (enc : list Z) (stop : Z) (m : nat) :
  stop < py.len enc -> word enc stop <> 255 ->
  forall (fuel : nat) (number j : Z),
    (m < fuel)%nat -> 0 <= j -> j + Z.of_nat m = stop ->
    (forall i, j <= i < stop -> word enc i = 255) ->
    unaryencoder.skip_full_bytes fuel enc number j
      = Ok (number + 8 * Z.of_nat m, stop).
Proof.
  intros Hstop Hlast. induction m as [|m IH]; intros fuel number j Hfuel Hj Hsum Hfull;
    (destruct fuel as [|fuel]; [lia|]); cbn [unaryencoder.skip_full_bytes];
    rewrite (getitem_word enc j) by lia; rewrite bind_Ok.
  - replace j with stop by lia.
    destruct (word enc stop =? 255) eqn:E; [lia|]. f_equal. f_equal. lia.
  - rewrite Hfull by lia. change (255 =? 255) with true. cbv iota.
    rewrite IH; try lia.
    + f_equal. f_equal. lia.
    + intros i Hi. apply Hfull. lia.
Qed.

Lemma bit_of_word (enc : list Z) (i r : Z) :
  0 <= r < 8 -> bit 8 enc (8 * i + r) = Z.testbit (word enc i) (7 - r).
Proof.
  intros Hr. unfold bit.
  replace ((8 * i + r) / 8) with i by (Z.div_mod_to_equations; lia).
  replace ((8 * i + r) `mod` 8) with r by (Z.div_mod_to_equations; lia).
  f_equal.
Qed.

(** [decode] of one number at bit offset [off], where [g] ones and then a
    zero stand. *)
Lemma unary_decode_at (enc : list Z) (off g : Z) :
  words_ok 8 enc -> 0 <= off -> 0 <= g -> off + g < 8 * py.len enc ->
  (forall k, 0 <= k < g -> bit 8 enc (off + k) = true) ->
  bit 8 enc (off + g) = false ->
  unaryencoder.decode enc 1 false off = Ok [g].
Proof.
  intros Hok Hoff Hg Hroom Hones Hzero.
  assert (exists B bi, off = 8 * B + bi /\ 0 <= bi < 8 /\ 0 <= B) as (B & bi & HB & Hbi & HB0).
  { exists (off / 8), (off `mod` 8). Z.div_mod_to_equations. lia. }
  assert (exists B' t, off + g = 8 * B' + t /\ 0 <= t < 8 /\ B <= B')
    as (B' & t & HT & Ht & HB').
  { exists ((off + g) / 8), ((off + g) `mod` 8). Z.div_mod_to_equations. lia. }
  unfold unaryencoder.decode.
  change (py.range 0 1) with [0]. rewrite for_each_cons.
  rewrite Z.shiftr_div_pow2 by lia. change (2 ^ 3) with 8.
  change 7 with (Z.ones 3) at 1. rewrite Z.land_ones by lia. change (2 ^ 3) with 8.
  replace (off / 8) with B by (Z.div_mod_to_equations; lia).
  replace (off `mod` 8) with bi by (Z.div_mod_to_equations; lia).
  unfold unaryencoder.decode_step.
  assert (unaryencoder.READ_SINCE_MASKS bi = Ok (Z.ones (8 - bi))) as ->.
  { unfold unaryencoder.READ_SINCE_MASKS.
    destruct ((0 <=? bi) && (bi <=? 8)) eqn:E; [|lia].
    f_equal. change 255 with (Z.ones 8).
    rewrite Z.shiftr_div_pow2, Z.ones_div_pow2 by lia. reflexivity. }
  rewrite bind_Ok.
  rewrite (getitem_word enc B) by lia. rewrite bind_Ok.
  pose proof (word_bounds 8 enc B ltac:(lia) Hok) as Hbyte.
  rewrite Z.land_ones by lia.
  set (readed := word enc B `mod` 2 ^ (8 - bi)).
  assert (forall j, 0 <= j < 8 - bi ->
            Z.testbit readed j = Z.testbit (word enc B) j) as Hreaded.
  { intros j Hj. unfold readed. by rewrite Z.mod_pow2_bits_low by lia. }
  simpl py.int_of_bool.
  destruct (Z.eq_dec B' B) as [-> | Hne].
  - (* the zero is in the byte the offset points into *)
    assert (g = t - bi) as -> by lia.
    assert (readed <> Z.ones (8 - bi)) as Hneq.
    { intros Heq. assert (Z.testbit readed (7 - t) = true) as Hbit.
      { rewrite Heq. apply Z.ones_spec_low. lia. }
      rewrite Hreaded in Hbit by lia.
      rewrite HT, bit_of_word in Hzero by done. congruence. }
    destruct (readed =? Z.ones (8 - bi)) eqn:E; [lia|].
    rewrite bind_Ok. cbv beta iota.
    rewrite (count_leading_ones_run readed (Z.to_nat (t - bi))); try lia.
    + rewrite !bind_Ok. cbv beta iota. rewrite for_each_nil, bind_Ok.
      cbv beta iota. f_equal. simpl app. f_equal. lia.
    + intros k Hk. rewrite Hreaded by lia.
      specialize (Hones k ltac:(lia)).
      replace (off + k) with (8 * B + (bi + k)) in Hones by lia.
      rewrite bit_of_word in Hones by lia. exact Hones.
    + rewrite Z2Nat.id by lia. rewrite Hreaded by lia.
      replace (bi + (t - bi)) with t by lia.
      rewrite HT, bit_of_word in Hzero by done. exact Hzero.
  - (* the ones fill the byte the offset points into *)
    assert (readed = Z.ones (8 - bi)) as Heq.
    { apply (eq_of_bits _ _ (8 - bi)); try lia.
      - unfold readed. apply Z.mod_pos_bound. apply Z.pow_pos_nonneg; lia.
      - rewrite Z.ones_equiv.
        assert (0 < 2 ^ (8 - bi)) by (apply Z.pow_pos_nonneg; lia). lia.
      - intros j Hj. rewrite Hreaded, Z.ones_spec_low by lia.
        specialize (Hones (7 - j - bi) ltac:(lia)).
        replace (off + (7 - j - bi)) with (8 * B + (7 - j)) in Hones by lia.
        rewrite bit_of_word in Hones by lia.
        replace (7 - (7 - j)) with j in Hones by lia. exact Hones. }
    rewrite Heq. rewrite Z.eqb_refl.
    assert (word enc B' <> 255) as Hlast.
    { intros H255. rewrite HT, bit_of_word, H255 in Hzero by done.
      change 255 with (Z.ones 8) in Hzero.
      rewrite Z.ones_spec_low in Hzero by lia. done. }
    rewrite (skip_full_bytes_words enc B' (Z.to_nat (B' - B - 1))); try lia.
    2:{ unfold py.len in *. lia. }
    2:{ intros i Hi. pose proof (word_bounds 8 enc i ltac:(lia) Hok) as Hw.
        apply (eq_of_bits _ _ 8); try done; try lia.
        intros j Hj. change 255 with (Z.ones 8). rewrite Z.ones_spec_low by lia.
        specialize (Hones (8 * i + (7 - j) - off) ltac:(lia)).
        replace (off + (8 * i + (7 - j) - off)) with (8 * i + (7 - j)) in Hones by lia.
        rewrite bit_of_word in Hones by lia.
        replace (7 - (7 - j)) with j in Hones by lia. exact Hones. }
    rewrite bind_Ok. cbv beta iota.
    rewrite (getitem_word enc B') by lia. rewrite !bind_Ok. cbv beta iota.
    rewrite (count_leading_ones_run (word enc B') (Z.to_nat t)); try lia.
    + rewrite !bind_Ok. cbv beta iota. rewrite for_each_nil, bind_Ok.
      cbv beta iota. f_equal. simpl app. f_equal. lia.
    + intros k Hk.
      specialize (Hones (8 * B' + k - off) ltac:(lia)).
      replace (off + (8 * B' + k - off)) with (8 * B' + k) in Hones by lia.
      rewrite bit_of_word in Hones by lia. exact Hones.
    + rewrite Z2Nat.id by lia. rewrite HT, bit_of_word in Hzero by done.
      exact Hzero.
Qed.

(** ** eliasfanoencoder: decoding the standard frame *)

(** Reading a field of [l] bits that spells [x]. *)
Lemma read_barray_field (enc : list Z) (off l x : Z) :
  words_ok 8 enc -> 0 <= off -> 0 <= l -> off + l <= 8 * py.len enc ->
  0 <= x < 2 ^ l ->
  (forall j, 0 <= j < l -> bit 8 enc (off + j) = Z.testbit x (l - 1 - j)) ->
  bitutils.read_binary_from_barray enc off l = Ok x.
Proof.
  intros Hok Hoff Hl Hroom Hx Hbits.
  destruct (read_barray_loop_spec (Z.to_nat l) enc off l 0)
    as (v & Hr & Hv & Hvbits); try done; try lia.
  unfold bitutils.read_binary_from_barray. rewrite Hr, Z.shiftl_0_l. simpl.
  f_equal. apply (eq_of_bits v x l); try done.
  intros j Hj. rewrite Hvbits by done.
  replace (off + l - 1 - j) with (off + (l - 1 - j)) by lia.
  rewrite Hbits by lia. f_equal. lia.
Qed.

(** The numbers that the lower parts and the gaps of the upper parts
    spell, [delta] being the upper part reached so far. *)
Fixpoint ef_values (l delta : Z) (lowers gaps : list Z) : list Z :=
  match lowers, gaps with
  | x :: xs, g :: gs => (Z.shiftl (delta + g) l + x) :: ef_values l (delta + g) xs gs
  | _, _ => []
  end.

Lemma ef_values_spec (l delta : Z) (ns : list Z) :
  0 <= l ->
  ef_values l delta ((fun n => Z.land n (2 ^ l - 1)) <$> ns)
    (diffs delta ((fun n => Z.shiftr n l) <$> ns)) = ns.
Proof.
  intros Hl. revert delta. induction ns as [|n ns IH]; intros delta; [done|].
  simpl. replace (delta + (Z.shiftr n l - delta)) with (Z.shiftr n l) by lia.
  rewrite IH. f_equal. rewrite land_mask_mod by done.
  pose proof (split_high_low n l Hl). lia.
Qed.

(** The loop of the standard branch of [decode]. *)
Lemma decode_standard_loop (enc : list Z) (l : Z) :
  words_ok 8 enc -> 0 <= l ->
  forall (lowers gaps : list Z) (idx : list Z) (decoded : list Z)
         (delta lo uo : Z),
    length idx = length lowers -> length gaps = length lowers ->
    Forall (fun x => 0 <= x < 2 ^ l) lowers -> Forall (fun g => 0 <= g) gaps ->
    0 <= lo -> 0 <= uo ->
    fields_at enc lo l lowers -> unary_at enc uo gaps ->
    lo + l * py.len lowers <= 8 * py.len enc ->
    uo + unary_bits gaps <= 8 * py.len enc ->
    exists delta' lo' uo',
      py.for_each idx
        (fun '(decoded, delta, lower_offset, upper_offset) (_ : Z) =>
           lower ← bitutils.read_binary_from_barray enc lower_offset l;
           uppers ← unaryencoder.decode enc 1 false upper_offset;
           upper ← py.getitem uppers 0;
           let delta := delta + upper in
           shifted ← py.lshift delta l;
           Ok (decoded ++ [shifted + lower], delta, lower_offset + l,
               upper_offset + (upper + 1)))
        (decoded, delta, lo, uo)
      = Ok (decoded ++ ef_values l delta lowers gaps, delta', lo', uo').
Proof.
  intros Hok Hl.
  induction lowers as [|x lowers IH];
    intros gaps idx decoded delta lo uo Hidx Hgaps Hlow Hg Hlo Huo Hf Hu Hroom1 Hroom2.
  - destruct idx; [|done]. do 3 eexists. rewrite for_each_nil.
    simpl. by rewrite app_nil_r.
  - destruct idx as [|i idx]; [done|]. destruct gaps as [|g gaps]; [done|].
    apply Forall_cons_1 in Hlow as [Hx Hlow].
    apply Forall_cons_1 in Hg as [Hg0 Hg].
    destruct Hf as [Hfx Hf]. destruct Hu as (Hones & Hzero & Hu).
    pose proof (unary_bits_nonneg gaps Hg) as Hub.
    pose proof (len_nonneg lowers) as Hln.
    assert (py.len (x :: lowers) = py.len lowers + 1) as Hcons
      by (unfold py.len; simpl length; lia).
    rewrite Hcons in Hroom1. simpl in Hroom2.
    assert (0 <= l * py.len lowers) by (apply Z.mul_nonneg_nonneg; lia).
    rewrite for_each_cons.
    rewrite (read_barray_field enc lo l x) by (done || lia).
    rewrite bind_Ok.
    rewrite (unary_decode_at enc uo g) by (done || lia).
    rewrite bind_Ok.
    change (py.getitem [g] 0) with (Ok g : result Z). rewrite bind_Ok.
    cbv zeta. rewrite lshift_nonneg, !bind_Ok by done.
    destruct (IH gaps idx (decoded ++ [Z.shiftl (delta + g) l + x]) (delta + g)
                (lo + l) (uo + (g + 1)))
      as (delta' & lo' & uo' & Hrun); try done; try lia.
    + simpl in Hidx. lia.
    + simpl in Hgaps. lia.
    + by replace (uo + (g + 1)) with (uo + g + 1) by lia.
    + exists delta', lo', uo'. etrans; [exact Hrun|]. simpl. by rewrite <- app_assoc.
Qed.

(** A layout is kept when bytes are put before the array. *)
Lemma fields_at_shift (pre arr : list Z) (l : Z) (xs : list Z) (start : Z) :
  0 <= start -> 0 <= l -> fields_at arr start l xs ->
  fields_at (pre ++ arr) (8 * py.len pre + start) l xs.
Proof.
  intros Hstart Hl. revert start Hstart.
  induction xs as [|x xs IH]; intros start Hstart H; [done|].
  destruct H as [Hx H]. pose proof (len_nonneg pre). split.
  - intros j Hj. rewrite bit_app by lia.
    destruct (8 * py.len pre + start + j <? 8 * py.len pre) eqn:E; [lia|].
    replace (8 * py.len pre + start + j - 8 * py.len pre) with (start + j) by lia.
    by apply Hx.
  - replace (8 * py.len pre + start + l) with (8 * py.len pre + (start + l)) by lia.
    apply IH; [lia|done].
Qed.

Lemma unary_at_shift (pre arr : list Z) (gaps : list Z) (start : Z) :
  0 <= start -> Forall (fun g => 0 <= g) gaps -> unary_at arr start gaps ->
  unary_at (pre ++ arr) (8 * py.len pre + start) gaps.
Proof.
  intros Hstart Hgaps. revert start Hstart.
  induction Hgaps as [|g gs Hg Hgs IH]; intros start Hstart H; [done|].
  destruct H as (Hones & Hzero & H). pose proof (len_nonneg pre).
  split; [|split].
  - intros k Hk. rewrite bit_app by lia.
    destruct (8 * py.len pre + start + k <? 8 * py.len pre) eqn:E; [lia|].
    replace (8 * py.len pre + start + k - 8 * py.len pre) with (start + k) by lia.
    by apply Hones.
  - rewrite bit_app by lia.
    destruct (8 * py.len pre + start + g <? 8 * py.len pre) eqn:E; [lia|].
    replace (8 * py.len pre + start + g - 8 * py.len pre) with (start + g) by lia.
    done.
  - replace (8 * py.len pre + start + g + 1)
      with (8 * py.len pre + (start + g + 1)) by lia.
    apply IH; [lia|done].
Qed.

(** A layout in the second of two bit strings put end to end. *)
Lemma unary_at_second (arr arr2 : list Z) (L : Z) (gaps : list Z) (start : Z) :
  0 <= L -> 0 <= start -> Forall (fun g => 0 <= g) gaps ->
  (forall p, L <= p -> bit 8 arr p = bit 8 arr2 (p - L)) ->
  unary_at arr2 start gaps -> unary_at arr (L + start) gaps.
Proof.
  intros HL Hstart Hgaps Hsame. revert start Hstart.
  induction Hgaps as [|g gs Hg Hgs IH]; intros start Hstart H; [done|].
  destruct H as (Hones & Hzero & H).
  split; [|split].
  - intros k Hk. rewrite Hsame by lia.
    replace (L + start + k - L) with (start + k) by lia. by apply Hones.
  - rewrite Hsame by lia.
    replace (L + start + g - L) with (start + g) by lia. done.
  - replace (L + start + g + 1) with (L + (start + g + 1)) by lia.
    apply IH; [lia|done].
Qed.

(** ** eliasfanoencoder: the standard frame *)

Lemma vb_encode_run (n : Z) :
  0 <= n ->
  exists body,
    vbencoder.encode n = Ok (body ++ [Z.land n 127 + 128]) /\
    Forall (fun x => 0 <= x < 128) body /\
    0 <= Z.land n 127 < 128 /\
    Z.shiftl (vb_value 0 body) 7 + Z.land n 127 = n.
Proof.
  intros Hn.
  destruct (vb_encode_loop_spec (S (Z.to_nat (Z.log2 n))) n []) as
    (body & Hrun & Hbody & Hval & Hlen); [lia| |].
  { split; [done|]. destruct (Z.eq_dec n 0) as [-> | Hnz]; [done|].
    pose proof (Z.log2_nonneg n).
    assert (n < 2 ^ (Z.log2 n + 1)).
    { replace (Z.log2 n + 1) with (Z.succ (Z.log2 n)) by lia.
      apply Z.log2_spec. lia. }
    assert (2 ^ (Z.log2 n + 1) <= 2 ^ (7 * Z.of_nat (S (Z.to_nat (Z.log2 n))))).
    { apply Z.pow_le_mono_r; lia. }
    lia. }
  exists body. split.
  { unfold vbencoder.encode. rewrite Hrun, bind_Ok.
    rewrite app_nil_r, getitem_last, bind_Ok. apply setitem_last. }
  split; [exact Hbody|]. split.
  { change 127 with (Z.ones 7). rewrite Z.land_ones by lia.
    apply Z.mod_pos_bound. lia. }
  by rewrite vb_value_snoc in Hval.
Qed.

Lemma nondecreasing_shiftr (k a : Z) (l : list Z) :
  0 <= k -> nondecreasing_from a l ->
  nondecreasing_from (Z.shiftr a k) ((fun n => Z.shiftr n k) <$> l).
Proof.
  intros Hk. revert a. induction l as [|x l IH]; intros a H; [done|].
  destruct H as [Hax H]. simpl. split; [|by apply IH].
  rewrite !Z.shiftr_div_pow2 by done.
  apply Z.div_le_mono; [apply Z.pow_pos_nonneg; lia|done].
Qed.

Lemma nondecreasing_nonneg (a : Z) (l : list Z) :
  0 <= a -> nondecreasing_from a l -> Forall (fun x => 0 <= x) l.
Proof.
  revert a. induction l as [|x l IH]; intros a Ha H; [constructor|].
  destruct H as [Hax H]. constructor; [lia|]. apply (IH x); [lia|done].
Qed.

(** The standard branch of [encode]: the Variable Byte code of the first
    number, the header byte [l], then the lower parts, [l] bits each, and
    the unary codes of the gaps of the upper parts. *)
Lemma encode_standard_spec (log2_ceil : Z -> Z -> Z) (first n0 : Z)
    (ns : list Z) (max size : Z) :
  let l := log2_ceil max size in
  let numbers := n0 :: ns in
  let lowers := (fun n => Z.land n (2 ^ l - 1)) <$> numbers in
  let gaps := diffs 0 ((fun n => Z.shiftr n l) <$> numbers) in
  1 <= l <= 32 -> 0 <= first -> 0 <= n0 -> nondecreasing_from n0 ns ->
  exists vb bytes,
    eliasfanoencoder.encode_standard log2_ceil first numbers max size
      = Ok (vb ++ [l] ++ bytes,
            (- (l * py.len numbers + unary_bits gaps)) `mod` 8) /\
    vbencoder.encode first = Ok vb /\
    words_ok 8 bytes /\
    py.len bytes = (l * py.len numbers + unary_bits gaps + 7) / 8 /\
    fields_at bytes 0 l lowers /\
    unary_at bytes (l * py.len numbers) gaps /\
    forall p, l * py.len numbers + unary_bits gaps <= p -> bit 8 bytes p = false.
Proof.
  intros l numbers lowers gaps Hl Hfirst Hn0 Hns.
  unfold eliasfanoencoder.encode_standard. fold l.
  assert (eliasfanoencoder.MASKS l = Ok (2 ^ l - 1)) as ->.
  { unfold eliasfanoencoder.MASKS.
    destruct ((0 <=? l) && (l <=? 32)) eqn:E; [|lia]. by rewrite Z.shiftl_1_l. }
  rewrite bind_Ok. fold numbers. fold lowers.
  assert (py.for_each numbers
            (fun upper_numbers number =>
               upper ← py.rshift (number - Z.land number (2 ^ l - 1)) l;
               Ok (upper_numbers ++ [upper])) []
          = Ok ((fun n => Z.shiftr n l) <$> numbers)) as ->.
  { rewrite (for_each_ext _ _
      (fun upper_numbers number => Ok (upper_numbers ++ [Z.shiftr number l]))).
    - apply (for_each_map (fun n => Z.shiftr n l)).
    - intros s n. rewrite rshift_nonneg, bind_Ok by lia.
      do 3 f_equal. rewrite land_mask_mod by lia.
      rewrite !Z.shiftr_div_pow2 by lia.
      assert (0 < 2 ^ l) by (apply Z.pow_pos_nonneg; lia).
      rewrite Z.mod_eq by lia.
      replace (n - (n - 2 ^ l * (n / 2 ^ l))) with (n / 2 ^ l * 2 ^ l) by lia.
      apply Z.div_mul. lia. }
  rewrite bind_Ok.
  assert (gaps = Z.shiftr n0 l
                 :: diffs (Z.shiftr n0 l) ((fun n => Z.shiftr n l) <$> ns)) as Hgaps.
  { unfold gaps, numbers. simpl. by rewrite Z.sub_0_r. }
  assert (Forall (fun g => 0 <= g) gaps) as Hgaps0.
  { rewrite Hgaps. constructor; [apply Z.shiftr_nonneg; lia|].
    apply diffs_nonneg. apply nondecreasing_shiftr; [lia|done]. }
  destruct (encode_upper_spec (Z.shiftr n0 l) ((fun n => Z.shiftr n l) <$> ns))
    as (upper & Hupper & Hholds_u & Hcodes).
  { apply Z.shiftr_nonneg. lia. }
  { apply nondecreasing_shiftr; [lia|done]. }
  rewrite <- Hgaps in Hholds_u, Hcodes.
  unfold numbers at 1. rewrite fmap_cons, Hupper, bind_Ok.
  destruct (encode_lower_spec lowers l) as (lower & Hlower & Hholds_l & Hfields);
    [lia| |].
  { unfold lowers. apply Forall_fmap, Forall_true. intros n. simpl.
    rewrite land_mask_mod by lia. apply Z.mod_pos_bound.
    apply Z.pow_pos_nonneg; lia. }
  rewrite Hlower, bind_Ok.
  destruct (vb_encode_run first Hfirst) as (body & Hvb & Hbody & Hd & _).
  rewrite Hvb, bind_Ok.
  rewrite bytearray_of_list_ok, bind_Ok.
  2:{ apply Forall_app. split.
      - eapply Forall_impl; [|exact Hbody]. simpl. intros x Hx.
        change (2 ^ 8) with 256. lia.
      - constructor; [|constructor]. change (2 ^ 8) with 256. lia. }
  assert (py.len lowers = py.len numbers) as Hlen_l.
  { unfold lowers, py.len. by rewrite length_fmap. }
  rewrite Hlen_l in Hholds_l.
  pose proof (unary_bits_nonneg gaps Hgaps0) as HU0.
  assert (1 <= unary_bits gaps) as HU.
  { rewrite Hgaps in *. simpl in *.
    apply Forall_cons_1 in Hgaps0 as [Hg0 Hrest].
    pose proof (unary_bits_nonneg _ Hrest). lia. }
  pose proof (len_nonneg numbers) as Hnn.
  assert (0 <= l * py.len numbers) as HL by (apply Z.mul_nonneg_nonneg; lia).
  destruct (merge_encodes_spec l lower upper _ _ Hholds_l Hholds_u HU)
    as (bytes & Hmerge & Hok & Hlen & Hbits); [lia|].
  rewrite Hmerge, bind_Ok. cbv beta iota.
  exists (body ++ [Z.land first 127 + 128]), bytes.
  split; [reflexivity|]. split; [reflexivity|]. split; [exact Hok|].
  split; [exact Hlen|]. split; [|split].
  - apply (fields_at_ext (BitByteArray.stream lower) _ (l * py.len numbers));
      try done; try lia.
    intros p Hp. rewrite Hbits by lia.
    destruct (p <? l * py.len numbers) eqn:E; [done|lia].
  - rewrite <- (Z.add_0_r (l * py.len numbers)).
    apply (unary_at_second _ (BitByteArray.stream upper)); try done; try lia.
    intros p Hp. rewrite Hbits by lia.
    destruct (p <? l * py.len numbers) eqn:E; [lia|done].
  - intros p Hp. rewrite Hbits by lia.
    destruct (p <? l * py.len numbers) eqn:E; [lia|].
    destruct Hholds_u as (_ & _ & _ & _ & Hclear). apply Hclear. lia.
Qed.

Lemma getitem_last_default {A} (l : list A) (d : A) :
  l <> [] -> py.getitem l (-1) = Ok (List.last l d).
Proof.
  intros Hne. destruct (snoc_cases l) as [-> | (l' & x & ->)]; [done|].
  by rewrite getitem_last, last_last.
Qed.

Lemma sorted_increasing (a : Z) (l : list Z) :
  increasing_from a l -> py.sorted (a :: l) = a :: l.
Proof.
  revert a. induction l as [|b l IH]; intros a H; [done|].
  destruct H as [Hab H].
  change (py.sorted (a :: b :: l)) with (py.insert_sorted a (py.sorted (b :: l))).
  rewrite (IH b H). simpl.
  destruct (a <=? b) eqn:E; [done|lia].
Qed.

Lemma increasing_nondecreasing (a : Z) (l : list Z) :
  increasing_from a l -> nondecreasing_from a l.
Proof.
  revert a. induction l as [|x l IH]; intros a H; [done|].
  destruct H as [Hax H]. split; [lia|by apply IH].
Qed.

(** What the preprocessing hands over on a strictly increasing list of
    non-negative numbers. *)
Lemma delta_encode_facts (s0 s1 : Z) (rest : list Z) :
  0 <= s0 -> increasing_from s0 (s1 :: rest) ->
  exists first n0 ns,
    eliasfanoencoder.delta_encode_since_min (s0 :: s1 :: rest)
      = Ok (first :: n0 :: ns) /\
    0 <= first /\ 0 <= n0 /\ increasing_from n0 ns /\
    py.len (n0 :: ns) = py.len (s0 :: s1 :: rest) /\
    eliasfanoencoder.delta_decode_since_min (first :: n0 :: ns)
      = Ok (s0 :: s1 :: rest).
Proof.
  intros Hs0 [Hs1 Hrest]. rewrite delta_encode_run.
  destruct (s0 =? 0) eqn:E.
  - assert (s0 = 0) as -> by lia. do 3 eexists. split; [done|].
    split; [lia|]. split; [lia|]. split; [by split|]. split; [done|].
    rewrite delta_decode_run. simpl. do 3 f_equal.
    rewrite <- (list_fmap_id rest) at 2. apply list_fmap_ext. by intros i y _.
  - do 3 eexists. split; [done|].
    split; [lia|]. split; [lia|]. split.
    { split; [lia|].
      replace s1 with (s1 - s0 + s0) in Hrest by lia.
      apply (increasing_from_shift s0) in Hrest.
      by replace (s1 - s0 + s0 - s0) with (s1 - s0) in Hrest by lia. }
    split.
    { unfold py.len. simpl length. rewrite length_fmap. lia. }
    rewrite delta_decode_run.
    replace (s0 - Z.min (s1 - s0 - 1) (s0 - 1) + Z.min (s1 - s0 - 1) (s0 - 1))
      with s0 by lia.
    simpl. f_equal. f_equal. f_equal; [lia|].
    rewrite <- list_fmap_compose.
    rewrite <- (list_fmap_id rest) at 2. apply list_fmap_ext.
    intros i y _. simpl. lia.
Qed.

(** [decode] of a standard frame. *)
Lemma decode_standard_frame (first l n0 : Z) (ns body bytes : list Z) :
  let numbers := n0 :: ns in
  let lowers := (fun n => Z.land n (2 ^ l - 1)) <$> numbers in
  let gaps := diffs 0 ((fun n => Z.shiftr n l) <$> numbers) in
  let vb := body ++ [Z.land first 127 + 128] in
  1 <= l <= 32 -> 0 <= n0 -> nondecreasing_from n0 ns -> ns <> [] ->
  Forall (fun x => 0 <= x < 128) body -> 0 <= Z.land first 127 < 128 ->
  Z.shiftl (vb_value 0 body) 7 + Z.land first 127 = first ->
  words_ok 8 bytes ->
  py.len bytes = (l * py.len numbers + unary_bits gaps + 7) / 8 ->
  fields_at bytes 0 l lowers -> unary_at bytes (l * py.len numbers) gaps ->
  eliasfanoencoder.decode (vb ++ [l] ++ bytes) (py.len numbers)
    = eliasfanoencoder.delta_decode_since_min ([first] ++ numbers).
Proof.
  intros numbers lowers gaps vb Hl Hn0 Hns Hne Hbody Hd Hval Hok Hlen Hfields Hcodes.
  assert (2 <= py.len numbers) as Hnums.
  { unfold numbers, py.len. destruct ns; [done|]. simpl length. lia. }
  assert (Forall (fun g => 0 <= g) gaps) as Hgaps0.
  { unfold gaps, numbers. simpl. rewrite Z.sub_0_r.
    constructor; [apply Z.shiftr_nonneg; lia|].
    apply diffs_nonneg. apply nondecreasing_shiftr; [lia|done]. }
  pose proof (unary_bits_nonneg gaps Hgaps0) as HU0.
  assert (0 <= l * py.len numbers) as HL by (apply Z.mul_nonneg_nonneg; lia).
  assert (words_ok 8 (vb ++ [l] ++ bytes)) as Hok_enc.
  { apply Forall_app. split; [apply Forall_app; split|apply Forall_app; split].
    - eapply Forall_impl; [|exact Hbody]. simpl. intros x Hx.
      change (2 ^ 8) with 256. lia.
    - constructor; [|constructor]. change (2 ^ 8) with 256. lia.
    - constructor; [|constructor]. change (2 ^ 8) with 256. lia.
    - done. }
  assert (py.len (vb ++ [l] ++ bytes) = py.len vb + 1 + py.len bytes) as Hlen_enc.
  { rewrite !len_app. change (py.len [l]) with 1. lia. }
  assert (py.len vb = py.len body + 1) as Hlen_vb.
  { unfold vb. rewrite len_app. reflexivity. }
  pose proof (len_nonneg body) as Hbody0.
  unfold eliasfanoencoder.decode.
  destruct (py.len numbers =? 1) eqn:E1; [lia|].
  (* the first number *)
  assert (vbencoder.decode_number (vb ++ [l] ++ bytes) 0
          = Ok (first, 8 * py.len vb)) as ->.
  { replace (vb ++ [l] ++ bytes)
      with ([] ++ body ++ (Z.land first 127 + 128) :: ([l] ++ bytes))
      by (unfold vb; by rewrite <- app_assoc).
    unfold vbencoder.decode_number. change (Z.shiftr 0 3) with (py.len (@nil Z)).
    rewrite (vb_decode_number_loop body [] ([l] ++ bytes) 0) by (done || lia).
    rewrite bind_Ok. f_equal. f_equal; [lia|].
    change (py.len []) with 0. lia. }
  rewrite bind_Ok. cbv beta iota.
  (* the header byte *)
  assert (py.getitem (vb ++ [l] ++ bytes) (Z.shiftr (8 * py.len vb) 3) = Ok l) as ->.
  { rewrite Z.shiftr_div_pow2 by lia. change (2 ^ 3) with 8.
    rewrite Z.mul_comm, Z.div_mul by lia. apply getitem_middle. }
  rewrite bind_Ok. cbv zeta.
  destruct (l =? 255) eqn:E2; [lia|].
  unfold eliasfanoencoder.decode_standard.
  destruct (decode_standard_loop (vb ++ [l] ++ bytes) l Hok_enc ltac:(lia)
              lowers gaps (py.range 0 (py.len numbers)) [first] 0
              (8 * py.len vb + 8) (8 * py.len vb + 8 + l * py.len numbers))
    as (delta' & lo' & uo' & Hrun).
  - unfold py.range, lowers, py.len.
    rewrite length_seqZ, length_fmap. lia.
  - unfold gaps, lowers. by rewrite diffs_length, !length_fmap.
  - unfold lowers. apply Forall_fmap, Forall_true. intros n. simpl.
    rewrite land_mask_mod by lia. apply Z.mod_pos_bound.
    apply Z.pow_pos_nonneg; lia.
  - done.
  - lia.
  - lia.
  - replace (vb ++ [l] ++ bytes) with ((vb ++ [l]) ++ bytes) by (by rewrite <- app_assoc).
    replace (8 * py.len vb + 8) with (8 * py.len (vb ++ [l]) + 0)
      by (rewrite len_app; change (py.len [l]) with 1; lia).
    apply fields_at_shift; [lia|lia|done].
  - replace (vb ++ [l] ++ bytes) with ((vb ++ [l]) ++ bytes) by (by rewrite <- app_assoc).
    replace (8 * py.len vb + 8 + l * py.len numbers)
      with (8 * py.len (vb ++ [l]) + l * py.len numbers)
      by (rewrite len_app; change (py.len [l]) with 1; lia).
    apply unary_at_shift; [lia|done|done].
  - assert (py.len lowers = py.len numbers) as ->
      by (unfold lowers, py.len; by rewrite length_fmap).
    rewrite Hlen_enc, Hlen. Z.div_mod_to_equations. lia.
  - rewrite Hlen_enc, Hlen. Z.div_mod_to_equations. lia.
  - etrans; [apply (f_equal (fun r => r ≫= _)); exact Hrun|].
    rewrite bind_Ok. cbv beta iota.
    unfold lowers, gaps. by rewrite ef_values_spec by lia.
Qed.

(** The bits that the unary codes of the upper parts take. *)
Definition ef_upper_bits (l : Z) (numbers : list Z) : Z :=
  unary_bits (diffs 0 ((fun n => Z.shiftr n l) <$> numbers)).

(** The standard branch: the list is sparse and the count [l] of lower
    bits is between 1 and 32. *)
Lemma ef_standard_roundtrip (log2_ceil : Z -> Z -> Z)
    (s0 s1 : Z) (rest : list Z) (first : Z) (numbers : list Z) :
  let l := log2_ceil (List.last numbers 0) (py.len numbers) in
  let used := l * py.len numbers + ef_upper_bits l numbers in
  0 <= s0 -> increasing_from s0 (s1 :: rest) ->
  eliasfanoencoder.delta_encode_since_min (s0 :: s1 :: rest)
    = Ok (first :: numbers) ->
  py.len numbers <= Z.shiftr (List.last numbers 0) 2 ->
  1 <= l <= 32 ->
  exists vb payload,
    vbencoder.encode first = Ok vb /\
    eliasfanoencoder.encode log2_ceil (s0 :: s1 :: rest)
      = Ok (vb ++ [l] ++ payload, (- used) `mod` 8) /\
    py.len payload = (used + 7) / 8 /\
    eliasfanoencoder.decode (vb ++ [l] ++ payload) (py.len (s0 :: s1 :: rest))
      = Ok (s0 :: s1 :: rest) /\
    words_ok 8 payload /\
    fields_at payload 0 l ((fun n => Z.land n (2 ^ l - 1)) <$> numbers) /\
    unary_at payload (l * py.len numbers)
      (diffs 0 ((fun n => Z.shiftr n l) <$> numbers)) /\
    forall p, used <= p -> bit 8 payload p = false.
Proof.
  intros l used Hs0 Hinc Hpre Hsparse Hl.
  destruct (delta_encode_facts s0 s1 rest Hs0 Hinc)
    as (first' & n0 & ns & Hpre' & Hfirst & Hn0 & Hns & Hlen & Hdec).
  rewrite Hpre in Hpre'. injection Hpre' as -> ->.
  assert (ns <> []) as Hne.
  { intros ->. unfold py.len in Hlen. simpl in Hlen. lia. }
  apply increasing_nondecreasing in Hns.
  destruct (encode_standard_spec log2_ceil first' n0 ns
              (List.last (n0 :: ns) 0) (py.len (n0 :: ns)) Hl Hfirst Hn0 Hns)
    as (vb & bytes & Henc & Hvb & Hok & Hlenb & Hfields & Hcodes & Hclear).
  fold l in Henc, Hlenb, Hfields, Hcodes, Hclear.
  destruct (vb_encode_run first' Hfirst) as (body & Hvb' & Hbody & Hd & Hval).
  rewrite Hvb' in Hvb. injection Hvb as <-.
  exists (body ++ [Z.land first' 127 + 128]), bytes.
  split; [exact Hvb'|]. split; [|split; [exact Hlenb|split]].
  - unfold eliasfanoencoder.encode.
    destruct (py.len (s0 :: s1 :: rest) =? 1) eqn:E.
    { unfold py.len in E. simpl length in E. lia. }
    rewrite (sorted_increasing s0 (s1 :: rest) Hinc), Hpre, bind_Ok.
    cbn [py.pop0]. rewrite bind_Ok. cbv beta iota.
    rewrite (getitem_last_default (n0 :: ns) 0) by done. rewrite bind_Ok.
    cbv zeta.
    destruct (py.len (n0 :: ns) >? Z.shiftr (List.last (n0 :: ns) 0) 2) eqn:E2;
      [lia|].
    exact Henc.
  - rewrite <- Hlen, <- Hdec.
    apply (decode_standard_frame first' l n0 ns body bytes); done.
  - split; [exact Hok|]. split; [exact Hfields|]. split; [exact Hcodes|].
    exact Hclear.
Qed.

(** ** eliasfanoencoder: the characteristic bit vector *)

Lemma bv_mask (r : Z) :
  0 <= r <= 7 -> eliasfanoencoder.BV_MASKS r = Ok (2 ^ (7 - r)).
Proof.
  intros Hr. unfold eliasfanoencoder.BV_MASKS.
  destruct ((0 <=? r) && (r <=? 7)) eqn:E; [|lia].
  f_equal. change 128 with (2 ^ 7).
  rewrite Z.shiftr_div_pow2 by lia. rewrite <- Z.pow_sub_r by lia. reflexivity.
Qed.

Lemma increasing_bounds (a m : Z) (l : list Z) :
  increasing_from a (l ++ [m]) -> Forall (fun x => a < x <= m) (l ++ [m]).
Proof.
  revert a. induction l as [|x l IH]; intros a H.
  - destruct H as [Ham _]. constructor; [lia|constructor].
  - destruct H as [Hax H]. specialize (IH x H). simpl.
    assert (x <= m) as Hxm.
    { apply Forall_app in IH as [_ IH]. apply Forall_cons_1 in IH as [Hm _]. lia. }
    constructor; [lia|].
    eapply Forall_impl; [|exact IH]. simpl. lia.
Qed.

(** The elements of [l] before the first one that is not below [N]. *)
Fixpoint take_below (N : Z) (l : list Z) : list Z :=
  match l with
  | [] => []
  | x :: l' => if x <? N then x :: take_below N l' else []
  end.

(** For each position from [base] on, [m] of them, the position when it
    is in [numbers]. *)
Fixpoint present (numbers : list Z) (base : Z) (m : nat) : list Z :=
  match m with
  | O => []
  | S m' => (if existsb (Z.eqb base) numbers then [base] else [])
            ++ present numbers (base + 1) m'
  end.

Lemma existsb_above (N a : Z) (l : list Z) :
  N <= a -> increasing_from a l -> existsb (Z.eqb N) l = false.
Proof.
  revert a. induction l as [|x l IH]; intros a Ha H; [done|].
  destruct H as [Hax H]. simpl. rewrite (IH x) by (lia || done).
  destruct (N =? x) eqn:E; [lia|done].
Qed.

Lemma take_below_above (N a : Z) (l : list Z) :
  N <= a + 1 -> increasing_from a l -> take_below N l = [].
Proof.
  intros Ha H. destruct l as [|x l]; [done|]. destruct H as [Hax _]. simpl.
  destruct (x <? N) eqn:E; [lia|done].
Qed.

Lemma take_below_succ (N a : Z) (l : list Z) :
  increasing_from a l ->
  take_below (N + 1) l =
    take_below N l ++ (if existsb (Z.eqb N) l then [N] else []).
Proof.
  revert a. induction l as [|x l IH]; intros a H; [done|].
  destruct H as [Hax H]. simpl.
  destruct (x <? N) eqn:E1.
  - destruct (x <? N + 1) eqn:E2; [|lia].
    destruct (N =? x) eqn:E3; [lia|]. simpl. by rewrite (IH x H).
  - destruct (N =? x) eqn:E3.
    + assert (x = N) as -> by lia.
      destruct (N <? N + 1) eqn:E2; [|lia].
      rewrite (take_below_above (N + 1) N l) by (lia || done). done.
    + destruct (x <? N + 1) eqn:E2; [lia|].
      rewrite (existsb_above N x l) by (lia || done). done.
Qed.

Lemma take_below_present (a : Z) (l : list Z) (m : nat) (P : Z) :
  increasing_from a l ->
  take_below (P + Z.of_nat m) l = take_below P l ++ present l P m.
Proof.
  intros H. revert P. induction m as [|m IH]; intros P.
  - simpl. by rewrite Z.add_0_r, app_nil_r.
  - replace (P + Z.of_nat (S m)) with (P + 1 + Z.of_nat m) by lia.
    rewrite IH, (take_below_succ P a l H). simpl. by rewrite <- app_assoc.
Qed.

Lemma take_below_all (N : Z) (l : list Z) :
  Forall (fun x => x < N) l -> take_below N l = l.
Proof.
  induction 1 as [|x l Hx _ IH]; [done|]. simpl.
  destruct (x <? N) eqn:E; [|lia]. by rewrite IH.
Qed.

Lemma present_app (numbers : list Z) (base : Z) (m1 m2 : nat) :
  present numbers base (m1 + m2)
    = present numbers base m1 ++ present numbers (base + Z.of_nat m1) m2.
Proof.
  revert base. induction m1 as [|m1 IH]; intros base.
  - simpl. by rewrite Z.add_0_r.
  - simpl. rewrite IH, <- app_assoc. do 3 f_equal. lia.
Qed.

Lemma present_full (numbers : list Z) (m : nat) (base : Z) :
  (forall r, 0 <= r < Z.of_nat m -> existsb (Z.eqb (base + r)) numbers = true) ->
  present numbers base m = seqZ base (Z.of_nat m).
Proof.
  revert base. induction m as [|m IH]; intros base H; [done|].
  simpl present.
  assert (existsb (Z.eqb base) numbers = true) as ->.
  { rewrite <- (Z.add_0_r base). apply H. lia. }
  replace (Z.of_nat (S m)) with (Z.succ (Z.of_nat m)) by lia.
  rewrite seqZ_cons by lia. simpl. f_equal.
  replace (Z.pred (Z.succ (Z.of_nat m))) with (Z.of_nat m) by lia.
  replace (Z.succ base) with (base + 1) by lia.
  apply IH. intros r Hr. replace (base + 1 + r) with (base + (r + 1)) by lia.
  apply H. lia.
Qed.

(** [bv_encode]: bit [p] of the vector is set exactly when [p] is one of
    the numbers. *)
Lemma bv_encode_spec (init : list Z) (max : Z) :
  Forall (fun x => 0 <= x <= max) (init ++ [max]) ->
  exists enc,
    eliasfanoencoder.bv_encode (init ++ [max])
      = Ok (enc, (- (max + 1)) `mod` 8) /\
    words_ok 8 enc /\ py.len enc = (max + 8) / 8 /\
    forall p, 0 <= p -> bit 8 enc p = existsb (Z.eqb p) (init ++ [max]).
Proof.
  intros Hrange. unfold eliasfanoencoder.bv_encode.
  rewrite getitem_last, bind_Ok.
  assert (0 <= max) as Hmax.
  { apply Forall_app in Hrange as [_ H]. apply Forall_cons_1 in H as [H _]. lia. }
  unfold py.ceil_div. replace (max + 1 + 8 - 1) with (max + 8) by lia.
  assert (0 < (max + 8) / 8) as Hsize by (Z.div_mod_to_equations; lia).
  destruct ((max + 8) / 8 <? 0) eqn:E; [lia|].
  destruct (for_each_inv (init ++ [max])
    (fun encoded number =>
       old ← py.getitem encoded (Z.shiftr number 3);
       mask ← eliasfanoencoder.BV_MASKS (Z.land number 7);
       py.bytearray_setitem encoded (Z.shiftr number 3) (Z.lor old mask))
    (fun pre enc =>
       words_ok 8 enc /\ py.len enc = (max + 8) / 8 /\
       forall p, 0 <= p -> bit 8 enc p = existsb (Z.eqb p) pre)
    (replicate (Z.to_nat ((max + 8) / 8)) 0))
    as (enc & Hrun & Hok & Hlen & Hbits).
  { split; [apply words_ok_zero; lia|]. split; [rewrite len_replicate; lia|].
    intros p _. apply bit_zero_array. }
  { intros pre x suf enc Heq (Hok & Hlen & Hbits).
    assert (0 <= x <= max) as Hx.
    { rewrite Heq in Hrange. apply Forall_app in Hrange as [_ H].
      by apply Forall_cons_1 in H as [H _]. }
    rewrite Z.shiftr_div_pow2 by lia. change (2 ^ 3) with 8.
    change 7 with (Z.ones 3). rewrite Z.land_ones by lia. change (2 ^ 3) with 8.
    assert (0 <= x `mod` 8 < 8) as Hr by (apply Z.mod_pos_bound; lia).
    assert (0 <= x / 8 < py.len enc) as Hidx
      by (rewrite Hlen; Z.div_mod_to_equations; lia).
    rewrite (getitem_word enc (x / 8)) by done. rewrite bind_Ok.
    rewrite bv_mask, bind_Ok by lia.
    pose proof (word_bounds 8 enc (x / 8) ltac:(lia) Hok) as Hold.
    set (new := Z.lor (word enc (x / 8)) (2 ^ (7 - x `mod` 8))).
    assert (forall j, 0 <= j ->
              Z.testbit new j = Z.testbit (word enc (x / 8)) j || (7 - x `mod` 8 =? j))
      as Hnew.
    { intros j Hj. unfold new. rewrite Z.lor_spec, Z.pow2_bits_eqb by lia. done. }
    assert (0 <= new < 2 ^ 8) as Hnew_range.
    { split.
      - unfold new. apply Z.lor_nonneg. split; [lia|]. apply Z.pow_nonneg. lia.
      - apply lt_pow2_of_bits; [|lia|].
        + unfold new. apply Z.lor_nonneg. split; [lia|]. apply Z.pow_nonneg. lia.
        + intros j Hj. rewrite Hnew by lia.
          rewrite (testbit_above _ 8) by (done || lia).
          destruct (7 - x `mod` 8 =? j) eqn:E2; [lia|done]. }
    unfold py.bytearray_setitem. change (2 ^ 8) with 256 in Hnew_range.
    destruct ((new <? 0) || (255 <? new)) eqn:E2; [lia|].
    rewrite setitem_nonneg by done.
    eexists. split; [reflexivity|].
    split; [apply words_ok_insert; [done|change (2 ^ 8) with 256; lia]|].
    split; [by rewrite len_insert|].
    intros p Hp. rewrite bit_insert by (done || lia).
    rewrite existsb_app. simpl existsb. rewrite orb_false_r.
    destruct (p / 8 =? x / 8) eqn:E3.
    - rewrite Hnew by (Z.div_mod_to_equations; lia).
      rewrite <- Hbits by done. unfold bit.
      replace (p / 8) with (x / 8) by lia. f_equal.
      destruct (p =? x) eqn:E4; destruct (7 - x `mod` 8 =? 8 - 1 - p `mod` 8) eqn:E5;
        try done; Z.div_mod_to_equations; lia.
    - rewrite Hbits by done.
      destruct (p =? x) eqn:E4; [exfalso|by rewrite orb_false_r].
      assert (p = x) as -> by lia. lia. }
  rewrite Hrun, bind_Ok. exists enc. split; [|done].
  do 2 f_equal. change 7 with (Z.ones 3). rewrite Z.land_ones by lia.
  change (2 ^ 3) with 8. unfold py.int_of_bool.
  destruct (8 - (max + 1) `mod` 8 <? 8) eqn:E8; Z.div_mod_to_equations; lia.
Qed.

(** The bits of a byte that are set, from bit index [r] on, as numbers
    counted from [number]. *)
Fixpoint set_bits (byte number : Z) (rs : list Z) : list Z :=
  match rs with
  | [] => []
  | r :: rs' => (if Z.testbit byte (7 - r) then [number] else [])
                ++ set_bits byte (number + 1) rs'
  end.

(** The [for readed_bit in range(bit_index, 8)] loop of [bv_decode]. *)
Lemma bv_inner_loop (enc : list Z) (A byte : Z) (rs : list Z) :
  py.getitem enc A = Ok byte -> Forall (fun r => 0 <= r <= 7) rs ->
  forall (decoded : list Z) (number : Z),
    py.for_each rs
      (fun '(decoded, number) readed_bit =>
         byte ← py.getitem enc A;
         mask ← eliasfanoencoder.BV_MASKS readed_bit;
         if Z.land byte mask =? 0 then Ok (decoded, number + 1)
         else Ok (decoded ++ [number], number + 1))
      (decoded, number)
    = Ok (decoded ++ set_bits byte number rs, number + py.len rs).
Proof.
  intros Hbyte Hrs. induction Hrs as [|r rs Hr _ IH]; intros decoded number.
  - rewrite for_each_nil. simpl. change (py.len []) with 0.
    by rewrite app_nil_r, Z.add_0_r.
  - rewrite for_each_cons. set (rest := py.for_each rs _).
    rewrite Hbyte, bind_Ok, bv_mask, bind_Ok by done.
    rewrite land_pow2 by lia. subst rest.
    assert (0 < 2 ^ (7 - r)) by (apply Z.pow_pos_nonneg; lia).
    assert (py.len (r :: rs) = py.len rs + 1) as ->
      by (unfold py.len; simpl length; lia).
    simpl set_bits.
    destruct (Z.testbit byte (7 - r)) eqn:E.
    + destruct (2 ^ (7 - r) =? 0) eqn:E2; [lia|].
      rewrite bind_Ok, IH, <- app_assoc. do 2 f_equal. lia.
    + change (0 =? 0) with true. cbv iota.
      rewrite bind_Ok, IH. simpl. do 2 f_equal. lia.
Qed.

Lemma set_bits_present (byte base : Z) (numbers : list Z) :
  (forall r, 0 <= r <= 7 ->
     Z.testbit byte (7 - r) = existsb (Z.eqb (base + r)) numbers) ->
  forall (m : nat) (r0 : Z),
    0 <= r0 -> r0 + Z.of_nat m <= 8 ->
    set_bits byte (base + r0) (seqZ r0 (Z.of_nat m))
      = present numbers (base + r0) m.
Proof.
  intros Hbits. induction m as [|m IH]; intros r0 Hr0 Hm; [done|].
  replace (Z.of_nat (S m)) with (Z.succ (Z.of_nat m)) by lia.
  rewrite seqZ_cons by lia. simpl.
  replace (Z.pred (Z.succ (Z.of_nat m))) with (Z.of_nat m) by lia.
  rewrite Hbits by lia. f_equal.
  replace (Z.succ r0) with (r0 + 1) by lia.
  replace (base + r0 + 1) with (base + (r0 + 1)) by lia.
  apply IH; lia.
Qed.

(** The [while number < max_number] loop of [bv_decode] from a byte
    boundary on: it appends the positions of the set bits. *)
Lemma bv_decode_loop_spec (pre bv numbers : list Z) :
  words_ok 8 bv ->
  (forall p, 0 <= p -> bit 8 bv p = existsb (Z.eqb p) numbers) ->
  forall (m fuel : nat) (k : Z) (decoded : list Z),
    0 <= k -> k + Z.of_nat m = py.len bv -> (m <= fuel)%nat ->
    eliasfanoencoder.bv_decode_loop fuel (pre ++ bv) (8 * py.len bv) decoded
      (py.len pre + k) 0 (8 * k)
    = Ok (decoded ++ present numbers (8 * k) (8 * m)).
Proof.
  intros Hok Hbits. induction m as [|m IH]; intros fuel k decoded Hk Hsum Hfuel.
  - assert ((8 * k <? 8 * py.len bv) = false) as E by lia.
    destruct fuel; simpl; rewrite E; by rewrite app_nil_r.
  - destruct fuel as [|fuel]; [lia|]. cbn [eliasfanoencoder.bv_decode_loop].
    destruct (8 * k <? 8 * py.len bv) eqn:E; [|lia].
    assert (py.getitem (pre ++ bv) (py.len pre + k) = Ok (word bv k)) as Hbyte.
    { pose proof (len_nonneg pre).
      destruct (getitem_in_range bv k ltac:(lia)) as (x & _ & Hx).
      unfold word. rewrite Hx. simpl.
      apply getitem_nonneg; [lia|].
      rewrite lookup_app_r by (unfold py.len; lia).
      rewrite <- Hx. f_equal. unfold py.len. lia. }
    assert (forall r, 0 <= r <= 7 ->
              Z.testbit (word bv k) (7 - r) = existsb (Z.eqb (8 * k + r)) numbers)
      as Hbyte_bits.
    { intros r Hr. rewrite <- Hbits by lia. by rewrite bit_of_word by lia. }
    replace (8 * S m)%nat with (8 + 8 * m)%nat by lia.
    rewrite present_app. change (Z.of_nat 8) with 8.
    replace (8 * k + 8) with (8 * (k + 1)) by lia.
    set (inner := py.for_each (py.range 0 8) _ _).
    rewrite Hbyte, bind_Ok. subst inner.
    destruct (word bv k =? 255) eqn:E255.
    + replace (py.len pre + k + 1) with (py.len pre + (k + 1)) by lia.
      replace (8 * k + 8) with (8 * (k + 1)) by lia.
      rewrite IH by lia. rewrite <- app_assoc. do 3 f_equal.
      unfold py.range. replace (8 * (k + 1) - 8 * k) with (Z.of_nat 8) by lia.
      symmetry. apply present_full. intros r Hr.
      rewrite <- Hbyte_bits by lia.
      assert (word bv k = 255) as -> by lia.
      change 255 with (Z.ones 8). apply Z.ones_spec_low. lia.
    + rewrite (bv_inner_loop (pre ++ bv) (py.len pre + k) (word bv k)); try done.
      2:{ unfold py.range. apply Forall_lookup_2. intros i r Hr.
          apply lookup_seqZ in Hr. lia. }
      rewrite bind_Ok. cbv beta iota.
      replace (py.len pre + k + 1) with (py.len pre + (k + 1)) by lia.
      replace (8 * k + py.len (py.range 0 8)) with (8 * (k + 1))
        by (change (py.len (py.range 0 8)) with 8; lia).
      rewrite IH by lia. rewrite <- app_assoc. do 3 f_equal.
      pose proof (set_bits_present (word bv k) (8 * k) numbers Hbyte_bits 8 0
                    ltac:(lia) ltac:(lia)) as H.
      rewrite Z.add_0_r in H. exact H.
Qed.

(** [bv_decode] from a byte boundary returns the numbers of the vector. *)
Lemma bv_decode_spec (pre bv numbers : list Z) :
  words_ok 8 bv -> increasing_from (-1) numbers ->
  (forall p, 0 <= p -> bit 8 bv p = existsb (Z.eqb p) numbers) ->
  Forall (fun x => x < 8 * py.len bv) numbers ->
  eliasfanoencoder.bv_decode (pre ++ bv) (py.len numbers) (8 * py.len pre)
    = Ok numbers.
Proof.
  intros Hok Hinc Hbits Hbelow. unfold eliasfanoencoder.bv_decode.
  pose proof (len_nonneg pre) as Hpre. pose proof (len_nonneg bv) as Hbv.
  rewrite Z.shiftr_div_pow2 by lia. change (2 ^ 3) with 8.
  rewrite Z.mul_comm, Z.div_mul by lia.
  change 7 with (Z.ones 3). rewrite Z.land_ones by lia. change (2 ^ 3) with 8.
  rewrite Z.mod_mul by lia.
  rewrite slice_from_drop by done.
  replace (Z.to_nat (py.len pre)) with (length pre) by (unfold py.len; lia).
  rewrite drop_app_length.
  rewrite Z.shiftl_mul_pow2 by lia. change (2 ^ 3) with 8.
  rewrite (Z.mul_comm (py.len bv) 8).
  pose proof (bv_decode_loop_spec pre bv numbers Hok Hbits
                (Z.to_nat (py.len bv)) (S (Z.to_nat (8 * py.len bv))) 0 []
                ltac:(lia) ltac:(lia) ltac:(lia)) as Hrun.
  rewrite Z.add_0_r, Z.mul_0_r in Hrun. rewrite Hrun, bind_Ok.
  f_equal. simpl app.
  pose proof (take_below_present (-1) numbers (8 * Z.to_nat (py.len bv)) 0 Hinc) as Htake.
  rewrite (take_below_above 0 (-1) numbers) in Htake by (lia || done).
  simpl app in Htake. rewrite <- Htake.
  rewrite take_below_all.
  - rewrite slice_to_take by apply len_nonneg.
    unfold py.len. rewrite Nat2Z.id. apply firstn_all.
  - eapply Forall_impl; [|exact Hbelow]. simpl. lia.
Qed.

(** The bit-vector branch: the list is dense. *)
Lemma ef_dense_roundtrip (log2_ceil : Z -> Z -> Z)
    (s0 s1 : Z) (rest : list Z) (first : Z) (numbers : list Z) :
  let max := List.last numbers 0 in
  0 <= s0 -> increasing_from s0 (s1 :: rest) ->
  eliasfanoencoder.delta_encode_since_min (s0 :: s1 :: rest)
    = Ok (first :: numbers) ->
  Z.shiftr max 2 < py.len numbers ->
  exists vb payload,
    vbencoder.encode first = Ok vb /\
    eliasfanoencoder.encode log2_ceil (s0 :: s1 :: rest)
      = Ok (vb ++ [255] ++ payload, (- (max + 1)) `mod` 8) /\
    py.len payload = (max + 8) / 8 /\
    eliasfanoencoder.decode (vb ++ [255] ++ payload) (py.len (s0 :: s1 :: rest))
      = Ok (s0 :: s1 :: rest) /\
    words_ok 8 payload /\
    forall p, 0 <= p -> bit 8 payload p = existsb (Z.eqb p) numbers.
Proof.
  intros max0 Hs0 Hinc Hpre Hdense. unfold max0 in *. clear max0.
  destruct (delta_encode_facts s0 s1 rest Hs0 Hinc)
    as (first' & n0 & ns & Hpre' & Hfirst & Hn0 & Hns & Hlen & Hdec).
  rewrite Hpre in Hpre'. injection Hpre' as -> ->.
  assert (increasing_from (-1) (n0 :: ns)) as Hinc' by (split; [lia|done]).
  destruct (snoc_cases (n0 :: ns)) as [Hnil | (init & max & Heq)]; [done|].
  rewrite Heq in *. rewrite last_last in *.
  pose proof (increasing_bounds (-1) max init Hinc') as Hbounds.
  destruct (bv_encode_spec init max) as (bv & Hbv & Hok & Hlenbv & Hbits).
  { eapply Forall_impl; [|exact Hbounds]. simpl. lia. }
  destruct (vb_encode_run first' Hfirst) as (body & Hvb & Hbody & Hd & Hval).
  set (vb := body ++ [Z.land first' 127 + 128]) in *.
  assert (2 <= py.len (init ++ [max])) as Hnums.
  { rewrite Hlen. unfold py.len. simpl length. lia. }
  exists vb, bv.
  split; [exact Hvb|]. split; [|split; [exact Hlenbv|split; [|by split]]].
  - unfold eliasfanoencoder.encode.
    destruct (py.len (s0 :: s1 :: rest) =? 1) eqn:E.
    { unfold py.len in E. simpl length in E. lia. }
    rewrite (sorted_increasing s0 (s1 :: rest) Hinc), Hpre, bind_Ok.
    cbn [py.pop0]. rewrite bind_Ok. cbv beta iota.
    rewrite getitem_last, bind_Ok. cbv zeta.
    destruct (py.len (init ++ [max]) >? Z.shiftr max 2) eqn:E2; [|lia].
    unfold eliasfanoencoder.encode_bitvector.
    rewrite Hvb, bind_Ok, Hbv, bind_Ok. by rewrite <- app_assoc.
  - rewrite <- Hlen, <- Hdec.
    pose proof (len_nonneg body) as Hbody0.
    assert (py.len vb = py.len body + 1) as Hlen_vb.
    { unfold vb. rewrite len_app. reflexivity. }
    unfold eliasfanoencoder.decode.
    destruct (py.len (init ++ [max]) =? 1) eqn:E1; [lia|].
    assert (vbencoder.decode_number (vb ++ [255] ++ bv) 0
            = Ok (first', 8 * py.len vb)) as ->.
    { replace (vb ++ [255] ++ bv)
        with ([] ++ body ++ (Z.land first' 127 + 128) :: ([255] ++ bv))
        by (unfold vb; by rewrite <- !app_assoc).
      unfold vbencoder.decode_number.
      change (Z.shiftr 0 3) with (py.len (@nil Z)).
      rewrite (vb_decode_number_loop body [] ([255] ++ bv) 0) by (done || lia).
      rewrite bind_Ok. f_equal. f_equal; [lia|].
      change (py.len []) with 0. lia. }
    rewrite bind_Ok. cbv beta iota.
    assert (py.getitem (vb ++ [255] ++ bv) (Z.shiftr (8 * py.len vb) 3) = Ok 255) as ->.
    { rewrite Z.shiftr_div_pow2 by lia. change (2 ^ 3) with 8.
      rewrite Z.mul_comm, Z.div_mul by lia. apply getitem_middle. }
    rewrite bind_Ok. cbv zeta. change (255 =? 255) with true. cbv iota.
    unfold eliasfanoencoder.decode_bitvector.
    replace (8 * py.len vb + 8) with (8 * py.len (vb ++ [255]))
      by (rewrite len_app; change (py.len [255]) with 1; lia).
    rewrite app_assoc.
    rewrite bv_decode_spec; try done.
    rewrite Hlenbv. eapply Forall_impl; [|exact Hbounds]. simpl.
    intros x Hx. Z.div_mod_to_equations. lia.
Qed.

(** X17: Elias-Fano round trip.  Let [S] be a strictly increasing list of
    two or more non-negative numbers, and [first :: numbers] what the delta
    preprocessing makes of it.  When the list is dense
    ([len(numbers) > max >> 2], the bit-vector branch), or when it is
    sparse and the count [l] of lower bits that the floating-point
    expression gives is between 1 and 32, [encode] returns and [decode] of
    its bytes with [len(S)] returns [S].  A list of one non-negative number
    round-trips through its Variable Byte code. *)
Theorem elias_fano_roundtrip (log2_ceil : Z -> Z -> Z)
    (s0 s1 : Z) (rest : list Z) (first : Z) (numbers : list Z) :
  0 <= s0 -> increasing_from s0 (s1 :: rest) ->
  eliasfanoencoder.delta_encode_since_min (s0 :: s1 :: rest)
    = Ok (first :: numbers) ->
  (py.len numbers <= Z.shiftr (List.last numbers 0) 2 ->
   1 <= log2_ceil (List.last numbers 0) (py.len numbers) <= 32) ->
  (exists bytes padding,
     eliasfanoencoder.encode log2_ceil (s0 :: s1 :: rest) = Ok (bytes, padding) /\
     eliasfanoencoder.decode bytes (py.len (s0 :: s1 :: rest))
       = Ok (s0 :: s1 :: rest)) /\
  (exists bytes,
     eliasfanoencoder.encode log2_ceil [s0] = Ok (bytes, 0) /\
     eliasfanoencoder.decode bytes 1 = Ok [s0]).
Proof.
  intros Hs0 Hinc Hpre Hl. split.
  - destruct (Z.le_gt_cases (py.len numbers) (Z.shiftr (List.last numbers 0) 2))
      as [Hsparse | Hdense].
    + destruct (ef_standard_roundtrip log2_ceil s0 s1 rest first numbers)
        as (vb & payload & _ & Henc & _ & Hdec & _); auto.
      eauto.
    + destruct (ef_dense_roundtrip log2_ceil s0 s1 rest first numbers)
        as (vb & payload & _ & Henc & _ & Hdec & _); auto.
      eauto.
  - destruct (vb_encode_run s0 Hs0) as (body & Hvb & Hbody & Hd & Hval).
    eexists. split.
    + unfold eliasfanoencoder.encode. change (py.len [s0] =? 1) with true.
      cbv iota. change (py.getitem [s0] 0) with (Ok s0 : result Z).
      rewrite bind_Ok, Hvb, bind_Ok. reflexivity.
    + unfold eliasfanoencoder.decode. change (1 =? 1) with true. cbv iota.
      f_equal. rewrite vb_decode_fold, foldl_app.
      rewrite vb_step_digits by done. simpl.
      destruct (Z.land s0 127 + 128 >? 127) eqn:E; [|lia].
      simpl. f_equal. lia.
Qed.

Lemma elias_fano_roundtrip_witness :
  (exists bytes padding,
     eliasfanoencoder.encode (fun m s => Z.log2_up (m / s)) (3 :: 40 :: [100; 1000])
       = Ok (bytes, padding) /\
     eliasfanoencoder.decode bytes (py.len (3 :: 40 :: [100; 1000]))
       = Ok (3 :: 40 :: [100; 1000])) /\
  (exists bytes,
     eliasfanoencoder.encode (fun m s => Z.log2_up (m / s)) [3] = Ok (bytes, 0) /\
     eliasfanoencoder.decode bytes 1 = Ok [3]).
Proof.
  apply (elias_fano_roundtrip (fun m s => Z.log2_up (m / s))
           3 40 [100; 1000] 1 [2; 37; 97; 997]).
  - lia.
  - simpl. lia.
  - reflexivity.
  - intros _. vm_compute. split; discriminate.
Defined.

(** X18: the Elias-Fano frame.  For the same lists, the bytes that
    [encode] returns are the Variable Byte code of the first value of the
    preprocessing, one header byte, and the payload.  On a dense list the
    header is 255 and the payload is the bit vector, [(max + 8) / 8] bytes
    in which bit [p] is set exactly when [p] is one of the numbers.  On a
    sparse list the header is the count [l] of lower bits and the payload
    holds the [l] low bits of each number, one after the other, then the
    unary codes of the gaps of the upper parts, then clear bits.  The
    padding returned is the count of unused bits of the last byte. *)
Theorem elias_fano_frame (log2_ceil : Z -> Z -> Z)
    (s0 s1 : Z) (rest : list Z) (first : Z) (numbers : list Z) :
  let max := List.last numbers 0 in
  let l := log2_ceil max (py.len numbers) in
  let used := l * py.len numbers + ef_upper_bits l numbers in
  0 <= s0 -> increasing_from s0 (s1 :: rest) ->
  eliasfanoencoder.delta_encode_since_min (s0 :: s1 :: rest)
    = Ok (first :: numbers) ->
  (py.len numbers <= Z.shiftr max 2 -> 1 <= l <= 32) ->
  exists vb payload,
    vbencoder.encode first = Ok vb /\
    words_ok 8 payload /\
    if py.len numbers >? Z.shiftr max 2
    then eliasfanoencoder.encode log2_ceil (s0 :: s1 :: rest)
           = Ok (vb ++ [255] ++ payload, (- (max + 1)) `mod` 8) /\
         py.len payload = (max + 8) / 8 /\
         (forall p, 0 <= p -> bit 8 payload p = existsb (Z.eqb p) numbers)
    else eliasfanoencoder.encode log2_ceil (s0 :: s1 :: rest)
           = Ok (vb ++ [l] ++ payload, (- used) `mod` 8) /\
         py.len payload = (used + 7) / 8 /\
         fields_at payload 0 l ((fun n => Z.land n (2 ^ l - 1)) <$> numbers) /\
         unary_at payload (l * py.len numbers)
           (diffs 0 ((fun n => Z.shiftr n l) <$> numbers)) /\
         (forall p, used <= p -> bit 8 payload p = false).
Proof.
  intros max l used Hs0 Hinc Hpre Hl.
  destruct (py.len numbers >? Z.shiftr max 2) eqn:E.
  - destruct (ef_dense_roundtrip log2_ceil s0 s1 rest first numbers)
      as (vb & payload & Hvb & Henc & Hlen & _ & Hok & Hbits); auto;
      [unfold max in E; lia|].
    exists vb, payload. auto.
  - destruct (ef_standard_roundtrip log2_ceil s0 s1 rest first numbers)
      as (vb & payload & Hvb & Henc & Hlen & _ & Hok & Hfields & Hcodes & Hclear);
      auto; [unfold max in E; lia|apply Hl; lia|].
    exists vb, payload. repeat split; auto.
Qed.

Lemma elias_fano_frame_witness :
  exists vb payload,
    vbencoder.encode 1 = Ok vb /\
    words_ok 8 payload /\
    eliasfanoencoder.encode (fun m s => Z.log2_up (m / s)) (3 :: 40 :: [100; 1000])
      = Ok (vb ++ [8] ++ payload, 1) /\
    py.len payload = 5 /\
    fields_at payload 0 8 [2; 37; 97; 229] /\
    unary_at payload 32 [0; 0; 0; 3] /\
    (forall p, 39 <= p -> bit 8 payload p = false).
Proof.
  apply (elias_fano_frame (fun m s => Z.log2_up (m / s))
           3 40 [100; 1000] 1 [2; 37; 97; 997]).
  - lia.
  - simpl. lia.
  - reflexivity.
  - intros _. vm_compute. split; discriminate.
Defined.

(** ** bitutils: what a read returns *)

(** X15: a read returns the number whose binary digits, most significant
    first, are the bits [offset .. offset + bits - 1] of the array seen as
    one bit string, whatever bits an array of words of that size holds (no
    bit needs to be clear): the 8-bit routine for every
    width that the array has room for, the 32-bit routine for every width
    that exceeds by at most 32 the bits left in the word the offset points
    into (two words are read, never a third). *)
Theorem read_binary_bits (arr : list Z) (off bits : Z) :
  0 <= off ->
  (words_ok 8 arr -> 0 <= bits -> off + bits <= 8 * py.len arr ->
   exists v,
     bitutils.read_binary_from_barray arr off bits = Ok v /\
     0 <= v < 2 ^ bits /\
     forall j, 0 <= j < bits -> Z.testbit v j = bit 8 arr (off + bits - 1 - j)) /\
  (words_ok 32 arr -> 0 < bits -> bits - (32 - off `mod` 32) <= 32 ->
   off + bits <= 32 * py.len arr ->
   exists v,
     bitutils.read_binary_from_iarray arr off bits = Ok v /\
     0 <= v < 2 ^ bits /\
     forall j, 0 <= j < bits -> Z.testbit v j = bit 32 arr (off + bits - 1 - j)).
Proof.
  intros Hoff. split.
  - intros Hok Hbits Hroom.
    destruct (read_barray_loop_spec (Z.to_nat bits) arr off bits 0)
      as (v & Hr & Hv & Hvbits); try done; try lia.
    exists v. unfold bitutils.read_binary_from_barray.
    rewrite Hr, Z.shiftl_0_l. done.
  - intros Hok Hbits Hspan Hroom. by apply read_iarray_spec.
Qed.

Lemma read_binary_bits_witness :
  (exists v,
     bitutils.read_binary_from_barray [0x12; 0x34; 0x56] 5 13 = Ok v /\
     0 <= v < 2 ^ 13 /\
     forall j, 0 <= j < 13 ->
       Z.testbit v j = bit 8 [0x12; 0x34; 0x56] (5 + 13 - 1 - j)) /\
  (exists v,
     bitutils.read_binary_from_iarray [0x12345678; 0x9ABCDEF0] 20 30 = Ok v /\
     0 <= v < 2 ^ 30 /\
     forall j, 0 <= j < 30 ->
       Z.testbit v j = bit 32 [0x12345678; 0x9ABCDEF0] (20 + 30 - 1 - j)).
Proof.
  split.
  - apply (proj1 (read_binary_bits [0x12; 0x34; 0x56] 5 13 ltac:(lia))).
    + repeat constructor; lia.
    + lia.
    + change (py.len [0x12; 0x34; 0x56]) with 3. lia.
  - apply (proj2 (read_binary_bits [0x12345678; 0x9ABCDEF0] 20 30 ltac:(lia))).
    + repeat constructor; lia.
    + lia.
    + change (20 `mod` 32) with 20. lia.
    + change (py.len [0x12345678; 0x9ABCDEF0]) with 2. lia.
Defined.

(** ** bitpackingencoder: round trip *)

(** The loop of [encode]: the numbers are written one after the other,
    [b] bits each. *)
Lemma bitpacking_encode_loop (numbers : list Z) (b size : Z) :
  1 <= b <= 33 -> Forall (fun x => 0 <= x < 2 ^ b) numbers ->
  b * py.len numbers <= 8 * Z.of_nat (Z.to_nat size) ->
  exists enc offset,
    py.for_each numbers
      (fun '(encoded, offset) number =>
         '(encoded, _) ← bitutils.write_binary_in_barray encoded offset number b;
         Ok (encoded, offset + b))
      (replicate (Z.to_nat size) 0, 0)
    = Ok (enc, offset) /\
    words_ok 8 enc /\ py.len enc = Z.of_nat (Z.to_nat size) /\
    fields_at enc 0 b numbers.
Proof.
  intros Hb Hnum Hroom.
  destruct (for_each_inv numbers
    (fun '(encoded, offset) number =>
       '(encoded, _) ← bitutils.write_binary_in_barray encoded offset number b;
       Ok (encoded, offset + b))
    (fun pre st =>
       words_ok 8 st.1 /\ py.len st.1 = Z.of_nat (Z.to_nat size) /\
       st.2 = b * py.len pre /\ fields_at st.1 0 b pre /\
       forall p, b * py.len pre <= p -> bit 8 st.1 p = false)
    (replicate (Z.to_nat size) 0, 0))
    as ([enc offset] & Hrun & Hok & Hlen & _ & Hfields & _).
  { simpl. split; [apply words_ok_zero; lia|]. split; [apply len_replicate|].
    split; [change (py.len []) with 0; lia|]. split; [done|].
    intros p _. apply bit_zero_array. }
  { intros pre x suf [enc offset] Heq (Hok & Hlen & Hoff & Hfields & Hclear).
    simpl in Hok, Hlen, Hoff, Hfields, Hclear. subst offset.
    assert (0 <= x < 2 ^ b) as Hx.
    { rewrite Heq in Hnum. apply Forall_app in Hnum as [_ H].
      by apply Forall_cons_1 in H as [H _]. }
    pose proof (len_nonneg pre) as Hpre. pose proof (len_nonneg suf) as Hsuf.
    assert (py.len numbers = py.len pre + 1 + py.len suf) as Hn.
    { rewrite Heq, len_app. unfold py.len. simpl length. lia. }
    assert (0 <= b * py.len pre) as Hoff by (apply Z.mul_nonneg_nonneg; lia).
    assert (0 <= b * py.len suf) as Hsufb by (apply Z.mul_nonneg_nonneg; lia).
    assert (0 <= (b * py.len pre) `mod` 8 < 8) as Hmod
      by (apply Z.mod_pos_bound; lia).
    destruct (write_loop_spec 3 8 bitutils.write_barray_loop
                ltac:(by left) write_barray_is_loop
                (Z.to_nat b) enc (b * py.len pre) x b)
      as (enc' & Hw & Hlen' & Hok' & Hbits); try done; try lia.
    { intros p Hp. apply Hclear. lia. }
    unfold bitutils.write_binary_in_barray. rewrite Hw, !bind_Ok.
    eexists. split; [reflexivity|]. simpl.
    split; [done|]. split; [lia|].
    split; [rewrite len_app; change (py.len [x]) with 1; lia|].
    split.
    - apply fields_at_app. split.
      + apply (fields_at_ext enc enc' (b * py.len pre)); try done; try lia.
        intros p Hp. rewrite Hbits by lia.
        destruct ((b * py.len pre <=? p) && (p <? b * py.len pre + b)) eqn:E;
          [lia|done].
      + split; [|done]. intros j Hj. rewrite Hbits by lia.
        destruct ((b * py.len pre <=? 0 + b * py.len pre + j)
                  && (0 + b * py.len pre + j <? b * py.len pre + b)) eqn:E; [|lia].
        f_equal. lia.
    - intros p Hp. rewrite len_app in Hp. change (py.len [x]) with 1 in Hp.
      rewrite Hbits by lia.
      destruct ((b * py.len pre <=? p) && (p <? b * py.len pre + b)) eqn:E; [lia|].
      apply Hclear. lia. }
  exists enc, offset. done.
Qed.

(** The loop of [decode]. *)
Lemma bitpacking_decode_loop (enc : list Z) (numbers : list Z) (b start : Z) :
  words_ok 8 enc -> 0 <= b -> 0 <= start ->
  Forall (fun x => 0 <= x < 2 ^ b) numbers ->
  fields_at enc start b numbers ->
  start + b * py.len numbers <= 8 * py.len enc ->
  py.for_each (py.range 0 (py.len numbers))
    (fun decoded i =>
       number ← bitutils.read_binary_from_barray enc (start + i * b) b;
       Ok (decoded ++ [number]))
    []
  = Ok numbers.
Proof.
  intros Hok Hb Hstart Hnum Hfields Hroom.
  destruct (for_each_range_inv numbers
    (fun decoded i =>
       number ← bitutils.read_binary_from_barray enc (start + i * b) b;
       Ok (decoded ++ [number]))
    (fun pre decoded => decoded = pre) []) as (decoded & Hrun & ->); [done| |done].
  intros pre x suf decoded Heq ->.
  assert (0 <= x < 2 ^ b) as Hx.
  { rewrite Heq in Hnum. apply Forall_app in Hnum as [_ H].
    by apply Forall_cons_1 in H as [H _]. }
  pose proof (len_nonneg pre) as Hpre. pose proof (len_nonneg suf) as Hsuf.
  assert (py.len numbers = py.len pre + 1 + py.len suf) as Hn.
  { rewrite Heq, len_app. unfold py.len. simpl length. lia. }
  assert (0 <= b * py.len pre) by (apply Z.mul_nonneg_nonneg; lia).
  assert (0 <= b * py.len suf) by (apply Z.mul_nonneg_nonneg; lia).
  rewrite Heq in Hfields. apply fields_at_app in Hfields as [_ [Hfx _]].
  rewrite (read_barray_field enc (start + py.len pre * b) b x); try done; try lia.
  - rewrite bind_Ok. eauto.
  - intros j Hj. replace (start + py.len pre * b + j)
      with (start + b * py.len pre + j) by lia. by apply Hfx.
Qed.

(** What [encode] returns on an encodable list: the Variable Byte code of
    [b - 1], then the bytes that hold the numbers, [b] bits each. *)
Lemma bitpacking_encode_spec (log2_floor : Z -> Z) (numbers : list Z) (max : Z) :
  let b := log2_floor max + 1 in
  py.getitem (py.sorted numbers) (-1) = Ok max ->
  0 < max -> 1 <= b <= 33 -> Forall (fun x => 0 <= x < 2 ^ b) numbers ->
  exists body payload,
    vbencoder.encode (b - 1) = Ok (body ++ [Z.land (b - 1) 127 + 128]) /\
    Forall (fun x => 0 <= x < 128) body /\
    0 <= Z.land (b - 1) 127 < 128 /\
    Z.shiftl (vb_value 0 body) 7 + Z.land (b - 1) 127 = b - 1 /\
    bitpackingencoder.encode log2_floor numbers
      = Ok ((body ++ [Z.land (b - 1) 127 + 128]) ++ payload,
            (- (b * py.len numbers)) `mod` 8) /\
    words_ok 8 payload /\
    py.len payload = (b * py.len numbers + 7) / 8 /\
    fields_at payload 0 b numbers.
Proof.
  intros b Hmax Hpos Hb Hnum.
  pose proof (len_nonneg numbers) as Hn.
  assert (0 <= b * py.len numbers) as Hbits by (apply Z.mul_nonneg_nonneg; lia).
  set (size := py.ceil_div (b * py.len numbers) 8).
  assert (Z.of_nat (Z.to_nat size) = (b * py.len numbers + 7) / 8) as Hsize.
  { unfold size, py.ceil_div.
    replace (b * py.len numbers + 8 - 1) with (b * py.len numbers + 7) by lia.
    apply Z2Nat.id. apply Z.div_pos; lia. }
  destruct (bitpacking_encode_loop numbers b size Hb Hnum)
    as (enc & offset & Hrun & Hok & Hlen & Hfields).
  { rewrite Hsize. Z.div_mod_to_equations. lia. }
  destruct (vb_encode_run (b - 1) ltac:(lia)) as (body & Hvb & Hbody & Hd & Hval).
  set (header := body ++ [Z.land (b - 1) 127 + 128]) in *.
  assert (words_ok 8 header) as Hok_h.
  { apply Forall_app. split.
    - eapply Forall_impl; [|exact Hbody]. simpl. intros x Hx.
      change (2 ^ 8) with 256. lia.
    - constructor; [|constructor]. change (2 ^ 8) with 256. lia. }
  exists body, enc. fold header.
  split; [exact Hvb|]. split; [exact Hbody|]. split; [exact Hd|].
  split; [exact Hval|].
  split; [|split; [exact Hok|split; [lia|exact Hfields]]].
  unfold bitpackingencoder.encode. rewrite Hmax, bind_Ok.
  destruct (max <=? 0) eqn:E; [lia|]. fold b. fold size.
  rewrite Hrun, bind_Ok. cbv beta iota. rewrite Hvb, bind_Ok.
  rewrite bytearray_of_list_ok, bind_Ok by (by apply Forall_app).
  f_equal. f_equal.
  destruct (8 - (b * py.len numbers) `mod` 8 =? 8) eqn:E8;
    Z.div_mod_to_equations; lia.
Qed.

(** X19: bit-packing round trip.  Let [max] be what [sorted(numbers)[-1]]
    returns, positive, and [b] the width that the floating-point
    expression gives for it.  When [b] is between 1 and 33 and every number
    is non-negative and below [2^b], [encode] returns the Variable Byte
    code of [b - 1] followed by [ceil(b * n / 8)] bytes that hold the
    numbers, [b] bits each, with the padding of the last byte; and [decode]
    of these bytes with [len(numbers)] returns the numbers.  On a list
    whose greatest number is not positive [encode] raises ValueError. *)
Theorem bitpacking_roundtrip (log2_floor : Z -> Z) (numbers : list Z) (max : Z) :
  let b := log2_floor max + 1 in
  py.getitem (py.sorted numbers) (-1) = Ok max ->
  (0 < max -> 1 <= b <= 33 -> Forall (fun x => 0 <= x < 2 ^ b) numbers ->
   exists header payload,
     vbencoder.encode (b - 1) = Ok header /\
     bitpackingencoder.encode log2_floor numbers
       = Ok (header ++ payload, (- (b * py.len numbers)) `mod` 8) /\
     py.len payload = (b * py.len numbers + 7) / 8 /\
     bitpackingencoder.decode (header ++ payload) (py.len numbers) = Ok numbers) /\
  (max <= 0 -> bitpackingencoder.encode log2_floor numbers = Raise ValueError).
Proof.
  intros b Hmax. split.
  - intros Hpos Hb Hnum.
    pose proof (len_nonneg numbers) as Hn.
    assert (0 <= b * py.len numbers) as Hbits by (apply Z.mul_nonneg_nonneg; lia).
    destruct (bitpacking_encode_spec log2_floor numbers max Hmax Hpos Hb Hnum)
      as (body & enc & Hvb & Hbody & Hd & Hval & Henc & Hok & Hlen & Hfields).
    fold b in Hvb, Hd, Hval, Henc, Hlen, Hfields.
    set (header := body ++ [Z.land (b - 1) 127 + 128]) in *.
    assert (words_ok 8 header) as Hok_h.
    { apply Forall_app. split.
      - eapply Forall_impl; [|exact Hbody]. simpl. intros x Hx.
        change (2 ^ 8) with 256. lia.
      - constructor; [|constructor]. change (2 ^ 8) with 256. lia. }
    exists header, enc. split; [exact Hvb|]. split; [exact Henc|]. split; [exact Hlen|].
    unfold bitpackingencoder.decode.
    assert (vbencoder.decode_number (header ++ enc) 0
            = Ok (b - 1, 8 * py.len header)) as ->.
    { replace (header ++ enc)
        with ([] ++ body ++ (Z.land (b - 1) 127 + 128) :: enc)
        by (unfold header; by rewrite <- app_assoc).
      unfold vbencoder.decode_number.
      change (Z.shiftr 0 3) with (py.len (@nil Z)).
      rewrite (vb_decode_number_loop body [] enc 0) by (done || lia).
      rewrite bind_Ok. f_equal. f_equal; [lia|].
      change (py.len []) with 0. unfold header. rewrite len_app.
      change (py.len [_]) with 1. lia. }
    rewrite bind_Ok. cbv beta iota zeta.
    replace (b - 1 + 1) with b by lia.
    apply bitpacking_decode_loop; try done; try lia.
    + by apply Forall_app.
    + pose proof (len_nonneg header). lia.
    + rewrite <- (Z.add_0_r (8 * py.len header)).
      apply fields_at_shift; [lia|lia|done].
    + rewrite len_app, Hlen. Z.div_mod_to_equations. lia.
  - intros Hneg. unfold bitpackingencoder.encode. rewrite Hmax, bind_Ok.
    destruct (max <=? 0) eqn:E; [done|lia].
Qed.

Lemma bitpacking_roundtrip_witness :
  exists header payload,
    vbencoder.encode (Z.log2 1000 + 1 - 1) = Ok header /\
    bitpackingencoder.encode Z.log2 [7; 1000; 0; 512]
      = Ok (header ++ payload,
            (- ((Z.log2 1000 + 1) * py.len [7; 1000; 0; 512])) `mod` 8) /\
    py.len payload = ((Z.log2 1000 + 1) * py.len [7; 1000; 0; 512] + 7) / 8 /\
    bitpackingencoder.decode (header ++ payload) (py.len [7; 1000; 0; 512])
      = Ok [7; 1000; 0; 512].
Proof.
  apply (proj1 (bitpacking_roundtrip Z.log2 [7; 1000; 0; 512] 1000 eq_refl)).
  - lia.
  - vm_compute. split; discriminate.
  - repeat constructor; vm_compute; (discriminate || reflexivity).
Defined.

(** ** gammaencoder: round trip *)

(** [extend] with any list of bytes whose last [pad] bits are clear, the
    empty list with padding 0 included. *)
Lemma extend_any (self : BitByteArray.t) (n : Z) (es : list Z) (pad : Z) :
  holds self n -> words_ok 8 es -> 0 <= pad <= 8 * py.len es -> pad < 8 ->
  (forall p, 8 * py.len es - pad <= p -> bit 8 es p = false) ->
  exists self',
    BitByteArray.extend self es pad = Ok self' /\
    holds self' (n + 8 * py.len es - pad) /\
    forall p, 0 <= p ->
      bit 8 (BitByteArray.stream self') p =
        if p <? n then bit 8 (BitByteArray.stream self) p else bit 8 es (p - n).
Proof.
  intros Hholds Hok Hpad Hpad8 Hclear.
  destruct es as [|e es].
  - change (py.len []) with 0 in *. assert (pad = 0) as -> by lia.
    exists self. split.
    + unfold BitByteArray.extend. by rewrite validate_padding_ok.
    + split; [by rewrite Z.mul_0_r, Z.add_0_r, Z.sub_0_r|].
      intros p Hp. destruct (p <? n) eqn:E; [done|].
      destruct Hholds as (_ & _ & _ & _ & Hc). rewrite Hc by lia.
      unfold bit. by rewrite word_nil, Z.bits_0.
  - apply extend_bytes; try done; try lia;
      unfold py.len; simpl length; lia.
Qed.

(** What [encode] returns for [n >= 1]: [2 * k + 1] bits, [k] ones, a
    zero and the [k] bits of [n] below its leading one. *)
Lemma gamma_encode_spec (log2_floor : Z -> Z) (n : Z) :
  let k := log2_floor n in
  0 <= k -> 2 ^ k <= n < 2 ^ (k + 1) ->
  exists bytes,
    gammaencoder.encode log2_floor n = Ok (bytes, (- (2 * k + 1)) `mod` 8) /\
    words_ok 8 bytes /\
    py.len bytes = (2 * k + 1 + 7) / 8 /\
    (forall p, 0 <= p < k -> bit 8 bytes p = true) /\
    bit 8 bytes k = false /\
    (forall j, 0 <= j < k -> bit 8 bytes (k + 1 + j) = Z.testbit n (k - 1 - j)).
Proof.
  intros k Hk Hn.
  assert (0 < 2 ^ k) as Hpow by (apply Z.pow_pos_nonneg; lia).
  assert (2 ^ (k + 1) = 2 * 2 ^ k) as Hpow2
    by (rewrite Z.pow_add_r by lia; change (2 ^ 1) with 2; lia).
  set (m := n - 2 ^ k).
  assert (0 <= m < 2 ^ k) as Hm by (unfold m; lia).
  assert (m = n `mod` 2 ^ k) as Hmod.
  { apply (Z.mod_unique n (2 ^ k) 1 m); [left; lia|unfold m; lia]. }
  set (pd := if 8 - k `mod` 8 =? 8 then 0 else 8 - k `mod` 8).
  set (size := py.ceil_div k 8).
  assert (0 <= pd < 8 /\ 0 <= size /\ 8 * size - pd = k) as (Hpd & Hsize & Hfit).
  { unfold pd, size, py.ceil_div.
    destruct (8 - k `mod` 8 =? 8) eqn:E; Z.div_mod_to_equations; lia. }
  set (vb := bitbyteutils.to_bytes size (Z.shiftl m pd)).
  assert (gammaencoder.to_vb log2_floor n = Ok (vb, pd)) as Hvb.
  { unfold gammaencoder.to_vb. destruct (n <=? 0) eqn:E; [lia|]. fold k.
    replace (k + 1 - 1) with k by lia.
    destruct (k <? 0) eqn:E2; [lia|]. fold m.
    change 7 with (Z.ones 3). rewrite Z.land_ones by lia.
    change (2 ^ 3) with 8. fold pd. fold size.
    rewrite lshift_nonneg, bind_Ok by lia. reflexivity. }
  assert (py.len vb = size) as Hlen_vb by (apply to_bytes_len; lia).
  (* the unary code of the size *)
  assert (0 <= k `mod` 8 < 8) as Hr by (apply Z.mod_pos_bound; lia).
  set (r := k `mod` 8) in *.
  set (q := Z.to_nat ((k + 8) / 8 - 1)).
  assert (k = 8 * Z.of_nat q + r) as Hkq.
  { unfold q, r. Z.div_mod_to_equations. lia. }
  set (u := replicate q 255 ++ [unary_tail r]).
  assert (py.len u = Z.of_nat q + 1) as Hlen_u.
  { unfold u. rewrite len_app, len_replicate. reflexivity. }
  destruct (extend_any BitByteArray.new 0 u (7 - r) holds_new)
    as (s1 & Hrun1 & Hs1 & Hbits1).
  { apply Forall_app. split.
    - apply Forall_replicate. change (2 ^ 8) with 256. lia.
    - constructor; [|constructor]. pose proof (unary_tail_range r Hr).
      change (2 ^ 8) with 256. lia. }
  { lia. }
  { lia. }
  { intros p Hp. unfold u. rewrite unary_bytes_bit by lia. apply Z.ltb_ge. lia. }
  replace (0 + 8 * py.len u - (7 - r)) with (k + 1) in Hs1 by lia.
  destruct (extend_any s1 (k + 1) vb pd Hs1) as (s2 & Hrun2 & Hs2 & Hbits2).
  { apply to_bytes_ok. }
  { lia. }
  { lia. }
  { intros p Hp. destruct (Z.lt_ge_cases p (8 * py.len vb)).
    - unfold vb. rewrite to_bytes_bit by lia.
      rewrite Z.shiftl_spec by lia. apply Z.testbit_neg_r. lia.
    - unfold bit. rewrite word_beyond; [apply Z.bits_0|].
      Z.div_mod_to_equations. lia. }
  replace (k + 1 + 8 * py.len vb - pd) with (2 * k + 1) in Hs2 by lia.
  set (bytes := BitByteArray.stream s2).
  pose proof Hs2 as (_ & Hok2 & Hlen2 & _ & _). fold bytes in Hok2, Hlen2.
  exists bytes.
  split; [|split; [exact Hok2|split; [exact Hlen2|split; [|split]]]].
  - unfold gammaencoder.encode. rewrite Hvb, bind_Ok. cbv beta iota zeta.
    replace (py.len vb * 8 - pd) with k by lia.
    rewrite (unary_encode_plain k Hk), bind_Ok. cbv beta iota.
    fold r. fold (unary_tail r). fold q. fold u.
    unfold gammaencoder.merge_encodes.
    rewrite Hrun1, bind_Ok, Hrun2, bind_Ok.
    unfold BitByteArray.to_bytearray. fold bytes.
    by rewrite (padding_spec s2 _ Hs2).
  - intros p Hp. unfold bytes. rewrite Hbits2 by lia.
    destruct (p <? k + 1) eqn:E; [|lia]. rewrite Hbits1 by lia.
    destruct (p <? 0) eqn:E2; [lia|]. rewrite Z.sub_0_r.
    unfold u. rewrite unary_bytes_bit by lia. apply Z.ltb_lt. lia.
  - unfold bytes. rewrite Hbits2 by lia.
    destruct (k <? k + 1) eqn:E; [|lia]. rewrite Hbits1 by lia.
    destruct (k <? 0) eqn:E2; [lia|]. rewrite Z.sub_0_r.
    unfold u. rewrite unary_bytes_bit by lia. apply Z.ltb_ge. lia.
  - intros j Hj. unfold bytes. rewrite Hbits2 by lia.
    destruct (k + 1 + j <? k + 1) eqn:E; [lia|].
    replace (k + 1 + j - (k + 1)) with j by lia.
    unfold vb. rewrite to_bytes_bit by lia.
    rewrite Z.shiftl_spec by lia.
    replace (8 * size - 1 - j - pd) with (k - 1 - j) by lia.
    rewrite Hmod. apply Z.mod_pow2_bits_low. lia.
Qed.

(** X20: Elias-gamma round trip.  For every [n >= 1] for which the
    floating-point expression gives the position [k] of the leading one
    ([2^k <= n < 2^(k+1)]), [encode] returns [2 * k + 1] bits in
    [ceil((2 * k + 1) / 8)] bytes, [k] ones, a zero and the [k] bits of [n]
    below its leading one, with the padding of the last byte; and [decode]
    of one number from these bytes, followed by any other bytes, returns
    [n].  On [n <= 0] [encode] raises ValueError. *)
Theorem gamma_roundtrip (log2_floor : Z -> Z) (n : Z) (rest : list Z) :
  let k := log2_floor n in
  (0 <= k -> 2 ^ k <= n < 2 ^ (k + 1) -> words_ok 8 rest ->
   exists bytes,
     gammaencoder.encode log2_floor n = Ok (bytes, (- (2 * k + 1)) `mod` 8) /\
     py.len bytes = (2 * k + 1 + 7) / 8 /\
     (forall p, 0 <= p < k -> bit 8 bytes p = true) /\
     bit 8 bytes k = false /\
     (forall j, 0 <= j < k -> bit 8 bytes (k + 1 + j) = Z.testbit n (k - 1 - j)) /\
     gammaencoder.decode (bytes ++ rest) 1 = Ok [n]) /\
  (n <= 0 -> gammaencoder.encode log2_floor n = Raise ValueError).
Proof.
  intros k. split.
  - intros Hk Hn Hrest.
    destruct (gamma_encode_spec log2_floor n Hk Hn)
      as (bytes & Henc & Hok2 & Hlen2 & Hones & Hzero & Hbits).
    fold k in Henc, Hlen2, Hones, Hzero, Hbits.
    assert (0 < 2 ^ k) as Hpow by (apply Z.pow_pos_nonneg; lia).
    assert (2 ^ (k + 1) = 2 * 2 ^ k) as Hpow2
      by (rewrite Z.pow_add_r by lia; change (2 ^ 1) with 2; lia).
    set (m := n - 2 ^ k).
    assert (0 <= m < 2 ^ k) as Hm by (unfold m; lia).
    assert (m = n `mod` 2 ^ k) as Hmod.
    { apply (Z.mod_unique n (2 ^ k) 1 m); [left; lia|unfold m; lia]. }
    exists bytes.
    split; [exact Henc|split; [exact Hlen2|split; [exact Hones|
      split; [exact Hzero|split; [exact Hbits|]]]]].
    assert (words_ok 8 (bytes ++ rest)) as Hok_enc by (by apply Forall_app).
    pose proof (len_nonneg rest) as Hrest0.
    assert (2 * k + 1 <= 8 * py.len bytes) as Hroom
      by (rewrite Hlen2; Z.div_mod_to_equations; lia).
    assert (forall p, 0 <= p < 8 * py.len bytes ->
              bit 8 (bytes ++ rest) p = bit 8 bytes p) as Hsame.
    { intros p Hp. rewrite bit_app by lia.
      destruct (p <? 8 * py.len bytes) eqn:E; [done|lia]. }
    unfold gammaencoder.decode. change (py.range 0 1) with [0].
    rewrite for_each_cons.
    rewrite (unary_decode_at (bytes ++ rest) 0 k); try done; try lia.
    2:{ rewrite len_app. lia. }
    2:{ intros p Hp. rewrite Hsame by lia. apply Hones. lia. }
    2:{ rewrite Hsame by lia. exact Hzero. }
    rewrite bind_Ok. change (py.getitem [k] 0) with (Ok k : result Z).
    rewrite bind_Ok. cbv zeta.
    rewrite (read_barray_field (bytes ++ rest) (0 + k + 1) k m); try done; try lia.
    2:{ rewrite len_app. lia. }
    2:{ intros j Hj. rewrite Hsame by lia.
        replace (0 + k + 1 + j) with (k + 1 + j) by lia.
        rewrite Hbits by done. rewrite Hmod.
        symmetry. apply Z.mod_pow2_bits_low. lia. }
    rewrite bind_Ok, lshift_nonneg, bind_Ok by lia.
    rewrite bind_Ok, for_each_nil, bind_Ok. cbv beta iota.
    rewrite Z.shiftl_1_l. simpl app. do 2 f_equal. unfold m. lia.
  - intros Hneg. unfold gammaencoder.encode, gammaencoder.to_vb.
    destruct (n <=? 0) eqn:E; [done|lia].
Qed.

Lemma gamma_roundtrip_witness :
  exists bytes,
    gammaencoder.encode Z.log2 37 = Ok (bytes, (- (2 * Z.log2 37 + 1)) `mod` 8) /\
    py.len bytes = (2 * Z.log2 37 + 1 + 7) / 8 /\
    (forall p, 0 <= p < Z.log2 37 -> bit 8 bytes p = true) /\
    bit 8 bytes (Z.log2 37) = false /\
    (forall j, 0 <= j < Z.log2 37 ->
       bit 8 bytes (Z.log2 37 + 1 + j) = Z.testbit 37 (Z.log2 37 - 1 - j)) /\
    gammaencoder.decode (bytes ++ [170]) 1 = Ok [37].
Proof.
  apply (proj1 (gamma_roundtrip Z.log2 37 [170])).
  - vm_compute. discriminate.
  - vm_compute. split; [discriminate|reflexivity].
  - repeat constructor; vm_compute; (discriminate || reflexivity).
Defined.

(** ** Size predictions and the encoders *)

Lemma vb_encode_len (n : Z) (code : list Z) :
  0 <= n -> vbencoder.encode n = Ok code -> py.len code = Z.log2 n / 7 + 1.
Proof.
  intros Hn Henc.
  destruct (vb_encode_loop_spec (S (Z.to_nat (Z.log2 n))) n []) as
    (body & Hrun & Hbody & Hval & Hlen); [lia| |].
  { split; [done|]. destruct (Z.eq_dec n 0) as [-> | Hnz]; [done|].
    pose proof (Z.log2_nonneg n).
    assert (n < 2 ^ (Z.log2 n + 1)).
    { replace (Z.log2 n + 1) with (Z.succ (Z.log2 n)) by lia.
      apply Z.log2_spec. lia. }
    assert (2 ^ (Z.log2 n + 1) <= 2 ^ (7 * Z.of_nat (S (Z.to_nat (Z.log2 n))))).
    { apply Z.pow_le_mono_r; lia. }
    lia. }
  unfold vbencoder.encode in Henc. rewrite Hrun, bind_Ok in Henc.
  rewrite app_nil_r, getitem_last, bind_Ok, setitem_last in Henc.
  injection Henc as <-. rewrite len_app, Hlen. reflexivity.
Qed.

(** The predicted size of one number against the bytes of its code, by the
    position [l] of the leading one. *)
Lemma vb_size_arith (l : Z) :
  0 <= l ->
  let bits := l + 1 in
  let size := Z.shiftl (py.ceil_div (bits + py.ceil_div bits 8) 8) 3 in
  size <= 8 * (l / 7 + 1) /\
  (l < 63 -> size = 8 * (l / 7 + 1)) /\
  (l = 63 -> size < 8 * (l / 7 + 1)).
Proof.
  intros Hl bits size. unfold size, bits, py.ceil_div.
  rewrite Z.shiftl_mul_pow2 by lia. change (2 ^ 3) with 8.
  repeat split; [|intros H|intros H]; Z.div_mod_to_equations; lia.
Qed.

Lemma vb_size_run (log2_floor : Z -> Z) (numbers : list Z) (codes : list (list Z))
    (acc : Z) :
  Forall (fun n => 1 <= n /\ log2_floor n = Z.log2 n) numbers ->
  Forall2 (fun n code => vbencoder.encode n = Ok code) numbers codes ->
  exists size,
    py.for_each numbers
      (fun size number =>
         if number <=? 0 then Raise ValueError else
         let required_bits := log2_floor number + 1 in
         let required_bits := required_bits + py.ceil_div required_bits 8 in
         number_size ← py.lshift (py.ceil_div required_bits 8) 3;
         Ok (size + number_size))
      acc
    = Ok (acc + size) /\
    size <= 8 * py.len (concat codes) /\
    (Forall (fun n => n < 2 ^ 63) numbers -> size = 8 * py.len (concat codes)) /\
    (Exists (fun n => 2 ^ 63 <= n < 2 ^ 64) numbers ->
     size < 8 * py.len (concat codes)).
Proof.
  intros Hnum Hcodes. revert acc Hnum.
  induction Hcodes as [|n code numbers codes Henc _ IH]; intros acc Hnum.
  - exists 0. split; [simpl; f_equal; lia|]. split; [done|]. split; [done|].
    intros H. by apply Exists_nil in H.
  - apply Forall_cons_1 in Hnum as [[Hn Hlog] Hnum].
    pose proof (Z.log2_nonneg n) as Hl.
    destruct (vb_size_arith (Z.log2 n) Hl) as (Hle & Heq & Hlt).
    pose proof (vb_encode_len n code ltac:(lia) Henc) as Hlen.
    rewrite for_each_cons. set (loop := py.for_each numbers _).
    destruct (n <=? 0) eqn:E; [lia|].
    rewrite Hlog. cbv zeta. rewrite lshift_nonneg, bind_Ok by lia.
    set (s := Z.shiftl _ 3) in *.
    destruct (IH (acc + s) Hnum) as (size & Hrun & Hle' & Heq' & Hlt').
    exists (s + size). split; [subst loop; rewrite bind_Ok, Hrun; f_equal; lia|].
    simpl concat. rewrite len_app, Hlen.
    split; [lia|]. split.
    + intros Hall. apply Forall_cons_1 in Hall as [Hsmall Hall].
      assert (Z.log2 n < 63) by (apply Z.log2_lt_pow2; lia).
      specialize (Heq ltac:(lia)). specialize (Heq' Hall). lia.
    + intros Hex. apply Exists_cons in Hex as [Hbig | Hex].
      * assert (Z.log2 n = 63) as H63 by (apply Z.log2_unique; lia).
        specialize (Hlt H63). lia.
      * specialize (Hlt' Hex). lia.
Qed.

Lemma vb_size_rejects (log2_floor : Z -> Z) (numbers : list Z) (acc : Z) :
  Exists (fun n => n <= 0) numbers ->
  py.for_each numbers
    (fun size number =>
       if number <=? 0 then Raise ValueError else
       let required_bits := log2_floor number + 1 in
       let required_bits := required_bits + py.ceil_div required_bits 8 in
       number_size ← py.lshift (py.ceil_div required_bits 8) 3;
       Ok (size + number_size))
    acc
  = Raise ValueError.
Proof.
  revert acc. induction numbers as [|n numbers IH]; intros acc Hex.
  - by apply Exists_nil in Hex.
  - rewrite for_each_cons. set (loop := py.for_each numbers _).
    destruct (n <=? 0) eqn:E; [reflexivity|].
    apply Exists_cons in Hex as [Hn | Hex]; [lia|].
    cbv zeta. rewrite lshift_nonneg, !bind_Ok by lia. by apply IH.
Qed.

(** X21: the size prediction of Variable Byte against the encoder.  On
    numbers from 1 on, for which the floating-point expression gives the
    position of the leading one, [compute_encoded_size] never exceeds the
    bits of the codes that [encode] returns; it equals them when every
    number is below [2^63], and it is smaller when some number has 64
    bits (72 bits predicted, 10 bytes written).  On a list that holds a
    number that is not positive it raises ValueError, where [encode]
    returns a code for 0. *)
Theorem vb_size_vs_encode (log2_floor : Z -> Z) (numbers : list Z)
    (codes : list (list Z)) :
  (Forall (fun n => 1 <= n /\ log2_floor n = Z.log2 n) numbers ->
   Forall2 (fun n code => vbencoder.encode n = Ok code) numbers codes ->
   exists size,
     vbencoder.compute_encoded_size log2_floor numbers = Ok size /\
     size <= 8 * py.len (concat codes) /\
     (Forall (fun n => n < 2 ^ 63) numbers -> size = 8 * py.len (concat codes)) /\
     (Exists (fun n => 2 ^ 63 <= n < 2 ^ 64) numbers ->
      size < 8 * py.len (concat codes))) /\
  (Exists (fun n => n <= 0) numbers ->
   vbencoder.compute_encoded_size log2_floor numbers = Raise ValueError) /\
  vbencoder.encode 0 = Ok [128].
Proof.
  split; [|split; [|reflexivity]].
  - intros Hnum Hcodes.
    destruct (vb_size_run log2_floor numbers codes 0 Hnum Hcodes)
      as (size & Hrun & H).
    exists size. split; [|exact H].
    etrans; [exact Hrun|]. by rewrite Z.add_0_l.
  - intros Hex. by apply vb_size_rejects.
Qed.

Lemma vb_size_vs_encode_witness :
  exists size,
    vbencoder.compute_encoded_size Z.log2 [5; 300; 70000] = Ok size /\
    size <= 8 * py.len (concat [[133]; [2; 172]; [4; 34; 240]]) /\
    (Forall (fun n => n < 2 ^ 63) [5; 300; 70000] ->
     size = 8 * py.len (concat [[133]; [2; 172]; [4; 34; 240]])) /\
    (Exists (fun n => 2 ^ 63 <= n < 2 ^ 64) [5; 300; 70000] ->
     size < 8 * py.len (concat [[133]; [2; 172]; [4; 34; 240]])).
Proof.
  apply (proj1 (vb_size_vs_encode Z.log2 [5; 300; 70000]
                  [[133]; [2; 172]; [4; 34; 240]])).
  - repeat constructor; lia.
  - repeat constructor.
Defined.

(** X22: the size prediction of bit packing against the encoder.  On a
    list that [encode] accepts, with a width [b] from 1 to 33 for which the
    floating-point expression gives the position of the leading one,
    [compute_encoded_size] equals the bits that [encode] writes: eight
    times the bytes, less the padding. *)
Theorem bitpacking_size_vs_encode (log2_floor : Z -> Z) (numbers : list Z)
    (max : Z) :
  let b := log2_floor max + 1 in
  py.getitem (py.sorted numbers) (-1) = Ok max ->
  0 < max -> 1 <= b <= 33 -> log2_floor b = Z.log2 b ->
  Forall (fun x => 0 <= x < 2 ^ b) numbers ->
  exists bytes padding,
    bitpackingencoder.encode log2_floor numbers = Ok (bytes, padding) /\
    bitpackingencoder.compute_encoded_size log2_floor numbers
      = Ok (8 * py.len bytes - padding).
Proof.
  intros b Hmax Hpos Hb Hlog Hnum.
  destruct (bitpacking_encode_spec log2_floor numbers max Hmax Hpos Hb Hnum)
    as (body & enc & Hvb & Hbody & Hd & Hval & Henc & Hok & Hlen & Hfields).
  fold b in Hvb, Hd, Hval, Henc, Hlen, Hfields.
  pose proof (vb_encode_len (b - 1) _ ltac:(lia) Hvb) as Hlen_h.
  assert (Z.log2 (b - 1) / 7 = 0) as H0.
  { destruct (Z.eq_dec (b - 1) 0) as [-> | Hnz]; [done|].
    assert (Z.log2 (b - 1) < 7) by (apply Z.log2_lt_pow2; lia).
    pose proof (Z.log2_nonneg (b - 1)). apply Z.div_small. lia. }
  do 2 eexists. split; [exact Henc|].
  unfold bitpackingencoder.compute_encoded_size. rewrite Hmax, bind_Ok.
  destruct (max <=? 0) eqn:E; [lia|]. fold b. cbv zeta.
  unfold vbencoder.compute_encoded_size. rewrite for_each_cons.
  destruct (b <=? 0) eqn:E2; [lia|]. rewrite Hlog. cbv zeta.
  rewrite lshift_nonneg by lia. rewrite !bind_Ok, for_each_nil, !bind_Ok.
  assert (0 <= Z.log2 b < 6) as Hlb.
  { split; [apply Z.log2_nonneg|]. apply Z.log2_lt_pow2; lia. }
  f_equal. rewrite len_app, Hlen_h, Hlen, H0.
  pose proof (len_nonneg numbers) as Hn.
  assert (0 <= b * py.len numbers) by (apply Z.mul_nonneg_nonneg; lia).
  rewrite Z.shiftl_mul_pow2 by lia. change (2 ^ 3) with 8.
  unfold py.ceil_div. Z.div_mod_to_equations. lia.
Qed.

Lemma bitpacking_size_vs_encode_witness :
  exists bytes padding,
    bitpackingencoder.encode Z.log2 [7; 1000; 0; 512] = Ok (bytes, padding) /\
    bitpackingencoder.compute_encoded_size Z.log2 [7; 1000; 0; 512]
      = Ok (8 * py.len bytes - padding).
Proof.
  apply (bitpacking_size_vs_encode Z.log2 [7; 1000; 0; 512] 1000 eq_refl).
  - lia.
  - vm_compute. split; discriminate.
  - reflexivity.
  - repeat constructor; vm_compute; (discriminate || reflexivity).
Defined.

(** The bits that a list of codes with their paddings uses. *)
Definition used_bits (codes : list (list Z * Z)) : Z :=
  foldr (fun code acc => 8 * py.len code.1 - code.2 + acc) 0 codes.

Lemma gamma_size_run (log2_floor : Z -> Z) (numbers : list Z)
    (codes : list (list Z * Z)) (acc : Z) :
  Forall (fun n => 0 <= log2_floor n /\
                   2 ^ log2_floor n <= n < 2 ^ (log2_floor n + 1)) numbers ->
  Forall2 (fun n code => gammaencoder.encode log2_floor n = Ok code) numbers codes ->
  py.for_each numbers
    (fun size number =>
       if number <=? 0 then Raise ValueError else
       shifted ← py.lshift (log2_floor number) 1;
       let number_size := shifted + 1 in
       Ok (size + number_size))
    acc
  = Ok (acc + used_bits codes).
Proof.
  intros Hnum Hcodes. revert acc Hnum.
  induction Hcodes as [|n code numbers codes Henc _ IH]; intros acc Hnum.
  - simpl. f_equal. lia.
  - apply Forall_cons_1 in Hnum as [[Hk Hn] Hnum].
    destruct (gamma_encode_spec log2_floor n Hk Hn)
      as (bytes & Hrun & _ & Hlen & _).
    rewrite Hrun in Henc. injection Henc as <-.
    assert (0 < 2 ^ log2_floor n) by (apply Z.pow_pos_nonneg; lia).
    rewrite for_each_cons. set (loop := py.for_each numbers _).
    destruct (n <=? 0) eqn:E; [lia|].
    rewrite lshift_nonneg, !bind_Ok by lia. cbv zeta.
    subst loop. rewrite IH by done. f_equal. simpl used_bits. simpl fst. simpl snd.
    rewrite Hlen, Z.shiftl_mul_pow2 by lia. change (2 ^ 1) with 2.
    Z.div_mod_to_equations. lia.
Qed.

(** X23: the size prediction of Elias-gamma against the encoder.  On
    numbers from 1 on, for which the floating-point expression gives the
    position of the leading one, [compute_encoded_size] equals the bits
    that [encode] writes for the numbers of the list: for each one eight
    times the bytes, less the padding. *)
Theorem gamma_size_vs_encode (log2_floor : Z -> Z) (numbers : list Z)
    (codes : list (list Z * Z)) :
  Forall (fun n => 0 <= log2_floor n /\
                   2 ^ log2_floor n <= n < 2 ^ (log2_floor n + 1)) numbers ->
  Forall2 (fun n code => gammaencoder.encode log2_floor n = Ok code) numbers codes ->
  gammaencoder.compute_encoded_size log2_floor numbers = Ok (used_bits codes).
Proof.
  intros Hnum Hcodes.
  etrans; [exact (gamma_size_run log2_floor numbers codes 0 Hnum Hcodes)|].
  by rewrite Z.add_0_l.
Qed.

Lemma gamma_size_vs_encode_witness :
  gammaencoder.compute_encoded_size Z.log2 [1; 37]
    = Ok (used_bits [([0], 7); ([248; 160], 5)]).
Proof.
  apply (gamma_size_vs_encode Z.log2 [1; 37] [([0], 7); ([248; 160], 5)]).
  - repeat constructor; vm_compute; (discriminate || reflexivity).
  - repeat constructor.
Defined.

(** ** unaryencoder: the size law *)

(** The optimized [encode] of [n > 0] returns what the plain [encode]
    returns for [n - 1], padding included. *)
Lemma unary_encode_optimized_is_plain (n : Z) :
  0 < n -> unaryencoder.encode n true = unaryencoder.encode (n - 1) false.
Proof.
  intros Hpos. rewrite (unary_encode_plain (n - 1)) by lia.
  fold (unary_tail ((n - 1) `mod` 8)).
  replace (n - 1 + 8) with (n + 7) by lia.
  destruct (unary_encode_optimized n Hpos) as [padding Henc].
  rewrite Henc. f_equal. f_equal.
  revert Henc. unfold unaryencoder.encode, py.ceil_div.
  replace (n + 1 + 8 - 1) with (n + 8) by lia.
  assert (0 < (n + 8) / 8) as Hk by (Z.div_mod_to_equations; lia).
  assert (0 <= n `mod` 8 < 8) as Hm by (apply Z.mod_pos_bound; lia).
  destruct (8 - n `mod` 8 - 1 =? 8) eqn:E1; [lia|].
  destruct ((n + 8) / 8 <? 0) eqn:E2; [lia|].
  rewrite replicate_snoc by done.
  rewrite getitem_last. simpl. rewrite setitem_last. simpl.
  destruct (n =? 0) eqn:E3; [lia|].
  destruct (8 - n `mod` 8 - 1 =? 7) eqn:E4.
  - rewrite pop_last_snoc. simpl.
    assert (0 < (n + 8) / 8 - 1) as Hk2 by (Z.div_mod_to_equations; lia).
    rewrite replicate_snoc by done.
    rewrite getitem_last. simpl. rewrite setitem_last. simpl.
    destruct (8 - n `mod` 8 - 1 <? 7) eqn:E5; [lia|].
    intros [= _ <-]. Z.div_mod_to_equations. lia.
  - simpl. rewrite getitem_last. simpl. rewrite setitem_last. simpl.
    destruct (8 - n `mod` 8 - 1 <? 7) eqn:E5; [|lia].
    intros [= _ <-]. Z.div_mod_to_equations. lia.
Qed.

(** What the plain [encode] returns for [n >= 0]: [n] set bits and clear
    bits after them, in [(n + 8) / 8] bytes, with a padding from 0 to 7
    that leaves [n + 1] bits. *)
Lemma unary_plain_bits (n : Z) :
  0 <= n ->
  exists bytes padding,
    unaryencoder.encode n false = Ok (bytes, padding) /\
    8 * py.len bytes - padding = n + 1 /\
    0 <= padding <= 7 /\
    words_ok 8 bytes /\
    forall p, 0 <= p -> bit 8 bytes p = (p <? n).
Proof.
  intros Hn.
  assert (0 < (n + 8) / 8) as Hk by (Z.div_mod_to_equations; lia).
  assert (0 <= n `mod` 8 < 8) as Hm by (apply Z.mod_pos_bound; lia).
  do 2 eexists. split; [by apply unary_encode_plain|].
  fold (unary_tail (n `mod` 8)).
  split; [|split; [lia|split]].
  - rewrite len_app, len_replicate. unfold py.len. simpl.
    Z.div_mod_to_equations. lia.
  - apply Forall_app. split.
    + apply Forall_replicate. change (2 ^ 8) with 256. lia.
    + constructor; [|constructor]. pose proof (unary_tail_range _ Hm).
      change (2 ^ 8) with 256. lia.
  - intros p Hp. rewrite unary_bytes_bit by done.
    f_equal. rewrite Z2Nat.id by lia. Z.div_mod_to_equations. lia.
Qed.

(** C6: for every [n >= 0] the unoptimized [encode] returns bytes and a
    padding from 0 to 7 whose used bits, [8 * len(bytes) - padding], are
    exactly [n + 1]: [n] set bits and a clear one, the padding bits being
    clear too.  For every [n > 0] the optimized [encode] returns bytes and
    a padding from 0 to 7 whose used bits are exactly [n]: [n - 1] set bits
    and a clear one. *)
Theorem unary_size_law (n : Z) :
  0 <= n ->
  (exists bytes padding,
      unaryencoder.encode n false = Ok (bytes, padding) /\
      8 * py.len bytes - padding = n + 1 /\
      0 <= padding <= 7 /\
      words_ok 8 bytes /\
      forall p, 0 <= p -> bit 8 bytes p = (p <? n)) /\
  (0 < n ->
   exists bytes padding,
      unaryencoder.encode n true = Ok (bytes, padding) /\
      8 * py.len bytes - padding = n /\
      0 <= padding <= 7 /\
      words_ok 8 bytes /\
      forall p, 0 <= p -> bit 8 bytes p = (p <? n - 1)).
Proof.
  intros Hn. split.
  - by apply unary_plain_bits.
  - intros Hpos. rewrite unary_encode_optimized_is_plain by done.
    destruct (unary_plain_bits (n - 1)) as (bytes & padding & Henc & Hused & H);
      [lia|].
    exists bytes, padding. split; [exact Henc|]. split; [lia|exact H].
Qed.

Lemma unary_size_law_witness :
  (exists bytes padding,
      unaryencoder.encode 8 false = Ok (bytes, padding) /\
      8 * py.len bytes - padding = 8 + 1 /\
      0 <= padding <= 7 /\
      words_ok 8 bytes /\
      forall p, 0 <= p -> bit 8 bytes p = (p <? 8)) /\
  (0 < 8 ->
   exists bytes padding,
      unaryencoder.encode 8 true = Ok (bytes, padding) /\
      8 * py.len bytes - padding = 8 /\
      0 <= padding <= 7 /\
      words_ok 8 bytes /\
      forall p, 0 <= p -> bit 8 bytes p = (p <? 8 - 1)).
Proof. apply (unary_size_law 8). lia. Defined.
